(** * Audio post-processing and demo assembly of the ODIADEV TTS wrapper

    A shallow embedding of
      - [engines/mms_tts.py] and [engines/xtts_engine.py]
        ([_soft_limit], [_trim_trailing_silence], [synthesize_to_wav]),
      - [scripts/simple_demo.py] and [scripts/multilang_demo.py]
        ([synthesize_segment], [main]).

    Conventions of the embedding.
      - A NumPy array of samples is a [list R]: sample arithmetic is the
        arithmetic of the real numbers.  Where rounding or NaN decides a
        property, [Rounded._soft_limit] repeats the limiter over
        [Binary64.f64], the reals rounded to the nearest binary64 value
        together with NaN (infinities and overflow are not represented).
      - A Python [int] is a [Z]; [int(a / b)] on integers is the quotient
        truncated towards zero, [Z.quot].
      - A Python exception is the [Raise] case of [result]; printing, the
        files written by [soundfile] and the temporary files are a state
        threaded through the [IO] monad.  [time.sleep], the choice of the
        device and the creation of the output directory leave no trace in
        that state and are left out.
      - The pretrained models are outside the repository: they are the
        record [models], a parameter of every function that calls them.
      - A recursive Python function carries the number of nested calls the
        interpreter still allows; at zero it raises [RecursionError]. *)

From Stdlib Require Import String Ascii.
From Stdlib Require Import Reals Lra Lia ZArith List Bool Psatz.
Import ListNotations.

Set Implicit Arguments.

(* ================================================================== *)
(** ** Python exceptions *)

Inductive exn : Type :=
| ValueError (msg : string)
| ZeroDivisionError
| IndexError
| KeyError
| FileNotFoundError
| RecursionError.

Inductive result (A : Type) : Type :=
| Ok (a : A)
| Raise (e : exn).

Arguments Ok {A} a.
Arguments Raise {A} e.

Definition rbind {A B : Type} (m : result A) (k : A -> result B) : result B :=
  match m with
  | Ok a => k a
  | Raise e => Raise e
  end.

Declare Scope result_scope.
Delimit Scope result_scope with result.
Notation "x <- m ;; k" := (rbind m (fun x => k))
  (at level 61, m at next level, right associativity) : result_scope.

(* ================================================================== *)
(** ** The NumPy operations the code uses *)

Module Np.

Local Open Scope R_scope.

Definition ndarray : Type := list R.

(** [x.size], as a Python int. *)
Definition size (x : ndarray) : Z := Z.of_nat (length x).

(** [np.abs(x)]. *)
Definition abs (x : ndarray) : ndarray := map Rabs x.

(** [np.max(x)]: a zero-size array has no maximum and raises. *)
Definition max (x : ndarray) : result R :=
  match x with
  | [] => Raise (ValueError "zero-size array to reduction operation maximum which has no identity")
  | a :: l => Ok (fold_left Rmax l a)
  end.

(** [x * c], a scalar broadcast. *)
Definition scale (x : ndarray) (c : R) : ndarray := map (fun v => v * c) x.

(** [np.tanh(x)]. *)
Definition tanh (x : ndarray) : ndarray := map Rtrigo_def.tanh x.

(** Comparisons of reals as booleans. *)
Definition gtb (a b : R) : bool := if Rgt_dec a b then true else false.
Definition ltb (a b : R) : bool := if Rlt_dec a b then true else false.
Definition leb (a b : R) : bool := if Rle_dec a b then true else false.

(** [x > c], the boolean mask. *)
Definition gt (x : ndarray) (c : R) : list bool := map (fun v => gtb v c) x.

(** [np.where(mask)[0]]: the indices of the true entries, ascending. *)
Fixpoint where_from (i : nat) (mask : list bool) : list nat :=
  match mask with
  | [] => []
  | b :: mask' =>
      if b then i :: where_from (S i) mask' else where_from (S i) mask'
  end.

Definition where_true (mask : list bool) : list nat := where_from 0 mask.

(** [idx[-1]] on an index array. *)
Definition last_item (idx : list nat) : result nat :=
  match idx with
  | [] => Raise IndexError
  | i :: idx' => Ok (last idx' i)
  end.

(** [x[:k]] for a Python int [k]: a negative stop counts from the end,
    and a stop beyond the end is clamped. *)
Definition slice_to {A : Type} (x : list A) (k : Z) : list A :=
  if (k <? 0)%Z
  then firstn (Z.to_nat (Z.of_nat (length x) + k)) x
  else firstn (Z.to_nat k) x.

(** [np.concatenate(xs)]. *)
Definition concatenate (xs : list ndarray) : ndarray := concat xs.

(** [np.arange(n)]. *)
Definition arange (n : nat) : ndarray := map INR (seq 0 n).

(** [np.linspace(start, stop, num)], end point included. *)
Definition linspace (start stop : R) (num : Z) : result ndarray :=
  if (num <? 0)%Z
  then Raise (ValueError "Number of samples must be non-negative")
  else
    let n := Z.to_nat num in
    let step := (stop - start) / INR (n - 1) in
    Ok (map (fun i => if (n =? 1)%nat then start else start + INR i * step) (seq 0 n)).

(** One value of [np.interp] over increasing sample points: constant
    outside the points, linear between two neighbours. *)
Fixpoint interp_at (v x0 y0 : R) (rest : list (R * R)) : R :=
  match rest with
  | [] => y0
  | (x1, y1) :: rest' =>
      if ltb v x1
      then (if leb v x0 then y0 else y0 + (v - x0) * ((y1 - y0) / (x1 - x0)))
      else interp_at v x1 y1 rest'
  end.

(** [np.interp(x, xp, fp)]: the sample points must be there, and as many
    as the values. *)
Definition interp (x xp fp : ndarray) : result ndarray :=
  match xp with
  | [] => Raise (ValueError "array of sample points is empty")
  | x0 :: xp' =>
      match fp with
      | y0 :: fp' =>
          if (length xp' =? length fp')%nat
          then Ok (map (fun v => interp_at v x0 y0 (combine xp' fp')) x)
          else Raise (ValueError "fp and xp are not of the same length")
      | [] => Raise (ValueError "fp and xp are not of the same length")
      end
  end.

(** [np.log10(v)] for a positive [v]. *)
Definition log10 (v : R) : R := Rlog 10 v.

End Np.

(** [int(a / b)] for Python ints [a] and [b <> 0]: true division, then
    truncation towards zero. *)
Definition int_div (a b : Z) : Z := Z.quot a b.

(* ================================================================== *)
(** ** engines/mms_tts.py and engines/xtts_engine.py: post-processing

    The two engine modules define [_soft_limit] and
    [_trim_trailing_silence] with identical bodies. *)

Module Engines.

Import Np.
Local Open Scope R_scope.
Local Open Scope result_scope.

(** [TARGET_PEAK = 10 ** (-1.0 / 20.0)], that is -1 dBFS. *)
Definition TARGET_PEAK : R := Rpower 10 (- 1 / 20).

Definition _soft_limit (x : ndarray) (target_peak : R) : result ndarray :=
  if (size x =? 0)%Z then Ok x else
  max_abs <- Np.max (Np.abs x) ;;
  if ltb max_abs 1e-9 then Ok x else
  let scale := if gtb max_abs target_peak then target_peak / max_abs else 1 in
  let y := Np.scale x scale in
  Ok (Np.tanh (Np.scale y 1.1)).

Definition _trim_trailing_silence
  (x : ndarray) (sr : Z) (thresh : R) (max_ms : Z) : result ndarray :=
  if (size x =? 0)%Z then Ok x else
  let idx := where_true (gt (Np.abs x) thresh) in
  if (Z.of_nat (length idx) =? 0)%Z
  then Ok (slice_to x (int_div (sr * max_ms) 1000))
  else
    last <- last_item idx ;;
    let keep := Z.min (size x) (Z.of_nat last + int_div (sr * max_ms) 1000) in
    Ok (slice_to x keep).

(** The defaults [thresh = 1e-3] and [max_ms = 200]. *)
Definition default_thresh : R := 1e-3.
Definition default_max_ms : Z := 200.

End Engines.

(* ================================================================== *)
(** ** The same limiter as floating point runs it

    The definitions above compute with real numbers.  NumPy computes
    with binary64 numbers: every product and quotient is rounded, a
    literal such as [1.1] stands for the nearest binary64 number, and a
    sample can be NaN.  [np.tanh] is taken to return the binary64
    number nearest to the exact value.  Infinities and overflow are
    left out. *)

Module Binary64.

Local Open Scope R_scope.

Definition two_to (k : Z) : R := Rpower 2 (IZR k).

(** The integer part of the base-2 logarithm of [|y|]. *)
Definition exponent (y : R) : Z := Int_part (ln (Rabs y) / ln 2).

(** The gap between two binary64 numbers around [y]: 53 significant
    bits, and -1022 as the exponent of the smallest normal number. *)
Definition ulp (y : R) : R := two_to (Z.max (exponent y) (-1022) - 52).

(** The integer nearest to [q], the even one of two equally near. *)
Definition nearest_even (q : R) : Z :=
  let f := Int_part q in
  if Rlt_dec (q - IZR f) (1 / 2) then f
  else if Rlt_dec (1 / 2) (q - IZR f) then (f + 1)%Z
  else if Z.even f then f else (f + 1)%Z.

(** Rounding to the nearest binary64 number. *)
Definition round (y : R) : R :=
  if Req_dec_T y 0 then 0 else IZR (nearest_even (y / ulp y)) * ulp y.

(** A binary64 value: a finite number or NaN. *)
Inductive f64 : Type :=
| Num (v : R)
| NaN.

Definition literal (v : R) : f64 := Num (round v).

Definition abs (a : f64) : f64 :=
  match a with
  | Num v => Num (Rabs v)
  | NaN => NaN
  end.

Definition mul (a b : f64) : f64 :=
  match a, b with
  | Num u, Num v => Num (round (u * v))
  | _, _ => NaN
  end.

(** A zero divisor gives an infinity or NaN; NaN stands for both here.
    [_soft_limit] divides by a peak of at least 1e-9 only. *)
Definition div (a b : f64) : f64 :=
  match a, b with
  | Num u, Num v => if Req_dec_T v 0 then NaN else Num (round (u / v))
  | _, _ => NaN
  end.

Definition tanh (a : f64) : f64 :=
  match a with
  | Num v => Num (round (Rtrigo_def.tanh v))
  | NaN => NaN
  end.

(** Every comparison with NaN is false. *)
Definition ltb (a b : f64) : bool :=
  match a, b with
  | Num u, Num v => Np.ltb u v
  | _, _ => false
  end.

Definition gtb (a b : f64) : bool :=
  match a, b with
  | Num u, Num v => Np.gtb u v
  | _, _ => false
  end.

(** [np.max] propagates NaN. *)
Definition max2 (a b : f64) : f64 :=
  match a, b with
  | Num u, Num v => Num (Rmax u v)
  | _, _ => NaN
  end.

Definition max (x : list f64) : result f64 :=
  match x with
  | [] => Raise (ValueError "zero-size array to reduction operation maximum which has no identity")
  | a :: l => Ok (fold_left max2 l a)
  end.

End Binary64.

Module Rounded.

Import Binary64.
Local Open Scope result_scope.

Definition _soft_limit (x : list f64) (target_peak : f64) : result (list f64) :=
  if (Z.of_nat (length x) =? 0)%Z then Ok x else
  max_abs <- Binary64.max (map Binary64.abs x) ;;
  if Binary64.ltb max_abs (literal 1e-9) then Ok x else
  let scale :=
    if Binary64.gtb max_abs target_peak then Binary64.div target_peak max_abs else Num 1 in
  let y := map (fun v => Binary64.mul v scale) x in
  Ok (map (fun v => Binary64.tanh (Binary64.mul v (literal 1.1))) y).

End Rounded.

(* ================================================================== *)
(** ** Effects of the scripts: standard output, sound files, temp files *)

(** A decoded sound file: samples and sample rate.  The WAV codec of
    [soundfile] is taken to be lossless. *)
Record wav : Type := Wav { wav_audio : Np.ndarray; wav_sr : Z }.

(** The lines the scripts print, one constructor per [print] statement,
    with the values its f-string interpolates. *)
Inductive msg : Type :=
| MsgBanner
| MsgInitializing
| MsgAvailable (languages : list string)
| MsgSynthesizingN (n : nat)
| MsgSynthesizing (language text50 : string)
| MsgFallback (language fallback : string)
| MsgSegment (i n : nat) (language : string) (duration : R)
| MsgSegmentError (language : string) (e : exn)
| MsgNoVoiceFiles
| MsgConcatenating
| MsgNoSegments
| MsgResampling (sr target_sr : Z)
| MsgPostProcessing
| MsgGenerated (path : string) (duration peak_db : R) (sr : Z)
| MsgDurationWarning (duration : R)
| MsgPeakWarning (peak_db : R)
| MsgReady.

Record world : Type := World {
  stdout : list msg;                 (* printed lines, oldest first *)
  files : list (string * wav);       (* sound files on disk, newest first *)
  tmp_count : nat                    (* temporary files created so far *)
}.

Definition IO (A : Type) : Type := world -> result A * world.

Definition ret {A : Type} (a : A) : IO A := fun w => (Ok a, w).

Definition raise {A : Type} (e : exn) : IO A := fun w => (Raise e, w).

Definition bind {A B : Type} (m : IO A) (k : A -> IO B) : IO B :=
  fun w =>
    match m w with
    | (Ok a, w') => k a w'
    | (Raise e, w') => (Raise e, w')
    end.

(** [try: m except Exception as e: h e]. *)
Definition try_except {A : Type} (m : IO A) (h : exn -> IO A) : IO A :=
  fun w =>
    match m w with
    | (Ok a, w') => (Ok a, w')
    | (Raise e, w') => h e w'
    end.

Definition lift {A : Type} (r : result A) : IO A := fun w => (r, w).

Declare Scope io_scope.
Delimit Scope io_scope with io.
Notation "x <- m ;; k" := (bind m (fun x => k))
  (at level 61, m at next level, right associativity) : io_scope.
Notation "m ;;; k" := (bind m (fun _ => k))
  (at level 61, right associativity) : io_scope.

Definition print (m : msg) : IO unit :=
  fun w => (Ok tt, World (stdout w ++ [m]) (files w) (tmp_count w)).

Fixpoint lookup_file (path : string) (fs : list (string * wav)) : option wav :=
  match fs with
  | [] => None
  | (p, f) :: fs' => if String.eqb p path then Some f else lookup_file path fs'
  end.

Fixpoint remove_file (path : string) (fs : list (string * wav)) : list (string * wav) :=
  match fs with
  | [] => []
  | (p, f) :: fs' =>
      if String.eqb p path then remove_file path fs' else (p, f) :: remove_file path fs'
  end.

(** [sf.write(path, audio, sr)]. *)
Definition sf_write (path : string) (audio : Np.ndarray) (sr : Z) : IO unit :=
  fun w => (Ok tt, World (stdout w) ((path, Wav audio sr) :: remove_file path (files w)) (tmp_count w)).

(** [sf.read(path, dtype="float32")]. *)
Definition sf_read (path : string) : IO (Np.ndarray * Z) :=
  fun w =>
    match lookup_file path (files w) with
    | Some f => (Ok (wav_audio f, wav_sr f), w)
    | None => (Raise FileNotFoundError, w)
    end.

(** [path.unlink()]. *)
Definition unlink (path : string) : IO unit :=
  fun w =>
    match lookup_file path (files w) with
    | Some _ => (Ok tt, World (stdout w) (remove_file path (files w)) (tmp_count w))
    | None => (Raise FileNotFoundError, w)
    end.

(** [Path(p).exists()]. *)
Definition path_exists (path : string) : IO bool :=
  fun w =>
    (Ok (match lookup_file path (files w) with Some _ => true | None => false end), w).

Fixpoint tmp_name (n : nat) : string :=
  match n with
  | O => "tmp.wav"
  | S n' => String "t" (tmp_name n')
  end.

(** [Path(tempfile.mkstemp(suffix=".wav")[1])]: a name not used before. *)
Definition mkstemp : IO string :=
  fun w => (Ok (tmp_name (tmp_count w)), World (stdout w) (files w) (S (tmp_count w))).

(** The pretrained models, outside the repository: whether the
    Hugging Face pipeline of a model name loads, what it returns on a text
    (audio and, when reported, its sampling rate), and what XTTS writes
    for a text, a speaker file, a language and a sample rate. *)
Record models : Type := Models {
  hf_loads : string -> bool;
  hf_run : string -> string -> result (Np.ndarray * option Z);
  xtts_run : string -> string -> string -> Z -> result wav
}.

(** [not text or not text.strip()]. *)
Definition is_space (c : ascii) : bool :=
  let n := nat_of_ascii c in
  ((9 <=? n) && (n <=? 13) || (28 <=? n) && (n <=? 32))%nat.

Definition blank (text : string) : bool :=
  forallb is_space (list_ascii_of_string text).

(** [a / b] on Python ints: true division, raising on a zero divisor. *)
Definition py_div (a b : Z) : result R :=
  if (b =? 0)%Z then Raise ZeroDivisionError else Ok (IZR a / IZR b)%R.

(* ================================================================== *)
(** ** engines/mms_tts.py: class MMSTTSEngine *)

Module MMSTTSEngine.

Import Np Engines.
Local Open Scope string_scope.
Local Open Scope io_scope.

Definition MODEL_MAP : list (string * string) :=
  [ ("yor", "facebook/mms-tts-yor");
    ("hau", "facebook/mms-tts-hau");
    ("pcm", "facebook/mms-tts-pcm");
    ("ibo", "facebook/mms-tts-ibo");
    ("igb", "facebook/mms-tts-ibo") ].

(** The engine object; the cache [_models] only saves reloading and is
    left out. *)
Record t : Type := Engine { _available_languages : list string }.

(** [_detect_available_models]: the languages whose pipeline loads, in
    the order of [MODEL_MAP]; when [transformers] or [torch] is missing
    no pipeline loads. *)
Definition _detect_available_models (M : models) : list string :=
  map fst (filter (fun entry => hf_loads M (snd entry)) MODEL_MAP).

(** [__init__]. *)
Definition init (M : models) : t := Engine (_detect_available_models M).

Definition is_language_supported (self : t) (language : string) : bool :=
  existsb (String.eqb language) (_available_languages self).

Fixpoint model_name (language : string) (map : list (string * string)) : option string :=
  match map with
  | [] => None
  | (l, name) :: map' => if String.eqb l language then Some name else model_name language map'
  end.

(** [get_model]: the pipeline of the language, by its model name. *)
Definition get_model (self : t) (language : string) : result string :=
  if negb (is_language_supported self language)
  then Raise (ValueError "Language not supported by available MMS models")
  else match model_name language MODEL_MAP with
       | Some name => Ok name
       | None => Raise KeyError
       end.

(** [synthesize_to_wav] with [out_path=None]; [sf.write] is taken to
    succeed, so the retry under another temporary name is not needed. *)
Definition synthesize_to_wav
  (M : models) (self : t) (text language : string) (sample_rate : Z) : IO string :=
  if blank text then raise (ValueError "text is required") else
  if negb (is_language_supported self language)
  then raise (ValueError "Language not supported by MMS-TTS") else
  out_path <- mkstemp ;;
  model <- lift (get_model self language) ;;
  out <- lift (hf_run M model text) ;;
  let audio := fst out in
  let sr := match snd out with Some r => r | None => sample_rate end in
  audio <- lift (_soft_limit audio TARGET_PEAK) ;;
  audio <- lift (_trim_trailing_silence audio sr default_thresh default_max_ms) ;;
  sf_write out_path audio sr ;;;
  ret out_path.

End MMSTTSEngine.

(* ================================================================== *)
(** ** engines/xtts_engine.py: class XTTSEngine *)

Module XTTSEngine.

Import Np Engines.
Local Open Scope string_scope.
Local Open Scope io_scope.

Fixpoint check_speakers (speaker_wavs : list string) : IO unit :=
  match speaker_wavs with
  | [] => ret tt
  | p :: rest =>
      e <- path_exists p ;;
      if e then check_speakers rest else raise FileNotFoundError
  end.

Definition synthesize_to_wav
  (M : models) (text : string) (speaker_wavs : list string)
  (language : string) (sample_rate : Z) : IO string :=
  if blank text then raise (ValueError "text is required") else
  match speaker_wavs with
  | [] => raise (ValueError "speaker_wavs must contain at least one WAV file")
  | speaker0 :: _ =>
      check_speakers speaker_wavs ;;;
      out_path <- mkstemp ;;
      f <- lift (xtts_run M text speaker0 language sample_rate) ;;
      sf_write out_path (wav_audio f) (wav_sr f) ;;;
      r <- sf_read out_path ;;
      let sr := snd r in
      audio <- lift (_soft_limit (fst r) TARGET_PEAK) ;;
      audio <- lift (_trim_trailing_silence audio sr default_thresh default_max_ms) ;;
      sf_write out_path audio sr ;;;
      ret out_path
  end.

End XTTSEngine.

(* ================================================================== *)
(** ** scripts/simple_demo.py and scripts/multilang_demo.py: the part of
       [main] the two scripts share, from "Concatenating segments" on *)

Module Demo.

Import Np.
Local Open Scope string_scope.
Local Open Scope io_scope.

Definition segment : Type := (ndarray * Z)%type.

Definition output_path : string := "outputs/demo_multilang_30s.wav".

(** A block of statements of [main] either falls through with the values
    it bound or executes [return code]. *)
Inductive block (A : Type) : Type :=
| Fallthrough (a : A)
| Return (code : Z).

Arguments Fallthrough {A} a.
Arguments Return {A} code.

(** The body of [for audio, sr in segments], resampling one segment:
    [new_length = int(len(audio) * (target_sr / sr))]. *)
Definition resample (target_sr : Z) (audio : ndarray) (sr : Z) : IO ndarray :=
  if negb (sr =? target_sr)%Z then
    print (MsgResampling sr target_sr) ;;;
    _ <- lift (py_div target_sr sr) ;;
    let new_length := int_div (Z.of_nat (length audio) * target_sr) sr in
    xs <- lift (linspace 0 (INR (length audio)) new_length) ;;
    lift (interp xs (arange (length audio)) audio)
  else ret audio.

Fixpoint resample_all (target_sr : Z) (segments : list segment)
  (concatenated : list ndarray) : IO (list ndarray) :=
  match segments with
  | [] => ret concatenated
  | (audio, sr) :: rest =>
      audio' <- resample target_sr audio sr ;;
      resample_all target_sr rest (concatenated ++ [audio'])
  end.

(** Concatenating the segments: the empty list is refused with
    [return 1], otherwise the first segment's rate is the target. *)
Definition assemble (segments : list segment) : IO (block (ndarray * Z)) :=
  print MsgConcatenating ;;;
  match segments with
  | [] => print MsgNoSegments ;;; ret (Return 1%Z)
  | (_, target_sr) :: _ =>
      concatenated <- resample_all target_sr segments [] ;;
      ret (Fallthrough (concatenate concatenated, target_sr))
  end.

(** Peak limiting: [final_audio * (0.9 / max_val)] when [max_val > 0]. *)
Definition peak_limit (final_audio : ndarray) : result ndarray :=
  (max_val <- Np.max (Np.abs final_audio) ;;
   if gtb max_val 0 then Ok (scale final_audio (0.9 / max_val)) else Ok final_audio)%result.

(** Trailing silence: keep [int(0.2 * target_sr)] samples from the last
    sample above [silence_thresh = 1e-3]. *)
Definition trim_tail (final_audio : ndarray) (target_sr : Z) : result ndarray :=
  (let silence_thresh := 1e-3%R in
   let last_non_silent := where_true (gt (Np.abs final_audio) silence_thresh) in
   if (0 <? Z.of_nat (length last_non_silent))%Z
   then
     last <- last_item last_non_silent ;;
     Ok (slice_to final_audio (Z.of_nat last + int_div target_sr 5))
   else Ok final_audio)%result.

(** [20 * np.log10(np.max(np.abs(final_audio)) + 1e-9)]. *)
Definition peak_level (final_audio : ndarray) : result R :=
  (m <- Np.max (Np.abs final_audio) ;; Ok (20 * log10 (m + 1e-9))%R)%result.

(** The checks after the file is written. *)
Definition validate (final_duration peak_db : R) : IO Z :=
  if negb (leb 27 final_duration && leb final_duration 33)
  then print (MsgDurationWarning final_duration) ;;; ret 1%Z
  else if gtb peak_db (-0.5)
  then print (MsgPeakWarning peak_db) ;;; ret 1%Z
  else print MsgReady ;;; ret 0%Z.

(** Final post-processing, writing the file, validation. *)
Definition finalize (final_audio : ndarray) (target_sr : Z) : IO Z :=
  print MsgPostProcessing ;;;
  final_audio <- lift (peak_limit final_audio) ;;
  final_audio <- lift (trim_tail final_audio target_sr) ;;
  sf_write output_path final_audio target_sr ;;;
  final_duration <- lift (py_div (Z.of_nat (length final_audio)) target_sr) ;;
  peak_db <- lift (peak_level final_audio) ;;
  print (MsgGenerated output_path final_duration peak_db target_sr) ;;;
  validate final_duration peak_db.

(** [main] from "Concatenating segments" to its end. *)
Definition assemble_and_finalize (segments : list segment) : IO Z :=
  b <- assemble segments ;;
  match b with
  | Return code => ret code
  | Fallthrough (final_audio, target_sr) => finalize final_audio target_sr
  end.

End Demo.

(* ================================================================== *)
(** ** scripts/simple_demo.py *)

Module SimpleDemo.

Import Np Demo.
Local Open Scope string_scope.
Local Open Scope io_scope.

Definition LINES : list (string * string) :=
  [ ("en",  "Hi, I'm Lexi from Adaqua AI. Listen as I switch languages for all Naija.");
    ("pcm", "How you dey? Today go sweet well well.");
    ("yor", "Ẹ káàbọ̀. A ń kọ́ ohun tuntun fún gbogbo Naijiria.");
    ("hau", "Sannu! Muna aiki don Najeriya gaba ɗaya.");
    ("en",  "We support multiple Nigerian languages with advanced AI technology.");
    ("pcm", "Make we show you how our TTS dey work.");
    ("en",  "Thanks for listening. Adaqua AI—built for Naija, by Naija.") ].

(** Reading back and deleting the temporary file; a failing [unlink] is
    ignored. *)
Definition read_and_clean (temp_path : string) : IO (ndarray * Z) :=
  r <- sf_read temp_path ;;
  try_except (unlink temp_path) (fun _ => ret tt) ;;;
  ret r.

(** [synthesize_segment]; [depth] is the number of nested calls the
    interpreter still allows. *)
Fixpoint synthesize_segment (depth : nat) (M : models)
  (text language : string) (mms_engine : MMSTTSEngine.t) : IO (ndarray * Z) :=
  match depth with
  | O => raise RecursionError
  | S depth' =>
      print (MsgSynthesizing language (substring 0 50 text)) ;;;
      if String.eqb language "en" then
        if negb (MMSTTSEngine.is_language_supported mms_engine "yor")
        then raise (ValueError "No MMS models available for synthesis")
        else
          temp_path <- MMSTTSEngine.synthesize_to_wav M mms_engine text "yor" 22050 ;;
          read_and_clean temp_path
      else
        if negb (MMSTTSEngine.is_language_supported mms_engine language)
        then
          print (MsgFallback language "Yoruba") ;;;
          synthesize_segment depth' M text "yor" mms_engine
        else
          temp_path <- MMSTTSEngine.synthesize_to_wav M mms_engine text language 22050 ;;
          read_and_clean temp_path
  end.

(** The loop over [LINES]: an exception in a segment prints the error and
    returns 1. *)
Fixpoint synthesize_lines (depth : nat) (M : models) (mms_engine : MMSTTSEngine.t)
  (i n : nat) (lines : list (string * string)) (segments : list segment)
  : IO (block (list segment)) :=
  match lines with
  | [] => ret (Fallthrough segments)
  | (lang, text) :: rest =>
      r <- try_except
             (seg <- synthesize_segment depth M text lang mms_engine ;;
              duration <- lift (py_div (Z.of_nat (length (fst seg))) (snd seg)) ;;
              print (MsgSegment i n lang duration) ;;;
              ret (Some seg))
             (fun e => print (MsgSegmentError lang e) ;;; ret None) ;;
      match r with
      | None => ret (Return 1%Z)
      | Some seg => synthesize_lines depth M mms_engine (S i) n rest (segments ++ [seg])
      end
  end.

Definition main (depth : nat) (M : models) : IO Z :=
  print MsgBanner ;;;
  print MsgInitializing ;;;
  let mms_engine := MMSTTSEngine.init M in
  print (MsgAvailable (MMSTTSEngine._available_languages mms_engine)) ;;;
  print (MsgSynthesizingN (length LINES)) ;;;
  b <- synthesize_lines depth M mms_engine 1 (length LINES) LINES [] ;;
  match b with
  | Return code => ret code
  | Fallthrough segments => assemble_and_finalize segments
  end.

End SimpleDemo.

(* ================================================================== *)
(** ** scripts/multilang_demo.py *)

Module MultilangDemo.

Import Np Demo.
Local Open Scope string_scope.
Local Open Scope io_scope.

Definition LINES : list (string * string) :=
  [ ("en",  "Hi, I'm Lexi from Adaqua AI. Listen as I switch languages for all Naija.");
    ("pcm", "How you dey? Today go sweet well well.");
    ("yor", "Ẹ káàbọ̀. A ń kọ́ ohun tuntun fún gbogbo Naijiria.");
    ("ibo", "Ụtụtụ ọma. Anyị na-arụ ọrụ maka Naịjiria niile.");
    ("hau", "Sannu! Muna aiki don Najeriya gaba ɗaya.");
    ("en",  "Thanks for listening. Adaqua AI—built for Naija, by Naija.") ].

Definition read_and_unlink (temp_path : string) : IO (ndarray * Z) :=
  r <- sf_read temp_path ;;
  unlink temp_path ;;;
  ret r.

Fixpoint synthesize_segment (depth : nat) (M : models)
  (text language : string) (mms_engine : MMSTTSEngine.t)
  (voice_files : list string) : IO (ndarray * Z) :=
  match depth with
  | O => raise RecursionError
  | S depth' =>
      print (MsgSynthesizing language (substring 0 50 text)) ;;;
      if String.eqb language "en" then
        match voice_files with
        | [] => raise (ValueError "No voice files available for XTTS cloning")
        | _ :: _ =>
            temp_path <- XTTSEngine.synthesize_to_wav M text voice_files "en" 22050 ;;
            read_and_unlink temp_path
        end
      else
        if negb (MMSTTSEngine.is_language_supported mms_engine language)
        then
          print (MsgFallback language "English") ;;;
          synthesize_segment depth' M text "en" mms_engine voice_files
        else
          temp_path <- MMSTTSEngine.synthesize_to_wav M mms_engine text language 22050 ;;
          read_and_unlink temp_path
  end.

Fixpoint synthesize_lines (depth : nat) (M : models) (mms_engine : MMSTTSEngine.t)
  (voice_files : list string)
  (i n : nat) (lines : list (string * string)) (segments : list segment)
  : IO (block (list segment)) :=
  match lines with
  | [] => ret (Fallthrough segments)
  | (lang, text) :: rest =>
      r <- try_except
             (seg <- synthesize_segment depth M text lang mms_engine voice_files ;;
              duration <- lift (py_div (Z.of_nat (length (fst seg))) (snd seg)) ;;
              print (MsgSegment i n lang duration) ;;;
              ret (Some seg))
             (fun e => print (MsgSegmentError lang e) ;;; ret None) ;;
      match r with
      | None => ret (Return 1%Z)
      | Some seg =>
          synthesize_lines depth M mms_engine voice_files (S i) n rest (segments ++ [seg])
      end
  end.

(** [main]; [voice_files] is what [find_voice_files] found in the voice
    directory. *)
Definition main (depth : nat) (M : models) (voice_files : list string) : IO Z :=
  print MsgBanner ;;;
  print MsgInitializing ;;;
  let mms_engine := MMSTTSEngine.init M in
  print (MsgAvailable (MMSTTSEngine._available_languages mms_engine)) ;;;
  match voice_files with
  | [] => print MsgNoVoiceFiles ;;; ret 1%Z
  | _ :: _ =>
      print (MsgSynthesizingN (length LINES)) ;;;
      b <- synthesize_lines depth M mms_engine voice_files 1 (length LINES) LINES [] ;;
      match b with
      | Return code => ret code
      | Fallthrough segments => assemble_and_finalize segments
      end
  end.

End MultilangDemo.

(* ================================================================== *)
(** ** tests/test_demo_audio.py *)

Module TestDemoAudio.

Import Np Demo.
Local Open Scope string_scope.

(** How pytest reports a test: passed, skipped ([pytest.skip]), failed
    on an [assert] (with the start of its message), or ended by an
    exception nobody caught. *)
Inductive outcome : Type :=
| Passed
| Skipped
| Failed (message : string)
| Errored (e : exn).

(** The first lines of every audio test: skip when the demo file is not
    there, else read it. *)
Definition with_demo_file (w : world) (check : ndarray -> Z -> outcome) : outcome :=
  match lookup_file output_path (files w) with
  | None => Skipped
  | Some f => check (wav_audio f) (wav_sr f)
  end.

(** [sr in [16000, 22050, 24000]]. *)
Definition acceptable_rate (sr : Z) : bool :=
  ((sr =? 16000) || (sr =? 22050) || (sr =? 24000))%Z.

(** [test_demo_generation_succeeds]: the [assert] is inside the [try],
    and [except Exception] catches its [AssertionError] as well. *)
Definition test_demo_generation_succeeds (generate_demo : IO Z) (w : world)
  : outcome * world :=
  match generate_demo w with
  | (Ok result, w') =>
      if ((result =? 0) || (result =? 1))%Z then (Passed, w') else (Skipped, w')
  | (Raise _, w') => (Skipped, w')
  end.

Definition test_demo_file_exists (generate_demo : IO Z) (w : world) : outcome * world :=
  match lookup_file output_path (files w) with
  | Some _ => (Passed, w)
  | None =>
      match generate_demo w with
      | (Raise e, w') => (Errored e, w')
      | (Ok result, w') =>
          if negb (result =? 0)%Z then (Skipped, w')
          else match lookup_file output_path (files w') with
               | Some _ => (Passed, w')
               | None => (Failed "Demo file not found", w')
               end
      end
  end.

Definition test_demo_duration (w : world) : outcome :=
  with_demo_file w (fun audio sr =>
    match py_div (Z.of_nat (length audio)) sr with
    | Raise e => Errored e
    | Ok duration =>
        if leb 27 duration && leb duration 33 then Passed
        else Failed "Duration outside target range"
    end).

Definition test_demo_sample_rate (w : world) : outcome :=
  with_demo_file w (fun audio sr =>
    if acceptable_rate sr then Passed else Failed "Sample rate not in acceptable range").

Definition test_demo_no_clipping (w : world) : outcome :=
  with_demo_file w (fun audio sr =>
    match Np.max (Np.abs audio) with
    | Raise e => Errored e
    | Ok max_abs => if ltb max_abs 1 then Passed else Failed "Audio clipped"
    end).

Definition test_demo_peak_level (w : world) : outcome :=
  with_demo_file w (fun audio sr =>
    match Np.max (Np.abs audio) with
    | Raise e => Errored e
    | Ok max_abs =>
        let peak_db := (20 * log10 (max_abs + 1e-9))%R in
        if leb peak_db (-0.5) then Passed else Failed "Peak level too high"
    end).

Definition test_demo_tail_silence (w : world) : outcome :=
  with_demo_file w (fun audio sr =>
    let silence_thresh := 1e-3%R in
    let non_silent := where_true (gt (Np.abs audio) silence_thresh) in
    if (0 <? Z.of_nat (length non_silent))%Z then
      match last_item non_silent with
      | Raise e => Errored e
      | Ok last_non_silent =>
          let tail_samples := (Z.of_nat (length audio) - Z.of_nat last_non_silent)%Z in
          match py_div tail_samples sr with
          | Raise e => Errored e
          | Ok tail_duration =>
              if leb tail_duration 0.2 then Passed
              else Failed "Tail silence exceeds 200ms limit"
          end
      end
    else Passed).

(** [test_full_demo_generation]; its closing [print] is left out. *)
Definition test_full_demo_generation (generate_demo : IO Z) (w : world)
  : outcome * world :=
  let w0 :=
    match lookup_file output_path (files w) with
    | Some _ => World (stdout w) (remove_file output_path (files w)) (tmp_count w)
    | None => w
    end in
  match generate_demo w0 with
  | (Raise e, w') => (Errored e, w')
  | (Ok result, w') =>
      if negb (result =? 0)%Z then (Skipped, w') else
      match lookup_file output_path (files w') with
      | None => (Failed "", w')
      | Some f =>
          let audio := wav_audio f in
          let sr := wav_sr f in
          match py_div (Z.of_nat (length audio)) sr with
          | Raise e => (Errored e, w')
          | Ok duration =>
              match Np.max (Np.abs audio) with
              | Raise e => (Errored e, w')
              | Ok max_abs =>
                  let peak_db := (20 * log10 (max_abs + 1e-9))%R in
                  if negb (leb 27 duration && leb duration 33)
                  then (Failed "Duration outside range", w')
                  else if negb (ltb max_abs 1) then (Failed "Audio clipped", w')
                  else if negb (leb peak_db (-0.5)) then (Failed "Peak too high", w')
                  else if negb (acceptable_rate sr)
                  then (Failed "Invalid sample rate", w')
                  else (Passed, w')
              end
          end
      end
  end.

End TestDemoAudio.

(* ================================================================== *)
(** ** utils/textnorm.py *)

Module TextNorm.

Local Open Scope string_scope.

Definition MAX_CHARS : nat := 500.

(** [t.lstrip()] and [t.strip()] on the characters of a text. *)
Fixpoint lstrip (t : list ascii) : list ascii :=
  match t with
  | [] => []
  | c :: t' => if is_space c then lstrip t' else t
  end.

Definition strip (t : list ascii) : list ascii := rev (lstrip (rev (lstrip t))).

(** [_SPACES.sub(" ", t)] for [_SPACES = re.compile(r"\s+")]: every
    maximal run of white space becomes one space.  [in_run] tells that
    the character before was white space. *)
Fixpoint spaces_sub (in_run : bool) (t : list ascii) : list ascii :=
  match t with
  | [] => []
  | c :: t' =>
      if is_space c
      then (if in_run then spaces_sub true t' else " "%char :: spaces_sub true t')
      else c :: spaces_sub false t'
  end.

(** The class [[!?.,]]. *)
Definition is_punct (c : ascii) : bool :=
  (Ascii.eqb c "!" || Ascii.eqb c "?" || Ascii.eqb c "." || Ascii.eqb c ",")%bool.

(** [_DUP_PUNCT.sub(r"\1", t)] for the pattern [([!?.,])\1{1,}]: a
    mark followed by copies of itself is matched with all its copies
    and replaced by the one mark, so a mark is dropped exactly when the
    character before it in the input is the same mark. *)
Fixpoint dup_punct_sub (prev : option ascii) (t : list ascii) : list ascii :=
  match t with
  | [] => []
  | c :: t' =>
      if (is_punct c && match prev with Some p => Ascii.eqb p c | None => false end)%bool
      then dup_punct_sub (Some c) t'
      else c :: dup_punct_sub (Some c) t'
  end.

(** Matching under [re.IGNORECASE]: a letter A to Z counts as its lower
    case. *)
Definition lower (c : ascii) : ascii :=
  let n := nat_of_ascii c in
  if ((65 <=? n) && (n <=? 90))%nat then ascii_of_nat (n + 32) else c.

Fixpoint prefix_ci (pattern t : list ascii) : bool :=
  match pattern, t with
  | [], _ => true
  | _ :: _, [] => false
  | p :: pattern', c :: t' => (Ascii.eqb (lower c) (lower p) && prefix_ci pattern' t')%bool
  end.

(** [re.sub(re.escape(a), b, t, flags=re.IGNORECASE)] for a literal,
    non-empty [a]: matches are found from the left and do not overlap.
    [skip] counts the characters of a match still to pass over. *)
Fixpoint literal_sub (a b : list ascii) (skip : nat) (t : list ascii) : list ascii :=
  match t with
  | [] => []
  | c :: t' =>
      match skip with
      | S skip' => literal_sub a b skip' t'
      | O =>
          if prefix_ci a t
          then (b ++ literal_sub a b (length a - 1) t')%list
          else c :: literal_sub a b 0 t'
      end
  end.

Definition _PIDGIN_COMPOUND : list (string * string) :=
  [ ("well-well", "well, well");
    ("small small", "small-small") ].

(** [t.endswith((".", "!", "?"))]. *)
Definition ends_sentence (t : list ascii) : bool :=
  match rev t with
  | c :: _ => (Ascii.eqb c "." || Ascii.eqb c "!" || Ascii.eqb c "?")%bool
  | [] => false
  end.

(** [normalize]; the argument is a string, so the [TypeError] of the
    first lines cannot occur. *)
Definition normalize (text : string) : string :=
  let t := strip (list_ascii_of_string text) in
  let t := spaces_sub false t in
  let t := dup_punct_sub None t in
  let t := fold_left
             (fun t ab => literal_sub (list_ascii_of_string (fst ab))
                            (list_ascii_of_string (snd ab)) 0 t)
             _PIDGIN_COMPOUND t in
  let t := if ends_sentence t then t else (t ++ ["."%char])%list in
  let t := if (MAX_CHARS <? length t)%nat then firstn MAX_CHARS t else t in
  string_of_list_ascii t.

End TextNorm.

(* ================================================================== *)
(** ** backend/app.py *)

Module App.

Local Open Scope string_scope.
Local Open Scope io_scope.

(** The request body [SpeakIn]. *)
Record SpeakIn : Type := {
  text : string;
  language : string;
  speaker_files : option (list string)
}.

(** What the client of [/speak] gets: the WAV, or the [HTTPException]
    with its status code and what its detail reports. *)
Inductive detail : Type :=
| NoSpeakers
| TTSFailed (e : exn).

Inductive reply : Type :=
| Response (content : wav)
| HTTPException (status_code : Z) (why : detail).

(** [Path(out_path).read_bytes()]. *)
Definition read_bytes (path : string) : IO wav :=
  fun w =>
    match lookup_file path (files w) with
    | Some f => (Ok f, w)
    | None => (Raise FileNotFoundError, w)
    end.

(** [speak].  [DEFAULT_SPEAKER] is the environment variable, [candidates]
    the sorted WAV paths of [VOICE_DIR]; the request id only names the
    download and is left out. *)
Definition speak (M : models) (DEFAULT_SPEAKER : option string)
  (candidates : list string) (body : SpeakIn) : IO reply :=
  let text := TextNorm.normalize (text body) in
  let speaker_files := match speaker_files body with Some l => l | None => [] end in
  let speaker_files :=
    match speaker_files, DEFAULT_SPEAKER with
    | [], Some d => if String.eqb d "" then speaker_files else [d]
    | _, _ => speaker_files
    end in
  let chosen :=
    match speaker_files with
    | [] => match candidates with
            | [] => None
            | c :: _ => Some [c]
            end
    | _ :: _ => Some speaker_files
    end in
  match chosen with
  | None => ret (HTTPException 400 NoSpeakers)
  | Some speaker_files =>
      try_except
        (out_path <- XTTSEngine.synthesize_to_wav M text speaker_files (language body)
                       24000 ;;
         data <- read_bytes out_path ;;
         ret (Response data))
        (fun e => ret (HTTPException 500 (TTSFailed e)))
  end.

End App.

(* ================================================================== *)
(** ** Vocabulary of the statements *)

(** The number of tail samples the trimmer keeps,
    [int(sr * max_ms / 1000)]. *)
Definition tail_samples (sr max_ms : Z) : Z := int_div (sr * max_ms) 1000.

(** The mask [np.abs(x) > thresh]. *)
Definition loud (thresh : R) (x : Np.ndarray) : list bool := Np.gt (Np.abs x) thresh.

(** A binary64 sample below full scale: [abs(v) < 1.0] holds, which it
    does not for NaN. *)
Definition below_full_scale (a : Binary64.f64) : Prop :=
  match a with
  | Binary64.Num v => (Rabs v < 1)%R
  | Binary64.NaN => False
  end.

(** A fresh process: nothing printed, no sound file, no temporary file. *)
Definition empty_world : world := World [] [] 0.

(** The world after printing some lines. *)
Definition printed (w : world) (lines : list msg) : world :=
  World (stdout w ++ lines) (files w) (tmp_count w).

(** Segments the assembler can bring to the rate [target_sr]: the rates
    are positive and a segment at another rate has at least one sample. *)
Definition resamplable (target_sr : Z) (segments : list Demo.segment) : Prop :=
  (0 < target_sr)%Z /\
  Forall (fun seg : Demo.segment =>
            (0 < snd seg)%Z /\ (snd seg <> target_sr -> fst seg <> [])) segments.

(** The world after [sf.write(path, audio, sr)]. *)
Definition written (w : world) (path : string) (audio : Np.ndarray) (sr : Z) : world :=
  World (stdout w) ((path, Wav audio sr) :: remove_file path (files w)) (tmp_count w).

(** The sample rate of a pipeline output, 22050 when it reports none. *)
Definition rate_of (reported : option Z) : Z :=
  match reported with Some r => r | None => 22050%Z end.

(** The world after [synthesize_to_wav] and [read_and_clean]: one more
    temporary name used, the temporary file gone again. *)
Definition after_temp (w : world) : world :=
  World (stdout w)
        (remove_file (tmp_name (tmp_count w))
           (remove_file (tmp_name (tmp_count w)) (files w)))
        (S (tmp_count w)).

(** A small instance of the models: only the Yoruba pipeline loads, and
    every run returns one sample at 16000 Hz. *)
Definition yoruba_only : models :=
  Models (fun name => String.eqb name "facebook/mms-tts-yor")
         (fun _ _ => Ok ([(1 / 2)%R], Some 16000%Z))
         (fun _ _ _ _ => Raise (ValueError "XTTS is not installed")).

(** The duration criterion [27.0 <= final_duration <= 33.0] and the
    peak criterion [peak_db <= -0.5]. *)
Definition duration_ok (final_duration : R) : Prop :=
  (27 <= final_duration <= 33)%R.

Definition peak_ok (peak_db : R) : Prop := (peak_db <= -0.5)%R.

(** Two worlds with the same disk: the same sound files and the same
    number of temporary files; they may differ in what was printed. *)
Definition same_disk (w1 w2 : world) : Prop :=
  files w1 = files w2 /\ tmp_count w1 = tmp_count w2.

(** A computation that does not look at what was printed: from worlds
    with the same disk it gives the same result and the same disk. *)
Definition log_blind {A : Type} (m : IO A) : Prop :=
  forall w1 w2,
    same_disk w1 w2 ->
    fst (m w1) = fst (m w2) /\ same_disk (snd (m w1)) (snd (m w2)).

(** An installation where no pipeline loads. *)
Definition no_models : models :=
  Models (fun _ => false)
         (fun _ _ => Raise (ValueError "no model"))
         (fun _ _ _ _ => Raise (ValueError "XTTS is not installed")).

(** The language whose MMS model speaks a segment of [simple_demo]:
    Yoruba for English and for a language without a model. *)
Definition simple_voice (engine : MMSTTSEngine.t) (language : string) : string :=
  if (String.eqb language "en" || negb (MMSTTSEngine.is_language_supported engine language))%bool
  then "yor"%string else language.

(** The temporary name handed out next is not the name of a sound file. *)
Definition fresh_temp (w : world) : Prop :=
  lookup_file (tmp_name (tmp_count w)) (files w) = None.

(** No temporary name still to be handed out is the name of a sound
    file. *)
Definition temps_unused (w : world) : Prop :=
  forall k, (tmp_count w <= k)%nat -> lookup_file (tmp_name k) (files w) = None.

(** The exception is a [ValueError]. *)
Definition value_error (e : exn) : Prop := exists m, e = ValueError m.

(** An installation with the Yoruba pipeline only, whose every run
    returns four seconds of one steady sample value at 5 Hz. *)
Definition steady_voice : models :=
  Models (fun name => String.eqb name "facebook/mms-tts-yor")
         (fun _ _ => Ok (repeat (1 / 2)%R 20, Some 5%Z))
         (fun _ _ _ _ => Raise (ValueError "XTTS is not installed")).

(** What [_soft_limit] makes of the sample 1/2. *)
Definition steady_sample : R := tanh (1 / 2 * 1 * 1.1).

(** An installation with the voice cloning only, whose every run writes
    five seconds of one steady sample value at 5 Hz. *)
Definition cloned_voice : models :=
  Models (fun _ => false)
         (fun _ _ => Raise (ValueError "no model"))
         (fun _ _ _ _ => Ok (Wav (repeat (1 / 2)%R 25) 5%Z)).

(** A fresh process with one voice file on disk. *)
Definition studio : world := World [] [("voice.wav"%string, Wav [] 22050%Z)] 0.

(** A text without leading white space. *)
Definition headed (t : list ascii) : Prop :=
  match t with
  | [] => True
  | c :: _ => is_space c = false
  end.

(** The speaker files [speak] hands to the engine: those of the request,
    else the default speaker, else the first WAV of the voice
    directory. *)
Definition chosen_speakers (DEFAULT_SPEAKER : option string) (candidates : list string)
  (body : App.SpeakIn) : list string :=
  match App.speaker_files body with
  | Some (s :: l) => s :: l
  | _ =>
      match DEFAULT_SPEAKER with
      | Some d => if String.eqb d "" then firstn 1 candidates else [d]
      | None => firstn 1 candidates
      end
  end.

(** The world [test_full_demo_generation] starts the demo in: an
    existing demo file is deleted first. *)
Definition without_demo_file (w : world) : world :=
  match lookup_file Demo.output_path (files w) with
  | Some _ => World (stdout w) (remove_file Demo.output_path (files w)) (tmp_count w)
  | None => w
  end.

(** At a rate of 5 Hz or more, at most [int(0.2 * sr)] samples from the
    last sample above 1e-3 to the end. *)
Definition short_tail (y : Np.ndarray) (sr : Z) : Prop :=
  (5 <= sr)%Z ->
  forall last_loud,
    Np.last_item (Np.where_true (loud 1e-3 y)) = Ok last_loud ->
    (Z.of_nat (length y) - Z.of_nat last_loud <= int_div sr 5)%Z.

(** A line the installation [steady_voice] can speak: a text that is not
    blank, in English, in Yoruba, or in a language without a model. *)
Definition steady_line (line : string * string) : Prop :=
  blank (snd line) = false /\
  (fst line = "en"%string \/ fst line = "yor"%string \/
   (fst line <> "en"%string /\
    MMSTTSEngine.is_language_supported (MMSTTSEngine.init steady_voice) (fst line)
    = false)).

(** A segment the loop of [main] accepts: its rate is not zero; as it
    comes from an engine, no sample is above 0.8 in magnitude. *)
Definition accepted (seg : Demo.segment) : Prop :=
  snd seg <> 0%Z /\ Forall (fun v => (Rabs v <= 0.8)%R) (fst seg).

(* ================================================================== *)
(** * Properties *)

Unset Implicit Arguments.

(** ** Real-number facts about [tanh], [exp] and powers of ten *)

Module RealFacts.

Local Open Scope R_scope.

Lemma tanh_exp2 (x : R) : tanh x = (exp (2 * x) - 1) / (exp (2 * x) + 1).
Proof.
  unfold tanh, sinh, cosh.
  replace (2 * x) with (x + x) by ring.
  rewrite exp_plus, exp_Ropp.
  pose proof (exp_pos x) as Hx.
  field. split; nra.
Qed.

Lemma tanh_lt_1 (x : R) : tanh x < 1.
Proof.
  rewrite tanh_exp2. pose proof (exp_pos (2 * x)) as H.
  apply Rmult_lt_reg_r with (exp (2 * x) + 1); [lra|].
  unfold Rdiv. rewrite Rmult_assoc, Rinv_l by lra. lra.
Qed.

Lemma tanh_gt_m1 (x : R) : -1 < tanh x.
Proof.
  rewrite tanh_exp2. pose proof (exp_pos (2 * x)) as H.
  apply Rmult_lt_reg_r with (exp (2 * x) + 1); [lra|].
  unfold Rdiv. rewrite Rmult_assoc, Rinv_l by lra. lra.
Qed.

Lemma tanh_0 : tanh 0 = 0.
Proof.
  rewrite tanh_exp2, Rmult_0_r, exp_0. unfold Rdiv. ring.
Qed.

Lemma tanh_opp (x : R) : tanh (- x) = - tanh x.
Proof.
  unfold tanh, sinh, cosh. rewrite Ropp_involutive.
  pose proof (exp_pos x) as H1. pose proof (exp_pos (- x)) as H2.
  field. lra.
Qed.

(** [tanh y <= t] read on the exponential. *)
Lemma tanh_le_iff (y t : R) : tanh y <= t <-> exp (2 * y) * (1 - t) <= 1 + t.
Proof.
  rewrite tanh_exp2. pose proof (exp_pos (2 * y)) as H.
  split; intro Hle.
  - apply Rmult_le_compat_r with (r := exp (2 * y) + 1) in Hle; [|lra].
    unfold Rdiv in Hle. rewrite Rmult_assoc, Rinv_l in Hle by lra. lra.
  - apply Rmult_le_reg_r with (exp (2 * y) + 1); [lra|].
    unfold Rdiv. rewrite Rmult_assoc, Rinv_l by lra. lra.
Qed.

Lemma tanh_lt_iff (y t : R) : t < tanh y <-> 1 + t < exp (2 * y) * (1 - t).
Proof.
  pose proof (tanh_le_iff y t) as H. split; intro Hlt.
  - apply Rnot_le_lt. intro Hc. apply H in Hc. lra.
  - apply Rnot_le_lt. intro Hc. apply H in Hc. lra.
Qed.

Lemma tanh_increasing (x y : R) : x <= y -> tanh x <= tanh y.
Proof.
  intro Hxy. apply tanh_le_iff.
  rewrite (tanh_exp2 y).
  pose proof (exp_pos (2 * x)) as Hx. pose proof (exp_pos (2 * y)) as Hy.
  assert (Hexp : exp (2 * x) <= exp (2 * y)).
  { destruct Hxy as [Hlt | ->]; [left; apply exp_increasing; lra | right; reflexivity]. }
  set (a := exp (2 * x)) in *. set (b := exp (2 * y)) in *.
  replace (1 - (b - 1) / (b + 1)) with (2 / (b + 1)) by (field; lra).
  replace (1 + (b - 1) / (b + 1)) with (2 * b / (b + 1)) by (field; lra).
  unfold Rdiv. rewrite <- Rmult_assoc.
  apply Rmult_le_compat_r; [left; apply Rinv_0_lt_compat; lra | lra].
Qed.

Lemma tanh_nonneg (x : R) : 0 <= x -> 0 <= tanh x.
Proof.
  intro H. rewrite <- tanh_0. now apply tanh_increasing.
Qed.

Lemma Rabs_tanh (x : R) : Rabs (tanh x) = tanh (Rabs x).
Proof.
  unfold Rabs at 2. destruct (Rcase_abs x) as [Hneg | Hpos].
  - rewrite tanh_opp. apply Rabs_left1.
    rewrite <- tanh_0. apply tanh_increasing. lra.
  - apply Rabs_pos_eq. apply tanh_nonneg. lra.
Qed.

Lemma Rabs_tanh_lt_1 (x : R) : Rabs (tanh x) < 1.
Proof.
  apply Rabs_def1; [apply tanh_lt_1 | apply tanh_gt_m1].
Qed.

(** [exp] below a rational function. *)
Lemma exp_le_inv_1_minus (x : R) : x < 1 -> exp x <= / (1 - x).
Proof.
  intro Hx. pose proof (exp_ineq1_le (- x)) as H.
  rewrite exp_Ropp in H. pose proof (exp_pos x) as Hp.
  apply Rmult_le_reg_r with (1 - x); [lra|].
  rewrite Rinv_l by lra.
  apply Rmult_le_compat_l with (r := exp x) in H; [|lra].
  rewrite Rinv_r in H by lra. lra.
Qed.

Lemma exp_double (x : R) : exp (2 * x) = exp x * exp x.
Proof. replace (2 * x) with (x + x) by ring. apply exp_plus. Qed.

(** Squaring a lower bound of [exp y] bounds [exp (2 y)] from below. *)
Lemma exp_sq_lower (y z l l' : R) :
  z = 2 * y -> 0 <= l -> l <= exp y -> l' <= l * l -> l' <= exp z.
Proof.
  intros -> Hl Hle Hsq. rewrite exp_double. nra.
Qed.

Lemma exp_sq_upper (y z u u' : R) :
  z = 2 * y -> exp y <= u -> u * u <= u' -> exp z <= u'.
Proof.
  intros -> Hle Hsq. rewrite exp_double. pose proof (exp_pos y). nra.
Qed.

Lemma exp_lower_chain :
  1.316336369847 <= exp 0.275 /\ 1.732741438581 <= exp 0.55 /\ 3.002392892975 <= exp 1.1.
Proof.
  assert (H0 : 1.00107421875 <= exp (1.1 / 1024)).
  { pose proof (exp_ineq1_le (1.1 / 1024)). lra. }
  assert (H1 : 1.002149591445 <= exp (1.1 / 512))
    by (apply exp_sq_lower with (y := 1.1 / 1024) (l := 1.00107421875); lra).
  assert (H2 : 1.004303803633 <= exp (1.1 / 256))
    by (apply exp_sq_lower with (y := 1.1 / 512) (l := 1.002149591445); lra).
  assert (H3 : 1.008626129991 <= exp (1.1 / 128))
    by (apply exp_sq_lower with (y := 1.1 / 256) (l := 1.004303803633); lra).
  assert (H4 : 1.0173266701 <= exp (1.1 / 64))
    by (apply exp_sq_lower with (y := 1.1 / 128) (l := 1.008626129991); lra).
  assert (H5 : 1.034953553696 <= exp (1.1 / 32))
    by (apply exp_sq_lower with (y := 1.1 / 64) (l := 1.0173266701); lra).
  assert (H6 : 1.071128858307 <= exp (1.1 / 16))
    by (apply exp_sq_lower with (y := 1.1 / 32) (l := 1.034953553696); lra).
  assert (H7 : 1.147317031098 <= exp (1.1 / 8))
    by (apply exp_sq_lower with (y := 1.1 / 16) (l := 1.071128858307); lra).
  assert (H8 : 1.316336369847 <= exp (1.1 / 4))
    by (apply exp_sq_lower with (y := 1.1 / 8) (l := 1.147317031098); lra).
  assert (H9 : 1.732741438581 <= exp (1.1 / 2))
    by (apply exp_sq_lower with (y := 1.1 / 4) (l := 1.316336369847); lra).
  assert (H10 : 3.002392892975 <= exp (1.1 / 1))
    by (apply exp_sq_lower with (y := 1.1 / 2) (l := 1.732741438581); lra).
  replace 0.275 with (1.1 / 4) by lra. replace 0.55 with (1.1 / 2) by lra.
  replace 1.1 with (1.1 / 1) at 3 by lra. auto.
Qed.

Lemma exp_upper_1_122 : exp 1.122 <= 3.072879716145.
Proof.
  assert (H0 : exp (1.122 / 1024) <= 1.001096905008).
  { assert (Hlt : 1.122 / 1024 < 1) by lra. pose proof (exp_le_inv_1_minus _ Hlt) as H.
    apply Rle_trans with (1 := H). apply Rmult_le_reg_r with (1 - 1.122 / 1024); [lra|]. rewrite Rinv_l by lra. lra. }
  assert (H1 : exp (1.122 / 512) <= 1.002195013217)
    by (apply exp_sq_upper with (y := 1.122 / 1024) (u := 1.001096905008); lra).
  assert (H2 : exp (1.122 / 256) <= 1.004394844518)
    by (apply exp_sq_upper with (y := 1.122 / 512) (u := 1.002195013217); lra).
  assert (H3 : exp (1.122 / 128) <= 1.008809003695)
    by (apply exp_sq_upper with (y := 1.122 / 256) (u := 1.004394844518); lra).
  assert (H4 : exp (1.122 / 64) <= 1.017695605937)
    by (apply exp_sq_upper with (y := 1.122 / 128) (u := 1.008809003695); lra).
  assert (H5 : exp (1.122 / 32) <= 1.035704346344)
    by (apply exp_sq_upper with (y := 1.122 / 64) (u := 1.017695605937); lra).
  assert (H6 : exp (1.122 / 16) <= 1.072683493036)
    by (apply exp_sq_upper with (y := 1.122 / 32) (u := 1.035704346344); lra).
  assert (H7 : exp (1.122 / 8) <= 1.150649876232)
    by (apply exp_sq_upper with (y := 1.122 / 16) (u := 1.072683493036); lra).
  assert (H8 : exp (1.122 / 4) <= 1.323995137673)
    by (apply exp_sq_upper with (y := 1.122 / 8) (u := 1.150649876232); lra).
  assert (H9 : exp (1.122 / 2) <= 1.752963124582)
    by (apply exp_sq_upper with (y := 1.122 / 4) (u := 1.323995137673); lra).
  assert (H10 : exp (1.122 / 1) <= 3.072879716145)
    by (apply exp_sq_upper with (y := 1.122 / 2) (u := 1.752963124582); lra).
  replace 1.122 with (1.122 / 1) by lra. exact H10.
Qed.

Lemma exp_anchor_lower (a l x : R) :
  l <= exp (2.2 * a) -> 0 <= l -> 0 <= 1 + 2.2 * (x - a) ->
  l * (1 + 2.2 * (x - a)) <= exp (2 * (x * 1.1)).
Proof.
  intros Hl Hl0 Hs.
  replace (2 * (x * 1.1)) with (2.2 * a + 2.2 * (x - a)) by lra.
  rewrite exp_plus.
  pose proof (exp_ineq1_le (2.2 * (x - a))) as H.
  pose proof (exp_pos (2.2 * a)) as Hp.
  apply Rmult_le_compat; lra.
Qed.


(** Below one half the soft clip with drive 1.1 raises a sample. *)
Lemma tanh_drive_gt (x : R) : 0 < x <= 0.5 -> x < tanh (x * 1.1).
Proof.
  intros [Hpos Hle]. apply tanh_lt_iff.
  destruct exp_lower_chain as (L1 & L2 & L4).
  assert (L3 : 2.2808 <= exp 0.825).
  { replace 0.825 with (0.55 + 0.275) by lra. rewrite exp_plus. nra. }
  destruct (Rle_dec x 0.08) as [H1 | H1].
  { assert (Hb := @exp_anchor_lower 0 1 x).
    rewrite Rmult_0_r, exp_0 in Hb. nra. }
  destruct (Rle_dec x 0.2) as [H2 | H2].
  { assert (Hb := @exp_anchor_lower 0.125 1.3163 x).
    replace (2.2 * 0.125) with 0.275 in Hb by lra. nra. }
  destruct (Rle_dec x 0.3) as [H3 | H3].
  { assert (Hb := @exp_anchor_lower 0.25 1.7327 x).
    replace (2.2 * 0.25) with 0.55 in Hb by lra. nra. }
  destruct (Rle_dec x 0.42) as [H4 | H4].
  { assert (Hb := @exp_anchor_lower 0.375 2.2808 x).
    replace (2.2 * 0.375) with 0.825 in Hb by lra. nra. }
  assert (Hb := @exp_anchor_lower 0.5 3.0023 x).
  replace (2.2 * 0.5) with 1.1 in Hb by lra. nra.
Qed.

Lemma exp_2_le_9 : exp 2 <= 9.
Proof.
  replace 2 with (2 * 1) by lra. rewrite exp_double.
  pose proof exp_le_3. pose proof (exp_pos 1). nra.
Qed.


End RealFacts.

(** ** Powers of ten and decibels *)

Module Decibel.

Local Open Scope R_scope.

Lemma ln_le_compat (x y : R) : 0 < x -> x <= y -> ln x <= ln y.
Proof.
  intros Hx [Hlt | ->]; [left; now apply ln_increasing | right; reflexivity].
Qed.

Lemma ln_10_pos : 0 < ln 10.
Proof.
  rewrite <- ln_1. apply ln_increasing; lra.
Qed.

(** [n * ln v <= - k * ln 10] from [v ^ n <= 10 ^ (- k)]. *)
Lemma ln_pow_le (v : R) (n k : nat) :
  0 < v -> v ^ n <= / 10 ^ k -> INR n * ln v <= - INR k * ln 10.
Proof.
  intros Hv Hle.
  rewrite <- ln_pow by assumption.
  replace (- INR k * ln 10) with (ln (/ 10 ^ k)).
  - apply ln_le_compat; [now apply pow_lt | assumption].
  - rewrite ln_Rinv by (apply pow_lt; lra). rewrite ln_pow by lra. ring.
Qed.

Lemma ln_pow_ge (v : R) (n k : nat) :
  0 < v -> / 10 ^ k <= v ^ n -> - INR k * ln 10 <= INR n * ln v.
Proof.
  intros Hv Hle.
  rewrite <- ln_pow by assumption.
  replace (- INR k * ln 10) with (ln (/ 10 ^ k)).
  - apply ln_le_compat; [apply Rinv_0_lt_compat, pow_lt; lra | assumption].
  - rewrite ln_Rinv by (apply pow_lt; lra). rewrite ln_pow by lra. ring.
Qed.

(** Bounds on [log10] from bounds on a power. *)
Lemma log10_le (v : R) (n k : nat) :
  0 < v -> v ^ n <= / 10 ^ k -> INR n * Np.log10 v <= - INR k.
Proof.
  intros Hv Hle. unfold Np.log10, Rlog.
  pose proof ln_10_pos as H10. pose proof (ln_pow_le v n k Hv Hle) as H.
  apply Rmult_le_reg_r with (ln 10); [assumption|].
  replace (INR n * (ln v / ln 10) * ln 10) with (INR n * ln v) by (field; lra).
  lra.
Qed.

Lemma log10_ge (v : R) (n k : nat) :
  0 < v -> / 10 ^ k <= v ^ n -> - INR k <= INR n * Np.log10 v.
Proof.
  intros Hv Hle. unfold Np.log10, Rlog.
  pose proof ln_10_pos as H10. pose proof (ln_pow_ge v n k Hv Hle) as H.
  apply Rmult_le_reg_r with (ln 10); [assumption|].
  replace (INR n * (ln v / ln 10) * ln 10) with (INR n * ln v) by (field; lra).
  lra.
Qed.

Lemma log10_1e9 : Np.log10 1e-9 = -9.
Proof.
  unfold Np.log10, Rlog. pose proof ln_10_pos as H10.
  replace 1e-9 with (/ 10 ^ 9) by lra.
  rewrite ln_Rinv by (apply pow_lt; lra). rewrite ln_pow by lra.
  simpl INR. field. lra.
Qed.

(** Bounds on [10 ** (-1 / n)] from bounds on a power. *)
Lemma Rpower_10_ge (c : R) (n : nat) :
  0 < c -> (0 < n)%nat -> c ^ n <= / 10 ^ 1 -> c <= Rpower 10 (- 1 / INR n).
Proof.
  intros Hc Hn Hle. unfold Rpower.
  rewrite <- (exp_ln c) at 1 by assumption.
  assert (HnR : 0 < INR n) by (apply lt_0_INR; assumption).
  assert (H : ln c <= - 1 / INR n * ln 10).
  { pose proof (ln_pow_le c n 1 Hc Hle) as H. simpl INR in H.
    apply Rmult_le_reg_l with (INR n); [assumption|].
    replace (INR n * (- 1 / INR n * ln 10)) with (- 1 * ln 10) by (field; lra).
    lra. }
  destruct H as [Hlt | Heq]; [left; now apply exp_increasing | right; now rewrite Heq].
Qed.

Lemma Rpower_10_le (c : R) (n : nat) :
  0 < c -> (0 < n)%nat -> / 10 ^ 1 <= c ^ n -> Rpower 10 (- 1 / INR n) <= c.
Proof.
  intros Hc Hn Hle. unfold Rpower.
  rewrite <- (exp_ln c) at 1 by assumption.
  assert (HnR : 0 < INR n) by (apply lt_0_INR; assumption).
  assert (H : - 1 / INR n * ln 10 <= ln c).
  { pose proof (ln_pow_ge c n 1 Hc Hle) as H. simpl INR in H.
    apply Rmult_le_reg_l with (INR n); [assumption|].
    replace (INR n * (- 1 / INR n * ln 10)) with (- 1 * ln 10) by (field; lra).
    lra. }
  destruct H as [Hlt | Heq]; [left; now apply exp_increasing | right; now rewrite Heq].
Qed.

(** The default target, -1 dBFS, lies between 0.89 and 0.9. *)
Lemma TARGET_PEAK_bounds : 0.89 <= Engines.TARGET_PEAK <= 0.9.
Proof.
  unfold Engines.TARGET_PEAK.
  replace 20 with (INR 20) by (simpl; lra).
  split.
  - apply Rpower_10_ge; [lra | lia | simpl; lra].
  - apply Rpower_10_le; [lra | lia | simpl; lra].
Qed.

(** Powers of a ratio of integers, decided on the integers. *)
Lemma pow_ratio_le (a b : Z) (n k : nat) :
  (0 < b)%Z ->
  (a ^ Z.of_nat n * 10 ^ Z.of_nat k <= b ^ Z.of_nat n)%Z ->
  (IZR a / IZR b) ^ n <= / 10 ^ k.
Proof.
  intros Hb Hle.
  unfold Rdiv. rewrite Rpow_mult_distr, pow_inv, !pow_IZR.
  assert (HB : (0 < b ^ Z.of_nat n)%Z) by (apply Z.pow_pos_nonneg; lia).
  assert (HK : (0 < 10 ^ Z.of_nat k)%Z) by (apply Z.pow_pos_nonneg; lia).
  apply IZR_lt in HB, HK. apply IZR_le in Hle. rewrite mult_IZR in Hle.
  set (A := IZR (a ^ Z.of_nat n)) in *.
  set (B := IZR (b ^ Z.of_nat n)) in *.
  set (K := IZR (10 ^ Z.of_nat k)) in *.
  apply Rmult_le_reg_r with B; [assumption|].
  rewrite Rmult_assoc, Rinv_l by lra.
  apply Rmult_le_reg_r with K; [assumption|].
  replace (/ K * B * K) with B by (field; lra). lra.
Qed.

Lemma pow_ratio_ge (a b : Z) (n k : nat) :
  (0 < b)%Z ->
  (b ^ Z.of_nat n <= a ^ Z.of_nat n * 10 ^ Z.of_nat k)%Z ->
  / 10 ^ k <= (IZR a / IZR b) ^ n.
Proof.
  intros Hb Hle.
  unfold Rdiv. rewrite Rpow_mult_distr, pow_inv, !pow_IZR.
  assert (HB : (0 < b ^ Z.of_nat n)%Z) by (apply Z.pow_pos_nonneg; lia).
  assert (HK : (0 < 10 ^ Z.of_nat k)%Z) by (apply Z.pow_pos_nonneg; lia).
  apply IZR_lt in HB, HK. apply IZR_le in Hle. rewrite mult_IZR in Hle.
  set (A := IZR (a ^ Z.of_nat n)) in *.
  set (B := IZR (b ^ Z.of_nat n)) in *.
  set (K := IZR (10 ^ Z.of_nat k)) in *.
  apply Rmult_le_reg_r with B; [assumption|].
  rewrite Rmult_assoc, Rinv_l by lra.
  apply Rmult_le_reg_r with K; [assumption|].
  replace (/ K * B * K) with B by (field; lra). lra.
Qed.

Lemma pow_ratio_le_ratio (a b c d : Z) (n : nat) :
  (0 < b)%Z -> (0 < d)%Z ->
  (a ^ Z.of_nat n * d <= c * b ^ Z.of_nat n)%Z ->
  (IZR a / IZR b) ^ n <= IZR c / IZR d.
Proof.
  intros Hb Hd Hle.
  unfold Rdiv. rewrite Rpow_mult_distr, pow_inv, !pow_IZR.
  assert (HB : (0 < b ^ Z.of_nat n)%Z) by (apply Z.pow_pos_nonneg; lia).
  apply IZR_lt in HB, Hd. apply IZR_le in Hle. rewrite !mult_IZR in Hle.
  set (A := IZR (a ^ Z.of_nat n)) in *.
  set (B := IZR (b ^ Z.of_nat n)) in *.
  apply Rmult_le_reg_r with B; [assumption|].
  rewrite Rmult_assoc, Rinv_l by lra.
  apply Rmult_le_reg_r with (IZR d); [assumption|].
  replace (IZR c * / IZR d * B * IZR d) with (IZR c * B) by (field; lra). lra.
Qed.

(** A bound on [v ^ n] raised to the power [m] bounds [v ^ (n * m)]. *)
Lemma pow_chain_le (v c d : R) (n m : nat) :
  0 <= v -> v ^ n <= c -> c ^ m <= d -> v ^ (n * m) <= d.
Proof.
  intros Hv Hc Hd. rewrite pow_mult.
  apply Rle_trans with (c ^ m); [|assumption].
  apply pow_incr. split; [now apply pow_le | assumption].
Qed.

(** The level of a peak of at most 0.9 is at most -0.5 dBFS. *)
Lemma level_le_half_dB (m : R) :
  0 <= m <= 0.9 -> 20 * Np.log10 (m + 1e-9) <= -0.5.
Proof.
  intros [H0 H9].
  assert (Hv : 0 < m + 1e-9) by lra.
  assert (H : INR 40 * Np.log10 (m + 1e-9) <= - INR 1).
  { apply log10_le; [assumption|].
    apply Rle_trans with ((IZR 91 / IZR 100) ^ 40).
    - apply pow_incr. lra.
    - apply pow_ratio_le; [lia|]. vm_compute. discriminate. }
  rewrite !INR_IZR_INZ in H. simpl Z.of_nat in H. lra.
Qed.

(** The level of a peak of 0.9 is between -0.92 and -0.91 dBFS. *)
Lemma level_of_headroom : -0.92 <= 20 * Np.log10 (0.9 + 1e-9) <= -0.91.
Proof.
  assert (Hv : 0 < 0.9 + 1e-9) by lra.
  assert (Hlo : - INR 23 <= INR 500 * Np.log10 (0.9 + 1e-9)).
  { apply log10_ge; [assumption|].
    apply Rle_trans with ((IZR 9 / IZR 10) ^ 500).
    - apply pow_ratio_ge; [lia|]. vm_compute. discriminate.
    - apply pow_incr. lra. }
  assert (Hhi : INR (10 * (10 * 20)) * Np.log10 (0.9 + 1e-9) <= - INR 91).
  { apply log10_le; [assumption|].
    apply pow_chain_le with (c := IZR 34872 / IZR 100000); [lra | |].
    - apply Rle_trans with ((IZR 90001 / IZR 100000) ^ 10).
      + apply pow_incr. lra.
      + apply pow_ratio_le_ratio; [lia | lia |]. vm_compute. discriminate.
    - apply pow_chain_le with (c := IZR 266 / IZR 10000000); [lra | |].
      + apply pow_ratio_le_ratio; [lia | lia |]. vm_compute. discriminate.
      + apply pow_ratio_le; [lia|]. vm_compute. discriminate. }
  rewrite !INR_IZR_INZ in Hlo, Hhi. simpl Z.of_nat in Hlo, Hhi. lra.
Qed.

(** The level of digital silence is -180 dBFS. *)
Lemma level_of_silence : 20 * Np.log10 (0 + 1e-9) = -180.
Proof.
  rewrite Rplus_0_l, log10_1e9. lra.
Qed.

End Decibel.

(** ** The NumPy operations *)

Module NpFacts.

Import Np.
Local Open Scope R_scope.

Lemma gtb_true (a b : R) : a > b -> gtb a b = true.
Proof. intro H. unfold gtb. destruct (Rgt_dec a b); [reflexivity | contradiction]. Qed.

Lemma gtb_false (a b : R) : a <= b -> gtb a b = false.
Proof. intro H. unfold gtb. destruct (Rgt_dec a b); [lra | reflexivity]. Qed.

Lemma ltb_true (a b : R) : a < b -> ltb a b = true.
Proof. intro H. unfold ltb. destruct (Rlt_dec a b); [reflexivity | contradiction]. Qed.

Lemma ltb_false (a b : R) : b <= a -> ltb a b = false.
Proof. intro H. unfold ltb. destruct (Rlt_dec a b); [lra | reflexivity]. Qed.

Lemma leb_true (a b : R) : a <= b -> leb a b = true.
Proof. intro H. unfold leb. destruct (Rle_dec a b); [reflexivity | contradiction]. Qed.

Lemma leb_false (a b : R) : b < a -> leb a b = false.
Proof. intro H. unfold leb. destruct (Rle_dec a b); [lra | reflexivity]. Qed.

Lemma fold_max_ge (l : list R) (a : R) : a <= fold_left Rmax l a.
Proof.
  revert a. induction l as [|b l IH]; intro a; simpl; [lra|].
  apply Rle_trans with (Rmax a b); [apply Rmax_l | apply IH].
Qed.

Lemma fold_max_in (l : list R) (a v : R) : In v l -> v <= fold_left Rmax l a.
Proof.
  revert a. induction l as [|b l IH]; intros a Hin; simpl in *; [contradiction|].
  destruct Hin as [-> | Hin].
  - apply Rle_trans with (Rmax a v); [apply Rmax_r | apply fold_max_ge].
  - now apply IH.
Qed.

Lemma fold_max_bound (l : list R) (a B : R) :
  a <= B -> Forall (fun v => v <= B) l -> fold_left Rmax l a <= B.
Proof.
  revert a. induction l as [|b l IH]; intros a Ha Hall; simpl; [assumption|].
  inversion Hall; subst. apply IH; [now apply Rmax_lub | assumption].
Qed.

Lemma fold_max_attained (l : list R) (a : R) : In (fold_left Rmax l a) (a :: l).
Proof.
  revert a. induction l as [|b l IH]; intro a; simpl; [now left|].
  destruct (IH (Rmax a b)) as [H | H].
  - rewrite <- H. unfold Rmax. destruct (Rle_dec a b); [right; now left | now left].
  - right. now right.
Qed.

(** [np.max] returns an element of the array that bounds the others. *)
Lemma max_spec (x : ndarray) (m : R) :
  Np.max x = Ok m -> In m x /\ Forall (fun v => v <= m) x.
Proof.
  destruct x as [|a l]; simpl; [discriminate|].
  intro H. injection H as <-. split.
  - apply fold_max_attained.
  - constructor; [apply fold_max_ge|].
    apply Forall_forall. intros v Hv. now apply fold_max_in.
Qed.

Lemma max_ok (x : ndarray) : x <> [] -> exists m, Np.max x = Ok m.
Proof.
  destruct x as [|a l]; [congruence|]. intros _. simpl. eauto.
Qed.

Lemma max_nonempty (x : ndarray) (m : R) : Np.max x = Ok m -> x <> [].
Proof. destruct x; simpl; [discriminate | congruence]. Qed.

Lemma max_le_bound (x : ndarray) (m B : R) :
  Np.max x = Ok m -> Forall (fun v => v <= B) x -> m <= B.
Proof.
  intros Hm Hall. apply max_spec in Hm as [Hin _].
  rewrite Forall_forall in Hall. now apply Hall.
Qed.

Lemma max_ge_elem (x : ndarray) (m v : R) : Np.max x = Ok m -> In v x -> v <= m.
Proof.
  intros Hm Hin. apply max_spec in Hm as [_ Hall].
  rewrite Forall_forall in Hall. now apply Hall.
Qed.

(** The largest magnitude: attained by a sample, bounding all samples. *)
Lemma max_abs_spec (x : ndarray) (m : R) :
  Np.max (Np.abs x) = Ok m ->
  0 <= m /\ (exists v, In v x /\ Rabs v = m) /\ Forall (fun v => Rabs v <= m) x.
Proof.
  intro Hm. apply max_spec in Hm as [Hin Hall]. unfold Np.abs in *.
  apply in_map_iff in Hin as (v & Hv & Hin).
  split; [rewrite <- Hv; apply Rabs_pos|].
  split; [eauto|].
  apply Forall_forall. intros u Hu.
  rewrite Forall_forall in Hall. apply Hall. now apply in_map.
Qed.

Lemma abs_nil_inv (x : ndarray) : Np.abs x = [] -> x = [].
Proof. destruct x; simpl; [reflexivity | discriminate]. Qed.

Lemma size_zero (x : ndarray) : (size x =? 0)%Z = true <-> x = [].
Proof.
  unfold size. destruct x; simpl; split; intro H; try reflexivity; try discriminate.
Qed.

Lemma size_nonzero (x : ndarray) : x <> [] -> (size x =? 0)%Z = false.
Proof.
  intro H. destruct (size x =? 0)%Z eqn:E; [|reflexivity].
  apply size_zero in E. contradiction.
Qed.

End NpFacts.

(** ** The Level Normalizer, [_soft_limit] *)

Module SoftLimit.

Import Engines RealFacts NpFacts Decibel.
Local Open Scope R_scope.

Lemma soft_limit_empty (target_peak : R) : _soft_limit [] target_peak = Ok [].
Proof. reflexivity. Qed.

(** Below the silence guard the buffer is returned as it is. *)
Lemma soft_limit_silent (x : Np.ndarray) (target_peak max_abs : R) :
  Np.max (Np.abs x) = Ok max_abs -> max_abs < 1e-9 ->
  _soft_limit x target_peak = Ok x.
Proof.
  intros Hm Hlt. unfold _soft_limit. rewrite Hm. simpl.
  destruct (Np.size x =? 0)%Z; [reflexivity|].
  now rewrite ltb_true.
Qed.

(** Otherwise every sample goes through the scale and the soft clip. *)
Lemma soft_limit_loud (x : Np.ndarray) (target_peak max_abs : R) :
  Np.max (Np.abs x) = Ok max_abs -> 1e-9 <= max_abs ->
  _soft_limit x target_peak =
  Ok (map (fun v => tanh
             (v * (if Np.gtb max_abs target_peak then target_peak / max_abs else 1) * 1.1)) x).
Proof.
  intros Hm Hge. unfold _soft_limit.
  rewrite size_nonzero.
  - rewrite Hm. simpl. rewrite ltb_false by assumption.
    unfold Np.tanh, Np.scale. now rewrite !map_map.
  - intros ->. discriminate.
Qed.

Lemma scaled_bound (v t m : R) :
  0 < m -> 0 <= t -> Rabs v <= m -> Rabs (v * (t / m) * 1.1) <= t * 1.1.
Proof.
  intros Hm Ht Hv.
  rewrite !Rabs_mult. rewrite (Rabs_pos_eq 1.1) by lra.
  assert (Hq : 0 <= t / m) by (apply Rmult_le_pos; [lra | left; now apply Rinv_0_lt_compat]).
  rewrite (Rabs_pos_eq (t / m)) by assumption.
  apply Rmult_le_compat_r; [lra|].
  replace t with (m * (t / m)) at 2 by (field; lra).
  apply Rmult_le_compat_r; assumption.
Qed.


(** A quiet buffer is not scaled, and each of its non-zero samples of
    magnitude at most one half grows in magnitude. *)
Lemma soft_limit_amplifies_quiet (x : Np.ndarray) (target_peak max_abs : R) :
  Np.max (Np.abs x) = Ok max_abs -> 1e-9 <= max_abs -> max_abs <= target_peak ->
  max_abs <= 0.5 ->
  exists y, _soft_limit x target_peak = Ok y /\
            y = map (fun v => tanh (v * 1 * 1.1)) x /\
            Forall2 (fun a b => a <> 0 -> Rabs a < Rabs b) x y.
Proof.
  intros Hm Hge Hle Hhalf.
  rewrite (@soft_limit_loud _ _ _ Hm Hge). rewrite gtb_false by assumption.
  eexists. split; [reflexivity|]. split; [reflexivity|].
  destruct (@max_abs_spec _ _ Hm) as (_ & _ & Hall).
  clear Hm. induction x as [|a x IH]; simpl; constructor.
  - intro Ha. inversion Hall; subst.
    rewrite Rabs_tanh. rewrite !Rabs_mult, Rabs_R1, (Rabs_pos_eq 1.1) by lra.
    rewrite Rmult_1_r. apply tanh_drive_gt.
    pose proof (Rabs_pos_lt a Ha). lra.
  - apply IH. now inversion Hall.
Qed.

(** With the default target every output sample stays below 0.8. *)
Lemma tanh_0_99 (z : R) : Rabs z <= 0.99 -> Rabs (tanh z) <= 0.8.
Proof.
  intro Hz. rewrite Rabs_tanh.
  apply Rle_trans with (tanh 0.99); [now apply tanh_increasing|].
  apply tanh_le_iff.
  assert (H : exp (2 * 0.99) <= 9).
  { apply Rle_trans with (exp 2); [|apply exp_2_le_9].
    left. apply exp_increasing. lra. }
  lra.
Qed.

Lemma soft_limit_default_margin (x : Np.ndarray) :
  exists y, _soft_limit x TARGET_PEAK = Ok y /\ Forall (fun v => Rabs v <= 0.8) y.
Proof.
  pose proof TARGET_PEAK_bounds as [Hlo Hhi].
  destruct x as [|a l]; [exists []; split; [reflexivity | constructor]|].
  destruct (@max_ok (Np.abs (a :: l))) as (m & Hm); [discriminate|].
  destruct (@max_abs_spec _ _ Hm) as (Hm0 & _ & Hall).
  destruct (Rlt_dec m 1e-9) as [Hs | Hs].
  - rewrite (@soft_limit_silent _ _ _ Hm Hs). eexists. split; [reflexivity|].
    eapply Forall_impl; [|exact Hall]. simpl. intros; lra.
  - assert (Hge : 1e-9 <= m) by lra.
    rewrite (@soft_limit_loud _ _ _ Hm Hge). eexists. split; [reflexivity|].
    apply Forall_forall. intros u Hu. apply in_map_iff in Hu as (v & <- & Hv).
    rewrite Forall_forall in Hall. specialize (Hall v Hv).
    apply tanh_0_99. unfold Np.gtb. destruct (Rgt_dec m TARGET_PEAK) as [Hgt | Hle].
    + apply Rle_trans with (TARGET_PEAK * 1.1); [|lra].
      apply scaled_bound; lra.
    + rewrite Rmult_1_r, Rabs_mult, (Rabs_pos_eq 1.1) by lra. nra.
Qed.




(** In exact arithmetic the hyperbolic tangent never reaches 1, so over
    real numbers the outputs are strictly below 1.0 for every buffer and
    every target.  Floating point does not keep this: see
    [Rounding.soft_limit_reaches_full_scale] below. *)
Lemma soft_limit_exact_below_full_scale (x : Np.ndarray) (target_peak : R) :
  exists y, _soft_limit x target_peak = Ok y /\ Forall (fun v => Rabs v < 1) y.
Proof.
  destruct x as [|a l]; [exists []; split; [reflexivity | constructor]|].
  destruct (@max_ok (Np.abs (a :: l))) as (m & Hm); [discriminate|].
  destruct (@max_abs_spec _ _ Hm) as (Hm0 & _ & Hall).
  destruct (Rlt_dec m 1e-9) as [Hs | Hs].
  - rewrite (@soft_limit_silent _ target_peak _ Hm Hs). eexists. split; [reflexivity|].
    eapply Forall_impl; [|exact Hall]. simpl. intros; lra.
  - assert (Hge : 1e-9 <= m) by lra.
    rewrite (@soft_limit_loud _ target_peak _ Hm Hge). eexists. split; [reflexivity|].
    apply Forall_forall. intros u Hu. apply in_map_iff in Hu as (v & <- & Hv).
    apply Rabs_tanh_lt_1.
Qed.

Lemma tanh_1_1 (z : R) : Rabs z <= 1.1 -> Rabs (tanh z) <= 0.81.
Proof.
  intro Hz. rewrite Rabs_tanh.
  apply Rle_trans with (tanh 1.1); [now apply tanh_increasing|].
  apply tanh_le_iff. rewrite exp_double.
  assert (H : exp 1.1 <= 3.072879716145).
  { apply Rle_trans with (exp 1.122); [|apply exp_upper_1_122].
    left. apply exp_increasing. lra. }
  pose proof (exp_pos 1.1). nra.
Qed.

(** C2 (amended).  For every buffer of finite samples and every target
    peak ratio from 0 to 1, each sample of the buffer [_soft_limit]
    returns has magnitude at most 0.81: the tangent is taken at 1.1
    times the target at most, and a sample below the silence guard is
    below 1e-9.  The bound keeps a margin of 0.19 to full scale. *)
Theorem soft_limit_stays_below_full_scale (x : Np.ndarray) (target_peak : R) :
  0 <= target_peak <= 1 ->
  exists y, _soft_limit x target_peak = Ok y /\ Forall (fun v => Rabs v <= 0.81) y.
Proof.
  intros [Hlo Hhi].
  destruct x as [|a l]; [exists []; split; [reflexivity | constructor]|].
  destruct (@max_ok (Np.abs (a :: l))) as (m & Hm); [discriminate|].
  destruct (@max_abs_spec _ _ Hm) as (Hm0 & _ & Hall).
  destruct (Rlt_dec m 1e-9) as [Hs | Hs].
  - rewrite (@soft_limit_silent _ target_peak _ Hm Hs). eexists. split; [reflexivity|].
    eapply Forall_impl; [|exact Hall]. simpl. intros; lra.
  - assert (Hge : 1e-9 <= m) by lra.
    rewrite (@soft_limit_loud _ target_peak _ Hm Hge). eexists. split; [reflexivity|].
    apply Forall_forall. intros u Hu. apply in_map_iff in Hu as (v & <- & Hv).
    rewrite Forall_forall in Hall. specialize (Hall v Hv).
    apply tanh_1_1. unfold Np.gtb. destruct (Rgt_dec m target_peak) as [Hgt | Hle].
    + apply Rle_trans with (target_peak * 1.1); [|lra].
      apply scaled_bound; lra.
    + rewrite Rmult_1_r, Rabs_mult, (Rabs_pos_eq 1.1) by lra. nra.
Qed.

Lemma soft_limit_stays_below_full_scale_witness :
  exists y, _soft_limit [20; -40] 1 = Ok y /\ Forall (fun v => Rabs v <= 0.81) y.
Proof.
  apply (soft_limit_stays_below_full_scale [20; -40] 1). lra.
Defined.

(** C10.  [_soft_limit] is not magnitude-non-increasing on quiet audio:
    the buffer [[0.1]] has its peak strictly between the silence guard
    1e-9 and the default target, it is not scaled (the scale is 1), and
    its output sample [tanh (0.1 * 1 * 1.1)] is strictly larger in
    magnitude than the input sample. *)
Theorem soft_limit_amplifies_some_quiet_buffer :
  exists x max_abs y,
    Np.max (Np.abs x) = Ok max_abs /\
    1e-9 < max_abs < TARGET_PEAK /\
    _soft_limit x TARGET_PEAK = Ok y /\
    y = map (fun v => tanh (v * 1 * 1.1)) x /\
    Forall2 (fun a b => Rabs a < Rabs b) x y.
Proof.
  pose proof TARGET_PEAK_bounds as [Hlo Hhi].
  assert (Habs : Rabs 0.1 = 0.1) by (apply Rabs_pos_eq; lra).
  assert (Hm : Np.max (Np.abs [0.1]) = Ok 0.1) by (simpl; now rewrite Habs).
  exists [0.1], 0.1.
  destruct (@soft_limit_amplifies_quiet [0.1] TARGET_PEAK 0.1 Hm) as (y & Hy & Heq & Hall);
    try lra.
  exists y. repeat split; try assumption; try lra.
  subst y. constructor; [|constructor].
  inversion Hall; subst. match goal with H : 0.1 <> 0 -> _ |- _ => apply H end. lra.
Qed.

End SoftLimit.

(** ** The Level Normalizer in floating point *)

Module Rounding.

Import Binary64 RealFacts NpFacts.
Local Open Scope R_scope.

Lemma two_to_pos (k : Z) : 0 < two_to k.
Proof. unfold two_to, Rpower. apply exp_pos. Qed.

Lemma two_to_plus (a b : Z) : two_to (a + b) = two_to a * two_to b.
Proof. unfold two_to. rewrite plus_IZR. apply Rpower_plus. Qed.

Lemma two_to_nat (n : nat) : two_to (Z.of_nat n) = 2 ^ n.
Proof. unfold two_to. rewrite <- INR_IZR_INZ. apply Rpower_pow. lra. Qed.

Lemma two_to_neg_nat (n : nat) : two_to (- Z.of_nat n) = / 2 ^ n.
Proof.
  unfold two_to. rewrite opp_IZR, Rpower_Ropp, <- INR_IZR_INZ, Rpower_pow by lra.
  reflexivity.
Qed.

Lemma ln_2_pos : 0 < ln 2.
Proof. rewrite <- ln_1. apply ln_increasing; lra. Qed.

Lemma two_to_le (a b : Z) : (a <= b)%Z -> two_to a <= two_to b.
Proof.
  intro H. unfold two_to, Rpower.
  destruct (Z.eq_dec a b) as [-> | Hne]; [apply Rle_refl|].
  left. apply exp_increasing. apply Rmult_lt_compat_r; [apply ln_2_pos|].
  apply IZR_lt. lia.
Qed.

Lemma exponent_le (y : R) : y <> 0 -> two_to (exponent y) <= Rabs y.
Proof.
  intro Hy. assert (Hpos : 0 < Rabs y) by now apply Rabs_pos_lt.
  pose proof ln_2_pos as H2.
  destruct (base_Int_part (ln (Rabs y) / ln 2)) as [Hle _].
  fold (exponent y) in Hle.
  assert (H : IZR (exponent y) * ln 2 <= ln (Rabs y)).
  { apply (Rmult_le_compat_r (ln 2)) in Hle; [|lra].
    unfold Rdiv in Hle. rewrite Rmult_assoc, Rinv_l, Rmult_1_r in Hle by lra. exact Hle. }
  unfold two_to, Rpower. rewrite <- (exp_ln (Rabs y) Hpos).
  destruct H as [H | H]; [left; now apply exp_increasing | rewrite H; apply Rle_refl].
Qed.

Lemma exponent_eq (y : R) (e : Z) :
  two_to e <= Rabs y < two_to (e + 1) -> exponent y = e.
Proof.
  intros [Hlo Hhi]. pose proof ln_2_pos as H2.
  assert (Hpos : 0 < Rabs y) by (pose proof (two_to_pos e); lra).
  symmetry. apply Int_part_spec.
  assert (H1 : IZR e * ln 2 <= ln (Rabs y)).
  { rewrite <- (ln_exp (IZR e * ln 2)).
    destruct Hlo as [Hlo | Hlo].
    - left. apply ln_increasing; [apply exp_pos | exact Hlo].
    - unfold two_to, Rpower in Hlo. rewrite Hlo. apply Rle_refl. }
  assert (H3 : ln (Rabs y) < IZR (e + 1) * ln 2).
  { rewrite <- (ln_exp (IZR (e + 1) * ln 2)). apply ln_increasing; [exact Hpos | exact Hhi]. }
  rewrite plus_IZR in H3.
  assert (Hq : ln (Rabs y) / ln 2 * ln 2 = ln (Rabs y)) by (field; lra).
  split.
  - apply (Rmult_lt_reg_r (ln 2)); [lra|]. nra.
  - apply (Rmult_le_reg_r (ln 2)); [lra|]. nra.
Qed.

Lemma nearest_even_near (q : R) : q - 1 < IZR (nearest_even q) <= q + 1.
Proof.
  unfold nearest_even. destruct (base_Int_part q) as [H1 H2].
  set (f := Int_part q) in *.
  repeat match goal with |- context [if ?c then _ else _] => destruct c end;
    rewrite ?plus_IZR; lra.
Qed.

Lemma round_error (y : R) : Rabs (round y - y) <= ulp y.
Proof.
  pose proof (two_to_pos (Z.max (exponent y) (-1022) - 52)) as Hu. fold (ulp y) in Hu.
  unfold round. destruct (Req_dec_T y 0) as [-> | Hy].
  - rewrite Rminus_0_r, Rabs_R0. lra.
  - pose proof (nearest_even_near (y / ulp y)) as [H1 H2].
    set (n := IZR (nearest_even (y / ulp y))) in *.
    assert (Hy' : y = y / ulp y * ulp y) by (field; lra).
    apply Rabs_le. split.
    + apply (Rmult_lt_compat_r (ulp y)) in H1; [|lra]. nra.
    + apply (Rmult_le_compat_r (ulp y)) in H2; [|lra]. nra.
Qed.

Lemma two_to_m52 : two_to (-52) <= / 1024.
Proof.
  apply Rle_trans with (two_to (- Z.of_nat 10)); [apply two_to_le; lia|].
  rewrite two_to_neg_nat. apply Rinv_le_contravar; simpl; lra.
Qed.

Lemma ulp_large (y : R) : 1 <= Rabs y -> ulp y <= Rabs y * / 1024.
Proof.
  intro H1. assert (Hy : y <> 0) by (intros ->; rewrite Rabs_R0 in H1; lra).
  assert (He : (0 <= exponent y)%Z).
  { destruct (base_Int_part (ln (Rabs y) / ln 2)) as [_ Hgt].
    fold (exponent y) in Hgt.
    assert (0 <= ln (Rabs y) / ln 2).
    { apply Rmult_le_pos; [|left; apply Rinv_0_lt_compat, ln_2_pos].
      rewrite <- ln_1. destruct H1 as [H1 | H1]; [left; apply ln_increasing; lra|].
      rewrite <- H1. apply Rle_refl. }
    assert (-1 < IZR (exponent y)) by lra.
    apply lt_IZR in H0. lia. }
  unfold ulp. rewrite Z.max_l by lia.
  replace (exponent y - 52)%Z with (exponent y + -52)%Z by lia.
  rewrite two_to_plus.
  pose proof (exponent_le y Hy). pose proof two_to_m52.
  pose proof (two_to_pos (exponent y)). pose proof (two_to_pos (-52)).
  apply Rmult_le_compat; lra.
Qed.

Lemma ulp_small (y : R) : y <> 0 -> Rabs y < 1 -> ulp y <= / 1024.
Proof.
  intros Hy H1. apply Rle_trans with (two_to (-52)); [|apply two_to_m52].
  unfold ulp. apply two_to_le.
  assert (exponent y <= 0)%Z; [|lia].
  pose proof (exponent_le y Hy).
  destruct (Z_lt_le_dec 0 (exponent y)) as [Hlt | Hle]; [|lia].
  exfalso. pose proof (two_to_le 0 (exponent y) ltac:(lia)) as H0.
  unfold two_to at 1 in H0. rewrite Rpower_O in H0 by lra. lra.
Qed.

(** Rounding moves a number by less than a thousandth of its size. *)
Lemma round_near (y : R) : Rabs (round y - y) <= Rmax (Rabs y) 1 * / 1024.
Proof.
  destruct (Req_dec_T y 0) as [-> | Hy].
  { unfold round. destruct (Req_dec_T 0 0); [|contradiction].
    rewrite Rminus_0_r, Rabs_R0. pose proof (Rmax_r 0 1). lra. }
  apply Rle_trans with (ulp y); [apply round_error|].
  destruct (Rle_lt_dec 1 (Rabs y)) as [H1 | H1].
  - rewrite Rmax_left by exact H1. now apply ulp_large.
  - rewrite Rmax_right by lra. rewrite Rmult_1_l. now apply ulp_small.
Qed.

Lemma round_ge (y : R) : 1 <= y -> y * (1 - / 1024) <= round y.
Proof.
  intro H1. pose proof (round_near y) as H.
  rewrite (Rabs_pos_eq y), Rmax_left in H by lra.
  pose proof (Rle_abs (- (round y - y))) as Hn. rewrite Rabs_Ropp in Hn. lra.
Qed.

Lemma round_one (y : R) : 1 - / 2 ^ 54 < y < 1 -> round y = 1.
Proof.
  intros [Hlo Hhi].
  set (P := 2 ^ 53) in *.
  assert (HP : 1024 <= P).
  { unfold P. change 53%nat with (10 + 43)%nat. rewrite pow_add.
    assert (1 <= 2 ^ 43) by (apply pow_R1_Rle; lra).
    assert (2 ^ 10 = 1024) by (simpl; lra). nra. }
  assert (H54 : 2 ^ 54 = 2 * P) by (unfold P; simpl; lra).
  rewrite H54 in Hlo.
  assert (Hinv : / (2 * P) = / 2 * / P) by (field; lra).
  rewrite Hinv in Hlo.
  assert (HiP : 0 < / P <= / 1024).
  { split; [apply Rinv_0_lt_compat; lra | apply Rinv_le_contravar; lra]. }
  assert (Hy : y <> 0) by lra.
  assert (Habs : Rabs y = y) by (apply Rabs_pos_eq; lra).
  assert (He : exponent y = (-1)%Z).
  { apply exponent_eq. rewrite Habs.
    change (-1)%Z with (- Z.of_nat 1)%Z at 1. rewrite two_to_neg_nat.
    change (-1 + 1)%Z with (Z.of_nat 0). rewrite two_to_nat. simpl. lra. }
  assert (Hu : ulp y = / P).
  { unfold ulp. rewrite He. change (Z.max (-1) (-1022) - 52)%Z with (- Z.of_nat 53)%Z.
    now rewrite two_to_neg_nat. }
  unfold round. destruct (Req_dec_T y 0) as [|_]; [contradiction|].
  rewrite Hu. unfold Rdiv. rewrite Rinv_inv.
  assert (HPz : IZR (2 ^ 53) = P) by (unfold P; rewrite (pow_IZR 2 53); reflexivity).
  assert (HPP : / P * P = 1) by (field; lra).
  assert (Hq : P - / 2 < y * P < P).
  { split; [|nra].
    apply (Rmult_lt_compat_r P) in Hlo; [|lra].
    replace ((1 - / 2 * / P) * P) with (P - / 2 * (/ P * P)) in Hlo by ring.
    rewrite HPP in Hlo. lra. }
  assert (Hf : Int_part (y * P) = (2 ^ 53 - 1)%Z).
  { symmetry. apply Int_part_spec. rewrite minus_IZR, HPz. lra. }
  assert (Hn : nearest_even (y * P) = (2 ^ 53)%Z).
  { unfold nearest_even. rewrite Hf, minus_IZR, HPz.
    destruct (Rlt_dec (y * P - (P - 1)) (1 / 2)); [lra|].
    destruct (Rlt_dec (1 / 2) (y * P - (P - 1))); [lia | lra]. }
  rewrite Hn, HPz. field. lra.
Qed.

Lemma exp_nat_ge (n : nat) : 2 ^ n <= exp (INR n).
Proof.
  induction n as [|n IH]; [simpl; rewrite exp_0; lra|].
  rewrite S_INR, exp_plus. simpl.
  pose proof (exp_ineq1_le 1). pose proof (exp_pos (INR n)).
  assert (0 < 2 ^ n) by (apply pow_lt; lra). nra.
Qed.

Lemma tanh_near_one (t : R) : 38 <= t -> 1 - / 2 ^ 54 < Rtrigo_def.tanh t < 1.
Proof.
  intro Ht. split; [|apply tanh_lt_1].
  apply tanh_lt_iff.
  assert (H76 : 2 ^ 76 <= exp (2 * t)).
  { apply Rle_trans with (exp (INR 76)); [apply exp_nat_ge|].
    assert (HI : INR 76 = 76) by (rewrite INR_IZR_INZ; reflexivity).
    rewrite HI.
    destruct (Req_dec_T 76 (2 * t)) as [<- | Hne]; [apply Rle_refl|].
    left. apply exp_increasing. lra. }
  set (Q := 2 ^ 54) in *.
  assert (HQ : 1 <= Q) by (apply pow_R1_Rle; lra).
  assert (H76' : 2 ^ 76 = Q * 2 ^ 22).
  { unfold Q. rewrite <- pow_add. reflexivity. }
  assert (H22 : 4 <= 2 ^ 22).
  { change 22%nat with (2 + 20)%nat. rewrite pow_add.
    assert (1 <= 2 ^ 20) by (apply pow_R1_Rle; lra). simpl. lra. }
  assert (HiQ : 0 < / Q) by (apply Rinv_0_lt_compat; lra).
  replace (1 - (1 - / Q)) with (/ Q) by ring.
  apply Rlt_le_trans with (Q * 4 * / Q).
  - replace (Q * 4 * / Q) with 4 by (field; lra). lra.
  - apply Rmult_le_compat_r; [lra|]. rewrite H76' in H76. nra.
Qed.

(** The original sentence of C2 fails in floating point.  A sample of
    40 with a target of 50 is not scaled, the tangent is taken near 44,
    and the nearest binary64 number to that value is 1.0 itself.  With
    the default target, a NaN sample passes both guards, since every
    comparison with NaN is false, and comes out as NaN, whose magnitude
    is not below 1.0 either. *)
Lemma soft_limit_reaches_full_scale :
  Rounded._soft_limit [Num 40] (Num 50) = Ok [Num 1] /\
  ~ below_full_scale (Num 1) /\
  Rounded._soft_limit [NaN] (Num Engines.TARGET_PEAK) = Ok [NaN] /\
  ~ below_full_scale NaN.
Proof.
  split; [|split; [|split]].
  - unfold Rounded._soft_limit. cbn [length Z.of_nat Z.eqb map Binary64.abs Binary64.max
                                     fold_left rbind].
    assert (Hlit : round 1e-9 <= 40).
    { pose proof (round_near 1e-9) as H.
      rewrite (Rabs_pos_eq 1e-9), Rmax_right in H by lra.
      pose proof (Rle_abs (round 1e-9 - 1e-9)). lra. }
    unfold literal. cbn [Binary64.ltb Binary64.gtb].
    rewrite (Rabs_pos_eq 40) by lra.
    rewrite ltb_false by exact Hlit.
    rewrite gtb_false by lra.
    cbn [map Binary64.mul Binary64.tanh].
    pose proof (round_ge (40 * 1) ltac:(lra)) as Ha.
    pose proof (round_ge 1.1 ltac:(lra)) as Hc.
    set (a := round (40 * 1)) in *. set (c := round 1.1) in *.
    assert (Hac : 39 <= a * c) by nra.
    pose proof (round_ge (a * c) ltac:(lra)) as Harg.
    assert (H38 : 38 <= round (a * c)) by nra.
    now rewrite (round_one _ (tanh_near_one _ H38)).
  - simpl. rewrite Rabs_R1. lra.
  - reflexivity.
  - exact (fun H => H).
Qed.

End Rounding.

(** ** The Silence Trimmer, [_trim_trailing_silence] *)

Module Trim.

Import Engines NpFacts.
Local Open Scope R_scope.

Lemma loud_app (thresh : R) (x y : Np.ndarray) :
  loud thresh (x ++ y) = loud thresh x ++ loud thresh y.
Proof. unfold loud, Np.gt, Np.abs. now rewrite !map_app. Qed.

Lemma loud_length (thresh : R) (x : Np.ndarray) : length (loud thresh x) = length x.
Proof. unfold loud, Np.gt, Np.abs. now rewrite !length_map. Qed.

Lemma where_from_app (i : nat) (m1 m2 : list bool) :
  Np.where_from i (m1 ++ m2) = Np.where_from i m1 ++ Np.where_from (i + length m1) m2.
Proof.
  revert i. induction m1 as [|b m1 IH]; intro i; simpl.
  - now rewrite Nat.add_0_r.
  - rewrite IH. replace (S i + length m1)%nat with (i + S (length m1))%nat by lia.
    now destruct b.
Qed.

Lemma where_from_range (i j : nat) (m : list bool) :
  In j (Np.where_from i m) -> (i <= j < i + length m)%nat.
Proof.
  revert i. induction m as [|b m IH]; intros i Hin; simpl in *; [contradiction|].
  destruct b; [destruct Hin as [<- | Hin]|].
  - lia.
  - apply IH in Hin. lia.
  - apply IH in Hin. lia.
Qed.

(** No index is reported exactly when no sample is above the threshold. *)
Lemma where_nil_silent (i : nat) (thresh : R) (x : Np.ndarray) :
  Np.where_from i (loud thresh x) = [] <-> Forall (fun v => Rabs v <= thresh) x.
Proof.
  revert i. induction x as [|a x IH]; intro i; simpl.
  - split; [constructor | reflexivity].
  - unfold Np.gtb. destruct (Rgt_dec (Rabs a) thresh) as [Hgt | Hle].
    + split; [discriminate|]. intro H. inversion H; subst. lra.
    + rewrite (IH (S i)). split; intro H.
      * constructor; [lra | assumption].
      * now inversion H.
Qed.

Lemma last_in (l : list nat) (d : nat) : l <> [] -> In (last l d) l.
Proof.
  induction l as [|a l IH]; [congruence|]. intros _.
  destruct l as [|b l]; [now left|].
  right. apply IH. discriminate.
Qed.

Lemma last_app_r (l1 l2 : list nat) (d : nat) :
  l2 <> [] -> last (l1 ++ l2) d = last l2 d.
Proof.
  intro H. induction l1 as [|a l1 IH]; [reflexivity|].
  simpl. destruct (l1 ++ l2) eqn:E; [|assumption].
  apply app_eq_nil in E as [_ E]. contradiction.
Qed.

Lemma last_default (l : list nat) (d d' : nat) : l <> [] -> last l d = last l d'.
Proof.
  induction l as [|a l IH]; [congruence|]. intros _.
  destruct l as [|b l]; [reflexivity|].
  apply IH. discriminate.
Qed.

Lemma last_item_last (l : list nat) (j : nat) :
  Np.last_item l = Ok j -> l <> [] /\ j = last l 0%nat.
Proof.
  destruct l as [|i l]; simpl; [discriminate|].
  intro H. injection H as <-. split; [discriminate|].
  destruct l as [|b l]; [reflexivity|].
  apply last_default. discriminate.
Qed.

Lemma last_item_ok (l : list nat) : l <> [] -> Np.last_item l = Ok (last l 0%nat).
Proof.
  intro H. destruct l as [|i l]; [congruence|].
  destruct (Np.last_item (i :: l)) as [j | e] eqn:E; [|discriminate].
  apply last_item_last in E as [_ ->]. reflexivity.
Qed.

Lemma slice_to_nonneg {A : Type} (x : list A) (k : Z) :
  (0 <= k)%Z -> Np.slice_to x k = firstn (Z.to_nat k) x.
Proof.
  intro H. unfold Np.slice_to. destruct (k <? 0)%Z eqn:E; [lia | reflexivity].
Qed.

Lemma slice_to_length_eq {A : Type} (x : list A) :
  Np.slice_to x (Z.of_nat (length x)) = x.
Proof.
  rewrite slice_to_nonneg by lia. rewrite Nat2Z.id. apply firstn_all.
Qed.

(** The two outcomes of the trimmer on a non-empty buffer. *)
Lemma trim_silent_eq (x : Np.ndarray) (sr : Z) (thresh : R) (max_ms : Z) :
  x <> [] -> Forall (fun v => Rabs v <= thresh) x ->
  _trim_trailing_silence x sr thresh max_ms = Ok (Np.slice_to x (tail_samples sr max_ms)).
Proof.
  intros Hne Hs. unfold _trim_trailing_silence.
  rewrite size_nonzero by assumption.
  apply (where_nil_silent 0) in Hs. unfold loud in Hs. unfold Np.where_true.
  rewrite Hs. reflexivity.
Qed.

Lemma trim_loud_eq (x : Np.ndarray) (sr : Z) (thresh : R) (max_ms : Z) :
  Np.where_true (loud thresh x) <> [] ->
  _trim_trailing_silence x sr thresh max_ms =
  Ok (Np.slice_to x
        (Z.min (Np.size x)
               (Z.of_nat (last (Np.where_true (loud thresh x)) 0%nat) + tail_samples sr max_ms))).
Proof.
  intro Hidx. unfold _trim_trailing_silence.
  assert (Hne : x <> []) by (intros ->; apply Hidx; reflexivity).
  rewrite size_nonzero by assumption.
  fold (loud thresh x).
  destruct (Np.where_true (loud thresh x)) as [|i idx] eqn:E; [congruence|].
  replace (Z.of_nat (length (i :: idx)) =? 0)%Z with false
    by (symmetry; apply Z.eqb_neq; simpl length; lia).
  rewrite last_item_ok by discriminate. reflexivity.
Qed.

Lemma silent_firstn (thresh : R) (n : nat) (x : Np.ndarray) :
  Forall (fun v => Rabs v <= thresh) x ->
  Forall (fun v => Rabs v <= thresh) (firstn n x).
Proof.
  intro H. apply Forall_forall. intros v Hv.
  rewrite Forall_forall in H. apply H.
  rewrite <- (firstn_skipn n x). apply in_or_app. now left.
Qed.

(** With a tail of at least one sample the trimmer keeps its last loud
    sample, so trimming its output changes nothing. *)
Lemma trim_fixed_point (x y : Np.ndarray) (sr : Z) (thresh : R) (max_ms : Z) :
  (1 <= tail_samples sr max_ms)%Z ->
  _trim_trailing_silence x sr thresh max_ms = Ok y ->
  _trim_trailing_silence y sr thresh max_ms = Ok y.
Proof.
  intros HT Hx.
  destruct x as [|a x']; [injection Hx as <-; reflexivity|].
  set (x := a :: x') in *.
  destruct (Np.where_true (loud thresh x)) as [|i idx] eqn:Eidx.
  - (* fully silent *)
    assert (Hs : Forall (fun v => Rabs v <= thresh) x)
      by (apply (where_nil_silent 0); assumption).
    rewrite trim_silent_eq in Hx by (assumption || discriminate).
    injection Hx as <-. rewrite slice_to_nonneg by lia.
    set (n := Z.to_nat (tail_samples sr max_ms)).
    destruct (firstn n x) as [|b y'] eqn:Ey; [reflexivity|].
    rewrite trim_silent_eq.
    + rewrite slice_to_nonneg by lia. fold n. rewrite <- Ey.
      rewrite firstn_firstn. now rewrite Nat.min_id.
    + discriminate.
    + rewrite <- Ey. now apply silent_firstn.
  - (* a last loud sample *)
    assert (Hne : Np.where_true (loud thresh x) <> []) by (rewrite Eidx; discriminate).
    rewrite (@trim_loud_eq x sr thresh max_ms Hne) in Hx. injection Hx as <-.
    set (l := last (Np.where_true (loud thresh x)) 0%nat) in *.
    assert (Hl : (l < length x)%nat).
    { pose proof (@last_in (Np.where_true (loud thresh x)) 0%nat Hne) as Hin.
      apply where_from_range in Hin. rewrite loud_length in Hin. lia. }
    set (keep := Z.min (Np.size x) (Z.of_nat l + tail_samples sr max_ms)).
    assert (Hkeep : (Z.of_nat l + 1 <= keep <= Z.of_nat (length x))%Z)
      by (unfold keep, Np.size; lia).
    rewrite slice_to_nonneg by lia.
    set (k := Z.to_nat keep).
    assert (Hk : (l < k <= length x)%nat) by (unfold k; lia).
    set (p := firstn k x).
    assert (Hlen : length p = k) by (unfold p; rewrite length_firstn; lia).
    assert (Hsplit : Np.where_true (loud thresh x) =
                     Np.where_true (loud thresh p) ++
                     Np.where_from k (loud thresh (skipn k x))).
    { rewrite <- (firstn_skipn k x) at 1. fold p.
      rewrite loud_app. unfold Np.where_true. rewrite where_from_app.
      rewrite loud_length, Hlen. reflexivity. }
    assert (Hnil : Np.where_from k (loud thresh (skipn k x)) = []).
    { destruct (Np.where_from k (loud thresh (skipn k x))) as [|j js] eqn:E; [reflexivity|].
      exfalso.
      assert (Hin : In l (j :: js)).
      { unfold l. rewrite Hsplit. rewrite last_app_r by discriminate.
        apply last_in. discriminate. }
      rewrite <- E in Hin. apply where_from_range in Hin. lia. }
    rewrite Hnil, app_nil_r in Hsplit.
    assert (Hne' : Np.where_true (loud thresh p) <> []) by (rewrite <- Hsplit; assumption).
    rewrite (@trim_loud_eq p sr thresh max_ms Hne'). rewrite <- Hsplit. fold l.
    replace (Z.min (Np.size p) (Z.of_nat l + tail_samples sr max_ms))
      with (Z.of_nat (length p)) by (unfold Np.size; lia).
    now rewrite slice_to_length_eq.
Qed.

Lemma trim_returns (x : Np.ndarray) (sr : Z) (thresh : R) (max_ms : Z) :
  exists y, _trim_trailing_silence x sr thresh max_ms = Ok y.
Proof.
  destruct x as [|a x']; [exists []; reflexivity|].
  destruct (Np.where_true (loud thresh (a :: x'))) as [|i idx] eqn:Eidx.
  - rewrite trim_silent_eq; [eauto | discriminate | now apply (where_nil_silent 0)].
  - rewrite trim_loud_eq by (rewrite Eidx; discriminate). eauto.
Qed.

(** C3 (amended).  When the tail [int(sr * max_ms / 1000)] is at least
    one sample, the trimmer is idempotent: it returns a buffer, and
    trimming that buffer again with the same parameters returns the same
    buffer. *)
Theorem trim_idempotent (x : Np.ndarray) (sr : Z) (thresh : R) (max_ms : Z) :
  (1 <= tail_samples sr max_ms)%Z ->
  exists y,
    _trim_trailing_silence x sr thresh max_ms = Ok y /\
    _trim_trailing_silence y sr thresh max_ms = Ok y.
Proof.
  intro HT. destruct (trim_returns x sr thresh max_ms) as (y & Hy).
  exists y. split; [assumption|]. eapply trim_fixed_point; eassumption.
Qed.

Lemma trim_idempotent_witness :
  exists y,
    _trim_trailing_silence [0.5; 0; 0; 0] 16000 default_thresh default_max_ms = Ok y /\
    _trim_trailing_silence y 16000 default_thresh default_max_ms = Ok y.
Proof.
  apply (@trim_idempotent [0.5; 0; 0; 0] 16000 default_thresh default_max_ms).
  vm_compute. discriminate.
Defined.

(** C3 as stated fails: with [max_ms = 0] the tail is empty, the slice
    [x[:last]] drops the last loud sample itself, and a second pass
    trims again. *)
Lemma trim_twice_differs_without_tail :
  _trim_trailing_silence [1; 1] 16000 default_thresh 0 = Ok [1] /\
  _trim_trailing_silence [1] 16000 default_thresh 0 = Ok [].
Proof.
  unfold _trim_trailing_silence, Np.where_true, Np.gt, Np.abs, default_thresh.
  simpl map. rewrite Rabs_R1. rewrite gtb_true by lra.
  split; reflexivity.
Qed.

Lemma slice_to_full_iff (x : Np.ndarray) (k : Z) :
  x <> [] -> (Np.slice_to x k = x <-> (Np.size x <= k)%Z).
Proof.
  intro Hne. unfold Np.slice_to, Np.size.
  assert (Hlen : (0 < length x)%nat) by (destruct x; [congruence | simpl; lia]).
  assert (Hfirst : forall n, firstn n x = x <-> (length x <= n)%nat).
  { intro n. split; intro H.
    - apply (f_equal (@length R)) in H. rewrite length_firstn in H. lia.
    - now apply firstn_all2. }
  destruct (k <? 0)%Z eqn:E; rewrite Hfirst; lia.
Qed.

(** A fully silent buffer of one second at 16000 Hz keeps 3200 samples. *)
Lemma trim_silent_one_second (x : Np.ndarray) :
  Np.size x = 16000%Z ->
  Forall (fun v => Rabs v <= default_thresh) x ->
  _trim_trailing_silence x 16000 default_thresh default_max_ms = Ok (firstn 3200 x) /\
  length (firstn 3200 x) = 3200%nat.
Proof.
  intros Hlen Hs. split.
  - rewrite trim_silent_eq; [| intros ->; discriminate | assumption].
    rewrite slice_to_nonneg by (vm_compute; discriminate).
    reflexivity.
  - rewrite length_firstn. unfold Np.size in Hlen. lia.
Qed.

(** C4 (amended).  For every non-empty, fully silent buffer the trimmer
    returns the slice [x[:t]] with [t = int(sr * max_ms / 1000)]: the
    first [t] samples, exactly [t] of them when the buffer has at least
    [t]; the result is the whole buffer exactly when the buffer has at
    most [t] samples, so a silent buffer longer than the tail is never
    returned whole. *)
Theorem trim_silent_keeps_tail (x : Np.ndarray) (sr : Z) (thresh : R) (max_ms : Z) :
  x <> [] ->
  Forall (fun v => Rabs v <= thresh) x ->
  exists y,
    _trim_trailing_silence x sr thresh max_ms = Ok y /\
    y = Np.slice_to x (tail_samples sr max_ms) /\
    ((0 <= tail_samples sr max_ms)%Z -> y = firstn (Z.to_nat (tail_samples sr max_ms)) x) /\
    ((0 <= tail_samples sr max_ms <= Np.size x)%Z ->
     Z.of_nat (length y) = tail_samples sr max_ms) /\
    (y = x <-> (Np.size x <= tail_samples sr max_ms)%Z).
Proof.
  intros Hne Hs. exists (Np.slice_to x (tail_samples sr max_ms)).
  split; [now apply trim_silent_eq|]. split; [reflexivity|].
  split; [intro; now apply slice_to_nonneg|].
  split; [|now apply slice_to_full_iff].
  intros [H0 Hle]. rewrite slice_to_nonneg by assumption.
  rewrite length_firstn. unfold Np.size in Hle. lia.
Qed.

Lemma trim_silent_keeps_tail_witness :
  exists y,
    _trim_trailing_silence (repeat 0 (Z.to_nat 16000)) 16000 default_thresh 200 = Ok y /\
    Z.of_nat (length y) = 3200%Z /\
    y <> repeat 0 (Z.to_nat 16000).
Proof.
  assert (Hlen : Np.size (repeat 0 (Z.to_nat 16000)) = 16000%Z)
    by (unfold Np.size; rewrite repeat_length; apply Z2Nat.id; discriminate).
  assert (Hne : repeat 0 (Z.to_nat 16000) <> []).
  { intro H. rewrite H in Hlen. discriminate. }
  destruct (@trim_silent_keeps_tail (repeat 0 (Z.to_nat 16000)) 16000 default_thresh 200 Hne)
    as (y & Hy & _ & _ & Hcount & Hfull).
  - apply Forall_forall. intros v Hv. apply repeat_spec in Hv. subst v.
    rewrite Rabs_R0. unfold default_thresh. lra.
  - exists y. split; [exact Hy|]. split.
    + apply Hcount. rewrite Hlen. vm_compute. split; discriminate.
    + intro H. apply Hfull in H. rewrite Hlen in H. vm_compute in H. now apply H.
Defined.

(** C4 as stated fails: a silent buffer shorter than the tail is
    returned whole. *)
Lemma trim_short_silent_buffer_whole :
  [0] <> [] /\
  Forall (fun v => Rabs v <= default_thresh) [0] /\
  _trim_trailing_silence [0] 16000 default_thresh default_max_ms = Ok [0].
Proof.
  assert (Hs : Forall (fun v => Rabs v <= default_thresh) [0]).
  { constructor; [|constructor]. rewrite Rabs_R0. unfold default_thresh. lra. }
  split; [discriminate|]. split; [assumption|].
  rewrite trim_silent_eq; [reflexivity | discriminate | assumption].
Qed.



End Trim.

(** ** Running the [IO] monad *)

Module IOFacts.

Lemma print_run (m : msg) (w : world) : print m w = (Ok tt, printed w [m]).
Proof. reflexivity. Qed.

Lemma bind_run {A B : Type} (m : IO A) (k : A -> IO B) (w w' : world) (a : A) :
  m w = (Ok a, w') -> bind m k w = k a w'.
Proof. intro H. unfold bind. now rewrite H. Qed.

Lemma bind_raise {A B : Type} (m : IO A) (k : A -> IO B) (w w' : world) (e : exn) :
  m w = (Raise e, w') -> bind m k w = (Raise e, w').
Proof. intro H. unfold bind. now rewrite H. Qed.

Lemma bind_print {B : Type} (m : msg) (k : unit -> IO B) (w : world) :
  bind (print m) k w = k tt (printed w [m]).
Proof. reflexivity. Qed.

Lemma printed_printed (w : world) (l1 l2 : list msg) :
  printed (printed w l1) l2 = printed w (l1 ++ l2).
Proof. unfold printed. simpl. now rewrite <- app_assoc. Qed.

Lemma sf_write_run (path : string) (audio : Np.ndarray) (sr : Z) (w : world) :
  sf_write path audio sr w = (Ok tt, written w path audio sr).
Proof. reflexivity. Qed.

Lemma lookup_written (w : world) (path : string) (audio : Np.ndarray) (sr : Z) :
  lookup_file path (files (written w path audio sr)) = Some (Wav audio sr).
Proof. simpl. now rewrite String.eqb_refl. Qed.

End IOFacts.

(** ** The Sequence Assembler: the first half of the shared [main] *)

Module Assembly.

Import Demo NpFacts IOFacts.
Local Open Scope R_scope.

(** The empty list of segments is refused with [return 1]. *)
Lemma assemble_nil (w : world) :
  assemble [] w = (Ok (Return 1%Z), printed w [MsgConcatenating; MsgNoSegments]).
Proof.
  unfold assemble, bind. rewrite !print_run. simpl.
  now rewrite printed_printed.
Qed.

(** A non-empty list never takes that [return]. *)
Lemma assemble_cons_no_return (seg : segment) (rest : list segment) (w : world) (code : Z) :
  fst (assemble (seg :: rest) w) <> Ok (Return code).
Proof.
  destruct seg as [audio target_sr]. unfold assemble. rewrite bind_print.
  destruct (resample_all target_sr ((audio, target_sr) :: rest) []
              (printed w [MsgConcatenating])) as [[out | e] w'] eqn:E.
  - rewrite (bind_run _ _ _ _ _ E). simpl. discriminate.
  - rewrite (bind_raise _ _ _ _ _ E). simpl. discriminate.
Qed.

Lemma arange_length (n : nat) : length (Np.arange n) = n.
Proof. unfold Np.arange. now rewrite length_map, length_seq. Qed.

Lemma interp_ok (xs fp : Np.ndarray) :
  fp <> [] -> exists ys, Np.interp xs (Np.arange (length fp)) fp = Ok ys.
Proof.
  intro Hne. destruct fp as [|y0 fp']; [congruence|].
  pose proof (arange_length (length (y0 :: fp'))) as Hlen.
  destruct (Np.arange (length (y0 :: fp'))) as [|x0 xp'] eqn:E; [discriminate|].
  unfold Np.interp. simpl in Hlen. injection Hlen as Hlen.
  rewrite Hlen, Nat.eqb_refl. eauto.
Qed.

Lemma linspace_ok (start stop : R) (num : Z) :
  (0 <= num)%Z -> exists xs, Np.linspace start stop num = Ok xs.
Proof.
  intro H. unfold Np.linspace. destruct (num <? 0)%Z eqn:E; [lia | eauto].
Qed.

(** Resampling returns when the rates are positive and there is a sample
    to interpolate from. *)
Lemma resample_ok (target_sr sr : Z) (audio : Np.ndarray) (w : world) :
  (0 < target_sr)%Z -> (0 < sr)%Z -> (sr <> target_sr -> audio <> []) ->
  exists audio' w', resample target_sr audio sr w = (Ok audio', w').
Proof.
  intros Ht Hs Hne. unfold resample.
  destruct (sr =? target_sr)%Z eqn:E; simpl.
  - unfold ret. eauto.
  - apply Z.eqb_neq in E. specialize (Hne E).
    unfold bind, lift, py_div. rewrite print_run.
    replace (sr =? 0)%Z with false by (symmetry; apply Z.eqb_neq; lia).
    destruct (@linspace_ok 0 (INR (length audio))
                (int_div (Z.of_nat (length audio) * target_sr) sr)) as (xs & Hxs).
    { unfold int_div. apply Z.quot_pos; lia. }
    rewrite Hxs.
    destruct (@interp_ok xs audio Hne) as (ys & Hys). rewrite Hys. eauto.
Qed.

Lemma resample_all_ok (target_sr : Z) (segments : list segment)
  (concatenated : list Np.ndarray) (w : world) :
  resamplable target_sr segments ->
  exists out w', resample_all target_sr segments concatenated w = (Ok out, w').
Proof.
  intros [Ht Hall]. revert concatenated w.
  induction segments as [|[audio sr] rest IH]; intros concatenated w; simpl.
  - unfold ret. eauto.
  - inversion Hall as [|? ? [Hs Hne] Hrest]; subst. simpl in Hs, Hne.
    destruct (@resample_ok target_sr sr audio w Ht Hs Hne) as (audio' & w' & Hr).
    unfold bind. rewrite Hr. apply IH. assumption.
Qed.

(** Segments that already share the target rate are concatenated in
    order, untouched. *)
Lemma resample_all_same_rate (target_sr : Z) (segments : list segment)
  (concatenated : list Np.ndarray) (w : world) :
  Forall (fun seg : segment => snd seg = target_sr) segments ->
  resample_all target_sr segments concatenated w =
  (Ok (concatenated ++ map fst segments), w).
Proof.
  revert concatenated. induction segments as [|[audio sr] rest IH];
    intros concatenated Hall; simpl.
  - now rewrite app_nil_r.
  - inversion Hall as [|? ? Hs Hrest]; subst. simpl in *.
    unfold bind, resample. rewrite Z.eqb_refl. simpl. unfold ret.
    rewrite IH by assumption. now rewrite <- app_assoc.
Qed.

Lemma assemble_same_rate (audio : Np.ndarray) (target_sr : Z) (rest : list segment) (w : world) :
  Forall (fun seg : segment => snd seg = target_sr) rest ->
  assemble ((audio, target_sr) :: rest) w =
  (Ok (Fallthrough (Np.concatenate (audio :: map fst rest), target_sr)),
   printed w [MsgConcatenating]).
Proof.
  intro Hall. unfold assemble, bind. rewrite print_run.
  rewrite resample_all_same_rate by (constructor; [reflexivity | assumption]).
  reflexivity.
Qed.

(** C5 (amended).  Given an empty segment sequence the assembler fails:
    it reports that there is nothing to concatenate and returns exit
    code 1, and no buffer comes out.  A non-empty sequence never takes
    that exit, and it yields the assembled buffer at the first segment's
    rate whenever the rates are positive and every segment at another
    rate has at least one sample. *)
Theorem assemble_refuses_exactly_empty (segments : list segment) (w : world) :
  match segments with
  | [] =>
      assemble segments w =
      (Ok (Return 1%Z), printed w [MsgConcatenating; MsgNoSegments])
  | (_, target_sr) :: _ =>
      (forall code, fst (assemble segments w) <> Ok (Return code)) /\
      (resamplable target_sr segments ->
       exists final_audio,
         fst (assemble segments w) = Ok (Fallthrough (final_audio, target_sr)))
  end.
Proof.
  destruct segments as [|[audio target_sr] rest].
  - apply assemble_nil.
  - split.
    + intro code. apply assemble_cons_no_return.
    + intro Hr. unfold assemble. rewrite bind_print.
      destruct (@resample_all_ok target_sr ((audio, target_sr) :: rest) []
                  (printed w [MsgConcatenating]) Hr) as (out & w' & Hout).
      rewrite (bind_run _ _ _ _ _ Hout). simpl. eauto.
Qed.

Lemma assemble_refuses_exactly_empty_witness :
  exists final_audio,
    fst (assemble [([0.5], 22050%Z); ([0.25; 0.5], 16000%Z)] empty_world) =
    Ok (Fallthrough (final_audio, 22050%Z)).
Proof.
  apply (@assemble_refuses_exactly_empty
           [([0.5], 22050%Z); ([0.25; 0.5], 16000%Z)] empty_world).
  split; [reflexivity|].
  repeat constructor; simpl; discriminate.
Defined.

(** C5 as stated fails: a non-empty sequence whose second segment has no
    sample and another rate does not assemble; [np.interp] raises on the
    empty array of sample points. *)
Lemma assemble_nonempty_sequence_raises :
  [([0.5], 22050%Z); ([], 16000%Z)] <> [] /\
  assemble [([0.5], 22050%Z); ([], 16000%Z)] empty_world =
  (Raise (ValueError "array of sample points is empty"),
   printed empty_world [MsgConcatenating; MsgResampling 16000 22050]).
Proof.
  split; [discriminate | reflexivity].
Qed.

End Assembly.

(** ** The Program Validator: the second half of the shared [main] *)

Module Validation.

Import Demo NpFacts IOFacts.
Local Open Scope R_scope.

(** *** Peak limiting *)

Lemma peak_limit_silent (final_audio : Np.ndarray) :
  Np.max (Np.abs final_audio) = Ok 0 -> peak_limit final_audio = Ok final_audio.
Proof.
  intro Hm. unfold peak_limit. rewrite Hm. simpl.
  now rewrite gtb_false by lra.
Qed.

Lemma peak_limit_loud (final_audio : Np.ndarray) (max_val : R) :
  Np.max (Np.abs final_audio) = Ok max_val -> 0 < max_val ->
  peak_limit final_audio = Ok (Np.scale final_audio (0.9 / max_val)).
Proof.
  intros Hm Hpos. unfold peak_limit. rewrite Hm. simpl.
  now rewrite gtb_true by lra.
Qed.

Lemma scaled_sample (v m : R) : 0 < m -> Rabs (v * (0.9 / m)) = Rabs v * (0.9 / m).
Proof.
  intro Hm. rewrite Rabs_mult. f_equal. apply Rabs_pos_eq.
  apply Rmult_le_pos; [lra | left; now apply Rinv_0_lt_compat].
Qed.

(** After peak limiting no sample exceeds 0.9 in magnitude, and when
    the buffer is not all zero some sample has magnitude 0.9. *)
Lemma peak_limit_spec (final_audio : Np.ndarray) :
  final_audio <> [] ->
  exists limited,
    peak_limit final_audio = Ok limited /\
    length limited = length final_audio /\
    Forall (fun v => Rabs v <= 0.9) limited /\
    (Np.max (Np.abs final_audio) = Ok 0 -> limited = final_audio) /\
    (Np.max (Np.abs final_audio) <> Ok 0 -> exists u, In u limited /\ Rabs u = 0.9).
Proof.
  intro Hne.
  destruct (max_ok (Np.abs final_audio)) as (m & Hm).
  { intro H. apply abs_nil_inv in H. contradiction. }
  destruct (max_abs_spec _ _ Hm) as (Hm0 & (v0 & Hin0 & Hv0) & Hall).
  destruct (Req_dec m 0) as [-> | Hnz].
  - exists final_audio. rewrite (peak_limit_silent _ Hm).
    repeat split; try reflexivity.
    + eapply Forall_impl; [|exact Hall]. simpl. intros; lra.
    + intro H. rewrite Hm in H. congruence.
  - assert (Hpos : 0 < m) by lra.
    exists (Np.scale final_audio (0.9 / m)). rewrite (peak_limit_loud _ _ Hm Hpos).
    split; [reflexivity|]. split; [unfold Np.scale; apply length_map|].
    split; [|split].
    + unfold Np.scale. apply Forall_forall. intros u Hu.
      apply in_map_iff in Hu as (v & <- & Hv).
      rewrite Forall_forall in Hall. specialize (Hall v Hv).
      rewrite scaled_sample by assumption.
      replace 0.9 with (m * (0.9 / m)) at 2 by (field; lra).
      apply Rmult_le_compat_r; [|assumption].
      apply Rmult_le_pos; [lra | left; now apply Rinv_0_lt_compat].
    + intro H. rewrite Hm in H. injection H as H. contradiction.
    + intros _. exists (v0 * (0.9 / m)). split.
      * unfold Np.scale. apply in_map_iff. exists v0. now split.
      * rewrite scaled_sample by assumption. rewrite Hv0. field. lra.
Qed.

(** *** Trailing silence *)

Lemma slice_to_firstn {A : Type} (x : list A) (k : Z) :
  exists n, Np.slice_to x k = firstn n x.
Proof. unfold Np.slice_to. destruct (k <? 0)%Z; eauto. Qed.

Lemma Forall_firstn {A : Type} (P : A -> Prop) (n : nat) (x : list A) :
  Forall P x -> Forall P (firstn n x).
Proof.
  intro H. apply Forall_forall. intros v Hv.
  rewrite Forall_forall in H. apply H.
  rewrite <- (firstn_skipn n x). apply in_or_app. now left.
Qed.

Lemma trim_tail_silent (final_audio : Np.ndarray) (target_sr : Z) :
  Forall (fun v => Rabs v <= 1e-3) final_audio ->
  trim_tail final_audio target_sr = Ok final_audio.
Proof.
  intro Hs. unfold trim_tail.
  apply (Trim.where_nil_silent 0) in Hs. unfold loud in Hs. unfold Np.where_true.
  rewrite Hs. reflexivity.
Qed.

Lemma trim_tail_loud (final_audio : Np.ndarray) (target_sr : Z) :
  Np.where_true (loud 1e-3 final_audio) <> [] ->
  trim_tail final_audio target_sr =
  Ok (Np.slice_to final_audio
        (Z.of_nat (last (Np.where_true (loud 1e-3 final_audio)) 0%nat) +
         int_div target_sr 5)).
Proof.
  intro Hne. unfold trim_tail. fold (loud 1e-3 final_audio).
  destruct (Np.where_true (loud 1e-3 final_audio)) as [|i idx] eqn:E; [congruence|].
  replace (0 <? Z.of_nat (length (i :: idx)))%Z with true
    by (symmetry; apply Z.ltb_lt; simpl length; lia).
  rewrite Trim.last_item_ok by discriminate. reflexivity.
Qed.

(** The trimmed buffer is a prefix of its input. *)
Lemma trim_tail_prefix (final_audio : Np.ndarray) (target_sr : Z) :
  exists n, trim_tail final_audio target_sr = Ok (firstn n final_audio).
Proof.
  destruct (Np.where_true (loud 1e-3 final_audio)) as [|i idx] eqn:E.
  - exists (length final_audio). rewrite firstn_all.
    apply trim_tail_silent. now apply (Trim.where_nil_silent 0).
  - rewrite trim_tail_loud by (rewrite E; discriminate).
    destruct (slice_to_firstn final_audio
                (Z.of_nat (last (Np.where_true (loud 1e-3 final_audio)) 0%nat) +
                 int_div target_sr 5)) as (n & Hn).
    exists n. now rewrite Hn.
Qed.

Lemma trim_tail_nonempty (final_audio y : Np.ndarray) (target_sr : Z) :
  final_audio <> [] -> (5 <= target_sr)%Z ->
  trim_tail final_audio target_sr = Ok y -> y <> [].
Proof.
  intros Hne Hsr Hy.
  destruct (Np.where_true (loud 1e-3 final_audio)) as [|i idx] eqn:E.
  - rewrite trim_tail_silent in Hy by (now apply (Trim.where_nil_silent 0)).
    injection Hy as <-. assumption.
  - rewrite trim_tail_loud in Hy by (rewrite E; discriminate).
    injection Hy as <-.
    assert (HT : (1 <= int_div target_sr 5)%Z).
    { unfold int_div. apply Z.quot_le_lower_bound; lia. }
    rewrite Trim.slice_to_nonneg by lia.
    destruct final_audio as [|a l]; [congruence|].
    destruct (Z.to_nat (Z.of_nat (last (Np.where_true (loud 1e-3 (a :: l))) 0%nat) +
                        int_div target_sr 5)) as [|n] eqn:En; [lia|].
    simpl. discriminate.
Qed.

(** With a tail of at least one sample, a sample above the silence
    threshold survives the trimming. *)
Lemma trim_tail_keeps_loud (final_audio : Np.ndarray) (target_sr : Z) (u : R) :
  (5 <= target_sr)%Z -> In u final_audio -> 1e-3 < Rabs u ->
  exists y, trim_tail final_audio target_sr = Ok y /\ In u y.
Proof.
  intros Hsr Hin Hloud.
  assert (HT : (1 <= int_div target_sr 5)%Z).
  { unfold int_div. apply Z.quot_le_lower_bound; lia. }
  apply in_split in Hin as (l1 & l2 & ->).
  assert (Hidx : Np.where_true (loud 1e-3 (l1 ++ u :: l2)) =
                 Np.where_true (loud 1e-3 l1) ++
                 (length l1 :: Np.where_from (S (length l1)) (loud 1e-3 l2))).
  { unfold Np.where_true. rewrite Trim.loud_app, Trim.where_from_app, Trim.loud_length.
    simpl. now rewrite gtb_true by lra. }
  assert (Hne : Np.where_true (loud 1e-3 (l1 ++ u :: l2)) <> []).
  { rewrite Hidx. intro H. apply app_eq_nil in H as [_ H]. discriminate. }
  rewrite trim_tail_loud by assumption.
  set (L := last (Np.where_true (loud 1e-3 (l1 ++ u :: l2))) 0%nat).
  assert (HL : (length l1 <= L)%nat).
  { unfold L. rewrite Hidx, Trim.last_app_r by discriminate.
    pose proof (Trim.last_in (length l1 :: Np.where_from (S (length l1)) (loud 1e-3 l2))
                  0%nat ltac:(discriminate)) as Hin.
    destruct Hin as [<- | Hin]; [lia|].
    apply Trim.where_from_range in Hin. lia. }
  eexists. split; [reflexivity|].
  rewrite Trim.slice_to_nonneg by lia.
  rewrite firstn_app. apply in_or_app. right.
  destruct (Z.to_nat (Z.of_nat L + int_div target_sr 5) - length l1)%nat as [|n] eqn:En; [lia|].
  simpl. now left.
Qed.

(** *** Peak level *)

Lemma peak_level_eq (y : Np.ndarray) (m : R) :
  Np.max (Np.abs y) = Ok m -> peak_level y = Ok (20 * Np.log10 (m + 1e-9)).
Proof. intro H. unfold peak_level. now rewrite H. Qed.

Lemma peak_level_inv (y : Np.ndarray) (p : R) :
  peak_level y = Ok p ->
  exists m, Np.max (Np.abs y) = Ok m /\ p = 20 * Np.log10 (m + 1e-9).
Proof.
  unfold peak_level. destruct (Np.max (Np.abs y)) as [m | e]; simpl; [|discriminate].
  intro H. injection H as <-. eauto.
Qed.

(** A buffer bounded by 0.9 has a peak level of at most -0.5 dBFS. *)
Lemma peak_level_bound (y : Np.ndarray) (p : R) :
  Forall (fun v => Rabs v <= 0.9) y -> peak_level y = Ok p -> peak_ok p.
Proof.
  intros Hall Hp. apply peak_level_inv in Hp as (m & Hm & ->).
  destruct (max_abs_spec _ _ Hm) as (Hm0 & (v & Hin & Hv) & _).
  rewrite Forall_forall in Hall. specialize (Hall v Hin).
  apply Decibel.level_le_half_dB. lra.
Qed.

(** *** The checks *)

Lemma validate_pass (d p : R) (w : world) :
  duration_ok d -> peak_ok p -> validate d p w = (Ok 0%Z, printed w [MsgReady]).
Proof.
  unfold duration_ok, peak_ok, validate. intros [H1 H2] H3.
  rewrite !leb_true by assumption. simpl. now rewrite gtb_false by assumption.
Qed.

Lemma validate_duration_fail (d p : R) (w : world) :
  ~ duration_ok d -> validate d p w = (Ok 1%Z, printed w [MsgDurationWarning d]).
Proof.
  unfold duration_ok, validate. intro H.
  destruct (Rle_dec 27 d) as [H1 | H1]; [destruct (Rle_dec d 33) as [H2 | H2]|].
  - exfalso. apply H. now split.
  - rewrite leb_true by assumption. rewrite (leb_false d 33) by lra. reflexivity.
  - rewrite leb_false by lra. reflexivity.
Qed.

Lemma validate_peak_fail (d p : R) (w : world) :
  duration_ok d -> ~ peak_ok p -> validate d p w = (Ok 1%Z, printed w [MsgPeakWarning p]).
Proof.
  unfold duration_ok, peak_ok, validate. intros [H1 H2] H3.
  rewrite !leb_true by assumption. simpl. rewrite gtb_true by lra. reflexivity.
Qed.

Lemma duration_ok_dec (d : R) : {duration_ok d} + {~ duration_ok d}.
Proof.
  unfold duration_ok.
  destruct (Rle_dec 27 d); [destruct (Rle_dec d 33)|]; (left; lra) || (right; lra).
Qed.

Lemma peak_ok_dec (p : R) : {peak_ok p} + {~ peak_ok p}.
Proof. unfold peak_ok. apply Rle_dec. Qed.

(** *** Running [finalize] *)

(** The world in which the checks run: the file is already on disk. *)
Lemma finalize_run (final_audio limited y : Np.ndarray) (target_sr : Z) (d p : R) (w : world) :
  peak_limit final_audio = Ok limited ->
  trim_tail limited target_sr = Ok y ->
  py_div (Z.of_nat (length y)) target_sr = Ok d ->
  peak_level y = Ok p ->
  finalize final_audio target_sr w =
  validate d p
    (printed (written (printed w [MsgPostProcessing]) output_path y target_sr)
       [MsgGenerated output_path d p target_sr]).
Proof.
  intros H1 H2 H3 H4. unfold finalize. rewrite bind_print.
  unfold bind at 1. unfold lift at 1. rewrite H1.
  unfold bind at 1. unfold lift at 1. rewrite H2.
  unfold bind at 1. rewrite sf_write_run.
  unfold bind at 1. unfold lift at 1. rewrite H3.
  unfold bind at 1. unfold lift at 1. rewrite H4.
  rewrite bind_print. reflexivity.
Qed.

Lemma finalize_limit_raise (final_audio : Np.ndarray) (target_sr : Z) (e : exn) (w : world) :
  peak_limit final_audio = Raise e ->
  finalize final_audio target_sr w = (Raise e, printed w [MsgPostProcessing]).
Proof.
  intros H1. unfold finalize. rewrite bind_print.
  unfold bind at 1. unfold lift at 1. rewrite H1. reflexivity.
Qed.

Lemma finalize_duration_raise
  (final_audio limited y : Np.ndarray) (target_sr : Z) (e : exn) (w : world) :
  peak_limit final_audio = Ok limited ->
  trim_tail limited target_sr = Ok y ->
  py_div (Z.of_nat (length y)) target_sr = Raise e ->
  finalize final_audio target_sr w =
  (Raise e, written (printed w [MsgPostProcessing]) output_path y target_sr).
Proof.
  intros H1 H2 H3. unfold finalize. rewrite bind_print.
  unfold bind at 1. unfold lift at 1. rewrite H1.
  unfold bind at 1. unfold lift at 1. rewrite H2.
  unfold bind at 1. rewrite sf_write_run.
  unfold bind at 1. unfold lift at 1. rewrite H3. reflexivity.
Qed.

Lemma finalize_level_raise
  (final_audio limited y : Np.ndarray) (target_sr : Z) (d : R) (e : exn) (w : world) :
  peak_limit final_audio = Ok limited ->
  trim_tail limited target_sr = Ok y ->
  py_div (Z.of_nat (length y)) target_sr = Ok d ->
  peak_level y = Raise e ->
  finalize final_audio target_sr w =
  (Raise e, written (printed w [MsgPostProcessing]) output_path y target_sr).
Proof.
  intros H1 H2 H3 H4. unfold finalize. rewrite bind_print.
  unfold bind at 1. unfold lift at 1. rewrite H1.
  unfold bind at 1. unfold lift at 1. rewrite H2.
  unfold bind at 1. rewrite sf_write_run.
  unfold bind at 1. unfold lift at 1. rewrite H3.
  unfold bind at 1. unfold lift at 1. rewrite H4. reflexivity.
Qed.

Lemma py_div_ok (a b : Z) : b <> 0%Z -> py_div a b = Ok (IZR a / IZR b).
Proof.
  intro H. unfold py_div.
  now replace (b =? 0)%Z with false by (symmetry; now apply Z.eqb_neq).
Qed.

(** The stages of [finalize] on a non-empty buffer: peak limiting and
    trimming return, and the trimmed buffer is bounded by 0.9. *)
Lemma finalize_stages (final_audio : Np.ndarray) (target_sr : Z) :
  final_audio <> [] ->
  exists limited finalized,
    peak_limit final_audio = Ok limited /\
    trim_tail limited target_sr = Ok finalized /\
    limited <> [] /\
    Forall (fun v => Rabs v <= 0.9) finalized.
Proof.
  intro Hne.
  destruct (peak_limit_spec _ Hne) as (limited & Hl & Hlen & Hall & _).
  destruct (trim_tail_prefix limited target_sr) as (n & Hy).
  exists limited, (firstn n limited). repeat split; try assumption.
  - intros ->. destruct final_audio; [congruence | discriminate].
  - now apply Forall_firstn.
Qed.

(** C6 (amended).  For every non-empty assembled buffer, [finalize]
    writes the finalized buffer to the output file, and the file is
    there however the run ends.  Whenever [finalize] returns an exit
    code, the duration and peak checks have run after the write (in a
    world that already holds the file), and the code is 0 exactly when
    both criteria pass and 1 exactly when one of them fails.  At a
    sample rate of at least 5 Hz it does return an exit code. *)
Theorem finalize_writes_then_validates
  (final_audio : Np.ndarray) (target_sr : Z) (w : world) :
  final_audio <> [] ->
  exists finalized,
    lookup_file output_path (files (snd (finalize final_audio target_sr w))) =
    Some (Wav finalized target_sr) /\
    (forall code,
       fst (finalize final_audio target_sr w) = Ok code ->
       exists d p,
         py_div (Z.of_nat (length finalized)) target_sr = Ok d /\
         peak_level finalized = Ok p /\
         finalize final_audio target_sr w =
         validate d p
           (printed (written (printed w [MsgPostProcessing]) output_path finalized target_sr)
              [MsgGenerated output_path d p target_sr]) /\
         (code = 0%Z <-> duration_ok d /\ peak_ok p) /\
         (code = 1%Z <-> ~ (duration_ok d /\ peak_ok p))) /\
    ((5 <= target_sr)%Z ->
     exists code, fst (finalize final_audio target_sr w) = Ok code).
Proof.
  intros Hne.
  destruct (finalize_stages final_audio target_sr Hne)
    as (limited & y & Hl & Hy & Hlne & Hall).
  exists y.
  destruct (py_div (Z.of_nat (length y)) target_sr) as [d | e] eqn:Hd.
  - destruct (peak_level y) as [p | e] eqn:Hp.
    + pose proof (finalize_run _ _ _ _ _ _ w Hl Hy Hd Hp) as Hrun. rewrite Hrun.
      set (W := printed (written (printed w [MsgPostProcessing]) output_path y target_sr)
                  [MsgGenerated output_path d p target_sr]).
      assert (Hv : exists c W',
                 validate d p W = (Ok c, W') /\ files W' = files W /\
                 (c = 0%Z <-> duration_ok d /\ peak_ok p) /\
                 (c = 1%Z <-> ~ (duration_ok d /\ peak_ok p))).
      { destruct (duration_ok_dec d) as [Hdur | Hdur];
          [destruct (peak_ok_dec p) as [Hpk | Hpk]|].
        - exists 0%Z. eexists. split; [now apply validate_pass|].
          split; [reflexivity|].
          split; split; intro H; first [discriminate | reflexivity | tauto].
        - exists 1%Z. eexists. split; [now apply validate_peak_fail|].
          split; [reflexivity|].
          split; split; intro H; first [discriminate | reflexivity | tauto].
        - exists 1%Z. eexists. split; [now apply validate_duration_fail|].
          split; [reflexivity|].
          split; split; intro H; first [discriminate | reflexivity | tauto]. }
      destruct Hv as (c & W' & Hv & Hfiles & H0 & H1).
      split; [rewrite Hv; simpl; rewrite Hfiles; apply lookup_written|].
      split; [|intros _; exists c; now rewrite Hv].
      intros code Hc. rewrite Hv in Hc. injection Hc as <-.
      exists d, p. repeat (split; [reflexivity|]). now split.
    + rewrite (finalize_level_raise _ _ _ _ _ _ w Hl Hy Hd Hp). simpl.
      split; [reflexivity|]. split; [discriminate|].
      intro Hsr. exfalso.
      assert (Hyne : y <> []) by (eapply trim_tail_nonempty; eassumption).
      destruct (max_ok (Np.abs y)) as (m & Hm).
      { intro H. apply abs_nil_inv in H. contradiction. }
      rewrite (peak_level_eq _ _ Hm) in Hp. discriminate.
  - rewrite (finalize_duration_raise _ _ _ _ _ w Hl Hy Hd). simpl.
    split; [reflexivity|]. split; [discriminate|].
    intro Hsr. exfalso. rewrite py_div_ok in Hd by lia. discriminate.
Qed.

Lemma finalize_writes_then_validates_witness :
  exists finalized,
    lookup_file output_path (files (snd (finalize [0.5] 22050 empty_world))) =
    Some (Wav finalized 22050) /\
    (forall code,
       fst (finalize [0.5] 22050 empty_world) = Ok code ->
       exists d p,
         py_div (Z.of_nat (length finalized)) 22050 = Ok d /\
         peak_level finalized = Ok p /\
         finalize [0.5] 22050 empty_world =
         validate d p
           (printed (written (printed empty_world [MsgPostProcessing])
                       output_path finalized 22050)
              [MsgGenerated output_path d p 22050]) /\
         (code = 0%Z <-> duration_ok d /\ peak_ok p) /\
         (code = 1%Z <-> ~ (duration_ok d /\ peak_ok p))) /\
    ((5 <= 22050)%Z ->
     exists code, fst (finalize [0.5] 22050 empty_world) = Ok code).
Proof.
  apply (finalize_writes_then_validates [0.5] 22050 empty_world).
  discriminate.
Defined.

(** C6 as stated fails: when the assembled buffer is empty, [np.max]
    raises in the peak limiting and no file is written. *)
Lemma empty_assembly_writes_nothing :
  assemble_and_finalize [([], 22050%Z)] empty_world =
  (Raise (ValueError "zero-size array to reduction operation maximum which has no identity"),
   printed empty_world [MsgConcatenating; MsgPostProcessing]) /\
  lookup_file output_path (files (snd (assemble_and_finalize [([], 22050%Z)] empty_world))) =
  None.
Proof.
  split; reflexivity.
Qed.

(** C9 (amended).  For every non-empty assembled buffer, after the peak
    limiting and the trimming, a peak level that is computed is at most
    -0.5 dBFS: [finalize] never prints the peak warning, and when it
    returns 1 the duration is out of range.  The level is computed and
    is -180 dBFS when the buffer is all zero; for a buffer that is not
    silent, at a rate of at least 5 Hz (a tail of at least one sample),
    it is computed and lies between -0.92 and -0.91 dBFS. *)
Theorem peak_check_cannot_fail (final_audio : Np.ndarray) (target_sr : Z) (w : world) :
  final_audio <> [] ->
  exists limited finalized,
    peak_limit final_audio = Ok limited /\
    trim_tail limited target_sr = Ok finalized /\
    (forall p, peak_level finalized = Ok p -> peak_ok p) /\
    (exists lines,
       stdout (snd (finalize final_audio target_sr w)) = stdout w ++ lines /\
       forall p, ~ In (MsgPeakWarning p) lines) /\
    (fst (finalize final_audio target_sr w) = Ok 1%Z ->
     exists d, py_div (Z.of_nat (length finalized)) target_sr = Ok d /\ ~ duration_ok d) /\
    (Np.max (Np.abs final_audio) = Ok 0 -> peak_level finalized = Ok (-180)) /\
    (Np.max (Np.abs final_audio) <> Ok 0 -> (5 <= target_sr)%Z ->
     exists p, peak_level finalized = Ok p /\ -0.92 <= p <= -0.91).
Proof.
  intro Hne.
  destruct (peak_limit_spec _ Hne) as (limited & Hl & Hlen & Hall & Hzero & Hpeak).
  destruct (trim_tail_prefix limited target_sr) as (n & Hy).
  set (y := firstn n limited) in *.
  assert (Hally : Forall (fun v => Rabs v <= 0.9) y) by (now apply Forall_firstn).
  exists limited, y. split; [assumption|]. split; [assumption|].
  split; [intros p Hp; now apply (peak_level_bound y)|].
  split; [|split; [|split]].
  - (* what is printed *)
    destruct (py_div (Z.of_nat (length y)) target_sr) as [d | e] eqn:Hd.
    + destruct (peak_level y) as [p | e] eqn:Hp.
      * rewrite (finalize_run _ _ _ _ _ _ w Hl Hy Hd Hp).
        pose proof (peak_level_bound y p Hally Hp) as Hpk.
        destruct (duration_ok_dec d) as [Hdur | Hdur].
        -- rewrite validate_pass by assumption.
           exists [MsgPostProcessing; MsgGenerated output_path d p target_sr; MsgReady].
           split; [simpl; now rewrite <- !app_assoc|].
           intros q [H | [H | [H | []]]]; discriminate.
        -- rewrite validate_duration_fail by assumption.
           exists [MsgPostProcessing; MsgGenerated output_path d p target_sr;
                   MsgDurationWarning d].
           split; [simpl; now rewrite <- !app_assoc|].
           intros q [H | [H | [H | []]]]; discriminate.
      * rewrite (finalize_level_raise _ _ _ _ _ _ w Hl Hy Hd Hp).
        exists [MsgPostProcessing]. split; [reflexivity|].
        intros q [H | []]; discriminate.
    + rewrite (finalize_duration_raise _ _ _ _ _ w Hl Hy Hd).
      exists [MsgPostProcessing]. split; [reflexivity|].
      intros q [H | []]; discriminate.
  - (* exit code 1 *)
    destruct (py_div (Z.of_nat (length y)) target_sr) as [d | e] eqn:Hd.
    + destruct (peak_level y) as [p | e] eqn:Hp.
      * rewrite (finalize_run _ _ _ _ _ _ w Hl Hy Hd Hp).
        pose proof (peak_level_bound y p Hally Hp) as Hpk.
        destruct (duration_ok_dec d) as [Hdur | Hdur].
        -- rewrite validate_pass by assumption. simpl. discriminate.
        -- intros _. exists d. now split.
      * rewrite (finalize_level_raise _ _ _ _ _ _ w Hl Hy Hd Hp). simpl. discriminate.
    + rewrite (finalize_duration_raise _ _ _ _ _ w Hl Hy Hd). simpl. discriminate.
  - (* all zero *)
    intro Hz. specialize (Hzero Hz). subst limited.
    destruct (max_abs_spec _ _ Hz) as (_ & _ & Hall0).
    assert (Hs : Forall (fun v => Rabs v <= 1e-3) final_audio).
    { eapply Forall_impl; [|exact Hall0]. simpl. intros; lra. }
    rewrite (trim_tail_silent _ target_sr Hs) in Hy. injection Hy as Hy.
    rewrite <- Hy. rewrite (peak_level_eq _ _ Hz). f_equal.
    apply Decibel.level_of_silence.
  - (* not all zero *)
    intros Hnz Hsr. destruct (Hpeak Hnz) as (u & Hu & Hu9).
    destruct (trim_tail_keeps_loud limited target_sr u Hsr Hu ltac:(lra))
      as (y' & Hy' & Huy).
    rewrite Hy in Hy'. injection Hy' as <-.
    destruct (max_ok (Np.abs y)) as (m & Hm).
    { intro H. apply abs_nil_inv in H. rewrite H in Huy. contradiction. }
    exists (20 * Np.log10 (m + 1e-9)). split; [now apply peak_level_eq|].
    destruct (max_abs_spec _ _ Hm) as (Hm0 & (v & Hin & Hv) & _).
    assert (Hm9 : m = 0.9).
    { apply Rle_antisym.
      - rewrite <- Hv. rewrite Forall_forall in Hally. now apply Hally.
      - rewrite <- Hu9. apply (max_ge_elem _ _ _ Hm). unfold Np.abs. now apply in_map. }
    rewrite Hm9. apply Decibel.level_of_headroom.
Qed.

Lemma peak_check_cannot_fail_witness :
  exists limited finalized,
    peak_limit [0.5] = Ok limited /\
    trim_tail limited 22050 = Ok finalized /\
    (forall p, peak_level finalized = Ok p -> peak_ok p) /\
    (exists lines,
       stdout (snd (finalize [0.5] 22050 empty_world)) = stdout empty_world ++ lines /\
       forall p, ~ In (MsgPeakWarning p) lines) /\
    (fst (finalize [0.5] 22050 empty_world) = Ok 1%Z ->
     exists d, py_div (Z.of_nat (length finalized)) 22050 = Ok d /\ ~ duration_ok d) /\
    (Np.max (Np.abs [0.5]) = Ok 0 -> peak_level finalized = Ok (-180)) /\
    (Np.max (Np.abs [0.5]) <> Ok 0 -> (5 <= 22050)%Z ->
     exists p, peak_level finalized = Ok p /\ -0.92 <= p <= -0.91).
Proof.
  apply (peak_check_cannot_fail [0.5] 22050 empty_world).
  discriminate.
Defined.

(** Below 5 Hz the tail [int(0.2 * target_sr)] is 0 and the slice ends
    before the last loud sample.  At 4 Hz the buffer [[0.5; 1]] keeps
    its first sample only, and the level is below -6 dBFS, not near
    -0.915; the buffer [[1]] is cut to nothing, and [np.max] raises
    instead of computing a level. *)
Lemma low_rate_loses_the_peak :
  (exists limited finalized p,
     Np.max (Np.abs [0.5; 1]) = Ok 1 /\
     peak_limit [0.5; 1] = Ok limited /\
     trim_tail limited 4 = Ok finalized /\
     length finalized = 1%nat /\
     peak_level finalized = Ok p /\
     p <= -6) /\
  (exists limited,
     peak_limit [1] = Ok limited /\
     trim_tail limited 4 = Ok [] /\
     fst (finalize [1] 4 empty_world) =
     Raise (ValueError
              "zero-size array to reduction operation maximum which has no identity")).
Proof.
  split.
  - assert (Hmax : Np.max (Np.abs [0.5; 1]) = Ok 1).
    { simpl. rewrite (Rabs_pos_eq 0.5), Rabs_R1 by lra. f_equal. apply Rmax_right. lra. }
    pose proof (peak_limit_loud _ _ Hmax ltac:(lra)) as Hlim.
    cbn [Np.scale map] in Hlim.
    set (a := 0.5 * (0.9 / 1)) in *. set (b := 1 * (0.9 / 1)) in *.
    assert (Ha : a = 0.45) by (unfold a; lra).
    assert (Hb : b = 0.9) by (unfold b; lra).
    assert (Hw : Np.where_true (loud 1e-3 [a; b]) = [0%nat; 1%nat]).
    { unfold Np.where_true, loud, Np.gt, Np.abs. simpl.
      rewrite !gtb_true; [reflexivity | |]; rewrite ?Ha, ?Hb, Rabs_pos_eq; lra. }
    assert (Htrim : trim_tail [a; b] 4 = Ok [a]).
    { rewrite trim_tail_loud by (rewrite Hw; discriminate). now rewrite Hw. }
    assert (Hlev : peak_level [a] = Ok (20 * Np.log10 (Rabs a + 1e-9)))
      by (apply peak_level_eq; reflexivity).
    exists [a; b], [a], (20 * Np.log10 (Rabs a + 1e-9)).
    repeat (split; [assumption || reflexivity|]).
    rewrite Ha, Rabs_pos_eq by lra.
    replace (0.45 + 1e-9) with (IZR 450000001 / IZR 1000000000) by lra.
    pose proof (Decibel.log10_le (IZR 450000001 / IZR 1000000000) 10 3 ltac:(lra)
                  (Decibel.pow_ratio_le 450000001 1000000000 10 3 ltac:(lia)
                     ltac:(vm_compute; discriminate))) as H.
    simpl INR in H. lra.
  - assert (Hmax : Np.max (Np.abs [1]) = Ok 1) by (simpl; now rewrite Rabs_R1).
    pose proof (peak_limit_loud _ _ Hmax ltac:(lra)) as Hlim.
    cbn [Np.scale map] in Hlim.
    set (b := 1 * (0.9 / 1)) in *.
    assert (Hb : b = 0.9) by (unfold b; lra).
    assert (Hw : Np.where_true (loud 1e-3 [b]) = [0%nat]).
    { unfold Np.where_true, loud, Np.gt, Np.abs. simpl.
      rewrite gtb_true; [reflexivity|]. rewrite Hb, Rabs_pos_eq; lra. }
    assert (Htrim : trim_tail [b] 4 = Ok []).
    { rewrite trim_tail_loud by (rewrite Hw; discriminate). now rewrite Hw. }
    exists [b]. split; [exact Hlim|]. split; [exact Htrim|].
    rewrite (finalize_level_raise [1] [b] [] 4 (IZR 0 / IZR 4)
               (ValueError
                  "zero-size array to reduction operation maximum which has no identity")
               empty_world Hlim Htrim eq_refl eq_refl).
    reflexivity.
Qed.

End Validation.

(** ** The Segment Synthesizer Adapter: [synthesize_segment] *)

Module Fallback.

Import Engines NpFacts IOFacts.
Local Open Scope string_scope.

Lemma get_model_yor (engine : MMSTTSEngine.t) :
  MMSTTSEngine.is_language_supported engine "yor" = true ->
  MMSTTSEngine.get_model engine "yor" = Ok "facebook/mms-tts-yor".
Proof.
  intro H. unfold MMSTTSEngine.get_model. rewrite H. reflexivity.
Qed.

(** [synthesize_to_wav] for Yoruba, when the pipeline returns audio. *)
Lemma mms_synthesize_yor (M : models) (engine : MMSTTSEngine.t) (text : string)
  (audio : Np.ndarray) (reported : option Z) (w : world) :
  blank text = false ->
  MMSTTSEngine.is_language_supported engine "yor" = true ->
  hf_run M "facebook/mms-tts-yor" text = Ok (audio, reported) ->
  exists limited trimmed,
    _soft_limit audio TARGET_PEAK = Ok limited /\
    _trim_trailing_silence limited (rate_of reported) default_thresh default_max_ms
    = Ok trimmed /\
    MMSTTSEngine.synthesize_to_wav M engine text "yor" 22050 w =
    (Ok (tmp_name (tmp_count w)),
     written (World (stdout w) (files w) (S (tmp_count w)))
       (tmp_name (tmp_count w)) trimmed (rate_of reported)).
Proof.
  intros Hb Hs Hrun.
  destruct (SoftLimit.soft_limit_default_margin audio) as (limited & Hl & _).
  destruct (Trim.trim_returns limited (rate_of reported) default_thresh default_max_ms)
    as (trimmed & Ht).
  exists limited, trimmed. split; [assumption|]. split; [assumption|].
  unfold MMSTTSEngine.synthesize_to_wav. rewrite Hb, Hs.
  cbv beta iota delta [negb bind lift mkstemp].
  rewrite (get_model_yor _ Hs). cbv beta iota.
  rewrite Hrun. cbv beta iota delta [fst snd].
  rewrite Hl. fold (rate_of reported). rewrite Ht.
  reflexivity.
Qed.

Lemma read_and_clean_written (w : world) (path : string) (audio : Np.ndarray) (sr : Z) :
  SimpleDemo.read_and_clean path (written w path audio sr) =
  (Ok (audio, sr),
   World (stdout w) (remove_file path (remove_file path (files w))) (tmp_count w)).
Proof.
  unfold SimpleDemo.read_and_clean, bind, sf_read, try_except, unlink.
  rewrite lookup_written. simpl. rewrite String.eqb_refl. reflexivity.
Qed.

Lemma simple_segment_unfold (depth : nat) (M : models) (text language : string)
  (engine : MMSTTSEngine.t) (w : world) :
  SimpleDemo.synthesize_segment (S depth) M text language engine w =
  (if String.eqb language "en" then
     if negb (MMSTTSEngine.is_language_supported engine "yor")
     then raise (ValueError "No MMS models available for synthesis")
     else bind (MMSTTSEngine.synthesize_to_wav M engine text "yor" 22050)
            SimpleDemo.read_and_clean
   else
     if negb (MMSTTSEngine.is_language_supported engine language)
     then bind (print (MsgFallback language "Yoruba"))
            (fun _ => SimpleDemo.synthesize_segment depth M text "yor" engine)
     else bind (MMSTTSEngine.synthesize_to_wav M engine text language 22050)
            SimpleDemo.read_and_clean)
    (printed w [MsgSynthesizing language (substring 0 50 text)]).
Proof. reflexivity. Qed.

(** A direct request for Yoruba. *)
Lemma simple_segment_yor (depth : nat) (M : models) (engine : MMSTTSEngine.t)
  (text : string) (audio : Np.ndarray) (reported : option Z) (w : world) :
  blank text = false ->
  MMSTTSEngine.is_language_supported engine "yor" = true ->
  hf_run M "facebook/mms-tts-yor" text = Ok (audio, reported) ->
  exists limited trimmed,
    _soft_limit audio TARGET_PEAK = Ok limited /\
    _trim_trailing_silence limited (rate_of reported) default_thresh default_max_ms
    = Ok trimmed /\
    SimpleDemo.synthesize_segment (S depth) M text "yor" engine w =
    (Ok (trimmed, rate_of reported),
     after_temp (printed w [MsgSynthesizing "yor" (substring 0 50 text)])).
Proof.
  intros Hb Hs Hrun.
  destruct (mms_synthesize_yor M engine text audio reported
              (printed w [MsgSynthesizing "yor" (substring 0 50 text)]) Hb Hs Hrun)
    as (limited & trimmed & Hl & Ht & Hsyn).
  exists limited, trimmed. split; [assumption|]. split; [assumption|].
  rewrite simple_segment_unfold.
  change (String.eqb "yor" "en") with false. rewrite Hs.
  cbv beta iota delta [negb].
  rewrite (bind_run _ _ _ _ _ Hsyn).
  rewrite read_and_clean_written. reflexivity.
Qed.

(** A request for an unavailable language continues as a request for
    Yoruba, after the warning. *)
Lemma simple_segment_fallback (depth : nat) (M : models) (engine : MMSTTSEngine.t)
  (text language : string) (w : world) :
  language <> "en" ->
  MMSTTSEngine.is_language_supported engine language = false ->
  SimpleDemo.synthesize_segment (S depth) M text language engine w =
  SimpleDemo.synthesize_segment depth M text "yor" engine
    (printed w [MsgSynthesizing language (substring 0 50 text);
                MsgFallback language "Yoruba"]).
Proof.
  intros Hen Hs. rewrite simple_segment_unfold.
  apply String.eqb_neq in Hen. rewrite Hen, Hs.
  cbv beta iota delta [negb].
  rewrite bind_print. now rewrite printed_printed.
Qed.

(** C7 (amended).  In [simple_demo], for every segment whose requested
    language is not English and is unavailable, while Yoruba is
    available and its pipeline returns audio: [synthesize_segment]
    returns that audio, post-processed, with its rate; the pair it
    returns is the one a direct request for "yor" returns, and the
    fallback is recorded by the warning line on standard output. *)
Theorem fallback_synthesizes_yoruba (depth : nat) (M : models) (engine : MMSTTSEngine.t)
  (text language : string) (audio : Np.ndarray) (reported : option Z) (w : world) :
  language <> "en" ->
  MMSTTSEngine.is_language_supported engine language = false ->
  MMSTTSEngine.is_language_supported engine "yor" = true ->
  blank text = false ->
  hf_run M "facebook/mms-tts-yor" text = Ok (audio, reported) ->
  exists limited trimmed w',
    _soft_limit audio TARGET_PEAK = Ok limited /\
    _trim_trailing_silence limited (rate_of reported) default_thresh default_max_ms
    = Ok trimmed /\
    SimpleDemo.synthesize_segment (S (S depth)) M text language engine w =
    (Ok (trimmed, rate_of reported), w') /\
    stdout w' =
    (stdout w ++ [MsgSynthesizing language (substring 0 50 text);
                  MsgFallback language "Yoruba";
                  MsgSynthesizing "yor" (substring 0 50 text)])%list /\
    fst (SimpleDemo.synthesize_segment (S depth) M text "yor" engine w) =
    Ok (trimmed, rate_of reported).
Proof.
  intros Hen Hs Hyor Hb Hrun.
  rewrite simple_segment_fallback by assumption.
  destruct (simple_segment_yor depth M engine text audio reported
              (printed w [MsgSynthesizing language (substring 0 50 text);
                          MsgFallback language "Yoruba"]) Hb Hyor Hrun)
    as (limited & trimmed & Hl & Ht & Hfall).
  destruct (simple_segment_yor depth M engine text audio reported w Hb Hyor Hrun)
    as (limited' & trimmed' & Hl' & Ht' & Hdirect).
  assert (limited' = limited) by congruence. subst limited'.
  assert (trimmed' = trimmed) by congruence. subst trimmed'.
  exists limited, trimmed. eexists.
  split; [assumption|]. split; [assumption|]. split; [exact Hfall|].
  split; [|now rewrite Hdirect].
  simpl. now rewrite <- app_assoc.
Qed.

Lemma fallback_synthesizes_yoruba_witness :
  exists limited trimmed w',
    _soft_limit [(1 / 2)%R] TARGET_PEAK = Ok limited /\
    _trim_trailing_silence limited 16000 default_thresh default_max_ms = Ok trimmed /\
    SimpleDemo.synthesize_segment 2 yoruba_only "Sannu" "hau"
      (MMSTTSEngine.init yoruba_only) empty_world =
    (Ok (trimmed, 16000%Z), w') /\
    stdout w' =
    (stdout empty_world ++ [MsgSynthesizing "hau" (substring 0 50 "Sannu");
                            MsgFallback "hau" "Yoruba";
                            MsgSynthesizing "yor" (substring 0 50 "Sannu")])%list /\
    fst (SimpleDemo.synthesize_segment 1 yoruba_only "Sannu" "yor"
           (MMSTTSEngine.init yoruba_only) empty_world) =
    Ok (trimmed, 16000%Z).
Proof.
  apply (fallback_synthesizes_yoruba 0 yoruba_only (MMSTTSEngine.init yoruba_only)
           "Sannu" "hau" [(1 / 2)%R] (Some 16000%Z) empty_world).
  - discriminate.
  - reflexivity.
  - reflexivity.
  - reflexivity.
  - reflexivity.
Defined.

(** C7 as stated fails: the pair [synthesize_segment] returns has no
    language tag.  A request for the unavailable "hau" and a request for
    "yor" return the same pair, so nothing computed from the returned
    pair tells whether the fallback took place. *)
Lemma fallback_result_carries_no_tag :
  ~ exists tag : Np.ndarray * Z -> bool,
      forall language r w',
        SimpleDemo.synthesize_segment 2 yoruba_only "Sannu" language
          (MMSTTSEngine.init yoruba_only) empty_world = (Ok r, w') ->
        tag r = negb (MMSTTSEngine.is_language_supported
                        (MMSTTSEngine.init yoruba_only) language).
Proof.
  intros (tag & Htag).
  set (engine := MMSTTSEngine.init yoruba_only) in *.
  assert (Hhau : MMSTTSEngine.is_language_supported engine "hau" = false) by reflexivity.
  assert (Hyor : MMSTTSEngine.is_language_supported engine "yor" = true) by reflexivity.
  pose proof (simple_segment_fallback 1 yoruba_only engine "Sannu" "hau" empty_world
                ltac:(discriminate) Hhau) as Hfall.
  destruct (simple_segment_yor 0 yoruba_only engine "Sannu" [(1 / 2)%R] (Some 16000%Z)
              (printed empty_world [MsgSynthesizing "hau" (substring 0 50 "Sannu");
                                    MsgFallback "hau" "Yoruba"])
              eq_refl Hyor eq_refl)
    as (limited & trimmed & Hl & Ht & Hrun1).
  destruct (simple_segment_yor 1 yoruba_only engine "Sannu" [(1 / 2)%R] (Some 16000%Z)
              empty_world eq_refl Hyor eq_refl)
    as (limited' & trimmed' & Hl' & Ht' & Hrun2).
  assert (limited' = limited) by congruence. subst limited'.
  assert (trimmed' = trimmed) by congruence. subst trimmed'.
  rewrite <- Hfall in Hrun1.
  pose proof (Htag "hau" _ _ Hrun1) as H1.
  pose proof (Htag "yor" _ _ Hrun2) as H2.
  rewrite Hhau in H1. rewrite Hyor in H2. rewrite H1 in H2. discriminate.
Qed.

(** In [multilang_demo] the fallback language is English, not Yoruba. *)
Lemma multilang_segment_fallback (depth : nat) (M : models) (engine : MMSTTSEngine.t)
  (voice_files : list string) (text language : string) (w : world) :
  language <> "en" ->
  MMSTTSEngine.is_language_supported engine language = false ->
  MultilangDemo.synthesize_segment (S depth) M text language engine voice_files w =
  MultilangDemo.synthesize_segment depth M text "en" engine voice_files
    (printed w [MsgSynthesizing language (substring 0 50 text);
                MsgFallback language "English"]).
Proof.
  intros Hen Hs.
  change (MultilangDemo.synthesize_segment (S depth) M text language engine voice_files w)
    with ((if String.eqb language "en" then
             match voice_files with
             | [] => raise (ValueError "No voice files available for XTTS cloning")
             | _ :: _ =>
                 bind (XTTSEngine.synthesize_to_wav M text voice_files "en" 22050)
                   MultilangDemo.read_and_unlink
             end
           else
             if negb (MMSTTSEngine.is_language_supported engine language)
             then bind (print (MsgFallback language "English"))
                    (fun _ => MultilangDemo.synthesize_segment depth M text "en"
                                engine voice_files)
             else bind (MMSTTSEngine.synthesize_to_wav M engine text language 22050)
                    MultilangDemo.read_and_unlink)
            (printed w [MsgSynthesizing language (substring 0 50 text)])).
  apply String.eqb_neq in Hen. rewrite Hen, Hs.
  cbv beta iota delta [negb].
  rewrite bind_print. now rewrite printed_printed.
Qed.

(** When Yoruba itself is unavailable the fallback calls itself until the
    interpreter's recursion limit. *)
Lemma simple_fallback_unavailable (depth : nat) (M : models) (engine : MMSTTSEngine.t)
  (text : string) (w : world) :
  MMSTTSEngine.is_language_supported engine "yor" = false ->
  fst (SimpleDemo.synthesize_segment depth M text "yor" engine w) = Raise RecursionError.
Proof.
  intro Hs. revert w. induction depth as [|depth IH]; intro w; [reflexivity|].
  rewrite simple_segment_fallback by (assumption || discriminate). apply IH.
Qed.

End Fallback.

(* ================================================================== *)
(** * Further properties of the post-processing *)

Module PostProcessing.

Import Engines RealFacts NpFacts.
Local Open Scope R_scope.

Lemma tanh_pos (z : R) : 0 < z -> 0 < tanh z.
Proof.
  intro Hz. apply tanh_lt_iff.
  assert (H : exp 0 < exp (2 * z)) by (apply exp_increasing; lra).
  rewrite exp_0 in H. lra.
Qed.

Lemma tanh_neg (z : R) : z < 0 -> tanh z < 0.
Proof.
  intro Hz. replace z with (- - z) by ring. rewrite tanh_opp.
  pose proof (tanh_pos (- z) ltac:(lra)). lra.
Qed.

(** The scale factor of [_soft_limit] is positive for a positive target. *)
Lemma scale_factor_pos (max_abs target_peak : R) :
  0 < target_peak -> 0 < max_abs ->
  0 < (if Np.gtb max_abs target_peak then target_peak / max_abs else 1).
Proof.
  intros Ht Hm. destruct (Np.gtb max_abs target_peak); [|lra].
  apply Rmult_lt_0_compat; [assumption | now apply Rinv_0_lt_compat].
Qed.

(** X1.  With a positive target [_soft_limit] keeps the number of samples and
    the polarity of every sample. *)
Theorem soft_limit_keeps_length_and_polarity (x : Np.ndarray) (target_peak : R) :
  0 < target_peak ->
  exists y,
    _soft_limit x target_peak = Ok y /\
    length y = length x /\
    Forall2 (fun a b => (0 < a -> 0 < b) /\ (a < 0 -> b < 0) /\ (a = 0 -> b = 0)) x y.
Proof.
  intro Ht.
  destruct x as [|a l].
  { exists []. repeat split; constructor. }
  destruct (max_ok (Np.abs (a :: l))) as (m & Hm); [discriminate|].
  destruct (max_abs_spec _ _ Hm) as (Hm0 & _ & _).
  destruct (Rlt_dec m 1e-9) as [Hs | Hs].
  - rewrite (SoftLimit.soft_limit_silent _ target_peak _ Hm Hs).
    eexists. split; [reflexivity|]. split; [reflexivity|].
    generalize (a :: l). intro x. induction x; constructor; [tauto | assumption].
  - assert (Hge : 1e-9 <= m) by lra.
    rewrite (SoftLimit.soft_limit_loud _ target_peak _ Hm Hge).
    pose proof (scale_factor_pos m target_peak Ht ltac:(lra)) as Hc.
    set (c := if Np.gtb m target_peak then target_peak / m else 1) in *.
    eexists. split; [reflexivity|]. split; [apply length_map|].
    generalize (a :: l). intro x. induction x as [|v x IH]; simpl; constructor; [|assumption].
    repeat split.
    + intro Hv. apply tanh_pos. apply Rmult_lt_0_compat; [|lra].
      now apply Rmult_lt_0_compat.
    + intro Hv. apply tanh_neg.
      assert (0 < (- v) * c * 1.1).
      { apply Rmult_lt_0_compat; [|lra]. apply Rmult_lt_0_compat; lra. }
      lra.
    + intros ->. rewrite !Rmult_0_l. apply tanh_0.
Qed.

Lemma soft_limit_keeps_length_and_polarity_witness :
  exists y,
    _soft_limit [0.5; -2; 0] TARGET_PEAK = Ok y /\
    length y = length [0.5; -2; 0] /\
    Forall2 (fun a b => (0 < a -> 0 < b) /\ (a < 0 -> b < 0) /\ (a = 0 -> b = 0))
      [0.5; -2; 0] y.
Proof.
  apply (soft_limit_keeps_length_and_polarity [0.5; -2; 0] TARGET_PEAK).
  pose proof Decibel.TARGET_PEAK_bounds. lra.
Defined.

(** The peak of a buffer multiplied by a positive gain. *)
Lemma max_abs_scale (x : Np.ndarray) (m c : R) :
  0 < c -> Np.max (Np.abs x) = Ok m ->
  Np.max (Np.abs (Np.scale x c)) = Ok (m * c).
Proof.
  intros Hc Hm.
  destruct (max_abs_spec _ _ Hm) as (Hm0 & (v0 & Hin0 & Hv0) & Hall).
  destruct (max_ok (Np.abs (Np.scale x c))) as (m' & Hm').
  { intro H. apply abs_nil_inv in H. apply map_eq_nil in H. subst x. contradiction. }
  rewrite Hm'. f_equal. apply Rle_antisym.
  - apply (max_le_bound _ _ _ Hm'). unfold Np.abs, Np.scale. rewrite map_map.
    apply Forall_forall. intros u Hu. apply in_map_iff in Hu as (v & <- & Hv).
    rewrite Rabs_mult, (Rabs_pos_eq c) by lra.
    apply Rmult_le_compat_r; [lra|].
    rewrite Forall_forall in Hall. now apply Hall.
  - apply (max_ge_elem _ _ _ Hm'). unfold Np.abs, Np.scale. rewrite map_map.
    apply in_map_iff. exists v0. split; [|assumption].
    rewrite Rabs_mult, (Rabs_pos_eq c), Hv0 by lra. reflexivity.
Qed.

(** X2.  Above the target the output does not depend on the input gain: a
    buffer and a louder or quieter copy of it, both with their peak above
    the target, are limited to the same buffer. *)
Theorem soft_limit_gain_invariant (x : Np.ndarray) (target_peak max_abs gain : R) :
  Np.max (Np.abs x) = Ok max_abs ->
  1e-9 <= target_peak ->
  0 < gain ->
  target_peak < max_abs ->
  target_peak < max_abs * gain ->
  _soft_limit (Np.scale x gain) target_peak = _soft_limit x target_peak.
Proof.
  intros Hm Ht Hg H1 H2.
  pose proof (max_abs_scale x max_abs gain Hg Hm) as Hm'.
  rewrite (SoftLimit.soft_limit_loud _ target_peak _ Hm ltac:(lra)).
  rewrite (SoftLimit.soft_limit_loud _ target_peak _ Hm' ltac:(lra)).
  rewrite !gtb_true by lra.
  unfold Np.scale. rewrite map_map. f_equal.
  apply map_ext. intro v. f_equal. field. lra.
Qed.

Lemma soft_limit_gain_invariant_witness :
  _soft_limit (Np.scale [1; -0.5] 3) 0.5 = _soft_limit [1; -0.5] 0.5.
Proof.
  apply (soft_limit_gain_invariant [1; -0.5] 0.5 1 3).
  - simpl. rewrite Rabs_R1. rewrite (Rabs_left (-0.5)) by lra.
    unfold Rmax. destruct (Rle_dec 1 (- -0.5)); [lra | reflexivity].
  - lra.
  - lra.
  - lra.
  - lra.
Defined.

Lemma trim_is_firstn (x : Np.ndarray) (sr : Z) (thresh : R) (max_ms : Z) :
  exists n, _trim_trailing_silence x sr thresh max_ms = Ok (firstn n x).
Proof.
  destruct x as [|a x']; [exists 0%nat; reflexivity|].
  destruct (Np.where_true (loud thresh (a :: x'))) as [|i idx] eqn:E.
  - rewrite Trim.trim_silent_eq;
      [| discriminate | now apply (Trim.where_nil_silent 0)].
    destruct (Validation.slice_to_firstn (a :: x') (tail_samples sr max_ms)) as (n & ->).
    eauto.
  - rewrite Trim.trim_loud_eq by (rewrite E; discriminate).
    match goal with
    | |- context [Np.slice_to ?b ?k] =>
        destruct (Validation.slice_to_firstn b k) as (n & ->)
    end.
    eauto.
Qed.

(** X3.  The trimmer returns a prefix of its input, whatever the parameters:
    it never lengthens a buffer and never changes a sample it keeps. *)
Theorem trim_returns_prefix (x : Np.ndarray) (sr : Z) (thresh : R) (max_ms : Z) :
  exists y rest,
    _trim_trailing_silence x sr thresh max_ms = Ok y /\
    x = y ++ rest /\
    (length y <= length x)%nat.
Proof.
  destruct (trim_is_firstn x sr thresh max_ms) as (n & Hn).
  exists (firstn n x), (skipn n x).
  split; [assumption|]. split; [symmetry; apply firstn_skipn|].
  rewrite length_firstn. lia.
Qed.

(** What both engines do to the audio of a model before writing it:
    the default limiter, then the default trimmer. *)
Lemma default_post_processing (audio : Np.ndarray) (sr : Z) :
  exists limited n,
    _soft_limit audio TARGET_PEAK = Ok limited /\
    _trim_trailing_silence limited sr default_thresh default_max_ms
    = Ok (firstn n limited) /\
    length limited = length audio /\
    Forall (fun v => Rabs v <= 0.8) limited.
Proof.
  destruct (SoftLimit.soft_limit_default_margin audio) as (limited & Hl & Hall).
  destruct (trim_is_firstn limited sr default_thresh default_max_ms) as (n & Hn).
  exists limited, n. repeat split; try assumption.
  destruct audio as [|a l]; [simpl in Hl; now injection Hl as <-|].
  destruct (max_ok (Np.abs (a :: l))) as (m & Hm); [discriminate|].
  destruct (Rlt_dec m 1e-9) as [Hs | Hs].
  - rewrite (SoftLimit.soft_limit_silent _ TARGET_PEAK _ Hm Hs) in Hl.
    now injection Hl as <-.
  - rewrite (SoftLimit.soft_limit_loud _ TARGET_PEAK _ Hm ltac:(lra)) in Hl.
    injection Hl as <-. simpl. now rewrite length_map.
Qed.

(** Everything after the last sample above the threshold is silent. *)
Lemma silent_after_last_loud (x : Np.ndarray) (thresh : R) (k : nat) :
  Np.where_true (loud thresh x) <> [] ->
  (last (Np.where_true (loud thresh x)) 0 < k)%nat ->
  Forall (fun v => Rabs v <= thresh) (skipn k x).
Proof.
  intros Hne Hk.
  apply (Trim.where_nil_silent (length (firstn k x))).
  destruct (Np.where_from (length (firstn k x)) (loud thresh (skipn k x)))
    as [|j js] eqn:E; [reflexivity|]. exfalso.
  assert (Hsplit : Np.where_true (loud thresh x) =
                   Np.where_true (loud thresh (firstn k x)) ++ (j :: js)).
  { rewrite <- (firstn_skipn k x) at 1.
    rewrite Trim.loud_app. unfold Np.where_true. rewrite Trim.where_from_app.
    rewrite Trim.loud_length. simpl. now rewrite E. }
  assert (Hin : In (last (Np.where_true (loud thresh x)) 0%nat) (j :: js)).
  { rewrite Hsplit at 1. rewrite Trim.last_app_r by discriminate.
    apply Trim.last_in. discriminate. }
  rewrite <- E in Hin. apply Trim.where_from_range in Hin.
  assert (Hr : In (last (Np.where_true (loud thresh x)) 0%nat)
                 (Np.where_true (loud thresh x))) by (now apply Trim.last_in).
  apply Trim.where_from_range in Hr. rewrite Trim.loud_length in Hr.
  rewrite length_firstn in Hin. lia.
Qed.

(** X4.  With a tail of at least one sample the trimmer removes silence only:
    what it cuts off has no sample above the threshold, the last loud
    sample stays, and fewer than [tail] samples follow it. *)
Theorem trim_removes_only_silence (x : Np.ndarray) (sr : Z) (thresh : R) (max_ms : Z) :
  (1 <= tail_samples sr max_ms)%Z ->
  exists y rest,
    _trim_trailing_silence x sr thresh max_ms = Ok y /\
    x = y ++ rest /\
    Forall (fun v => Rabs v <= thresh) rest /\
    (forall last_loud,
       Np.last_item (Np.where_true (loud thresh x)) = Ok last_loud ->
       (last_loud < length y)%nat /\
       (Z.of_nat (length y) <= Z.of_nat last_loud + tail_samples sr max_ms)%Z).
Proof.
  intro HT.
  destruct x as [|a x'].
  { exists [], []. repeat split; try constructor; simpl in *; discriminate. }
  set (x := a :: x') in *.
  assert (Hdec : Np.where_true (loud thresh x) = [] \/ Np.where_true (loud thresh x) <> []).
  { destruct (Np.where_true (loud thresh x)); [now left | right; discriminate]. }
  destruct Hdec as [E | Hne].
  - assert (Hs : Forall (fun v => Rabs v <= thresh) x)
      by (now apply (Trim.where_nil_silent 0)).
    rewrite Trim.trim_silent_eq by (assumption || discriminate).
    rewrite Trim.slice_to_nonneg by lia.
    set (n := Z.to_nat (tail_samples sr max_ms)).
    exists (firstn n x), (skipn n x).
    split; [reflexivity|]. split; [symmetry; apply firstn_skipn|].
    split; [|intros L HL; rewrite E in HL; discriminate].
    apply Forall_forall. intros v Hv. rewrite Forall_forall in Hs. apply Hs.
    rewrite <- (firstn_skipn n x). apply in_or_app. now right.
  - rewrite Trim.trim_loud_eq by assumption.
    set (L := last (Np.where_true (loud thresh x)) 0%nat).
    assert (HL : (L < length x)%nat).
    { pose proof (Trim.last_in (Np.where_true (loud thresh x)) 0%nat Hne) as Hin.
      apply Trim.where_from_range in Hin.
      rewrite Trim.loud_length in Hin. fold L in Hin. lia. }
    set (keep := Z.min (Np.size x) (Z.of_nat L + tail_samples sr max_ms)).
    assert (Hkeep : (Z.of_nat L + 1 <= keep <= Z.of_nat (length x))%Z)
      by (unfold keep, Np.size; lia).
    rewrite Trim.slice_to_nonneg by lia.
    exists (firstn (Z.to_nat keep) x), (skipn (Z.to_nat keep) x).
    split; [reflexivity|]. split; [symmetry; apply firstn_skipn|]. split.
    + apply silent_after_last_loud; [assumption|]. fold L. lia.
    + intros L' HL'. rewrite Trim.last_item_ok in HL' by assumption.
      injection HL' as <-. fold L. rewrite length_firstn. unfold keep, Np.size. lia.
Qed.

Lemma trim_removes_only_silence_witness :
  exists y rest,
    _trim_trailing_silence [0.5; 0; 0; 0] 10 default_thresh default_max_ms = Ok y /\
    [0.5; 0; 0; 0] = y ++ rest /\
    Forall (fun v => Rabs v <= default_thresh) rest /\
    (forall last_loud,
       Np.last_item (Np.where_true (loud default_thresh [0.5; 0; 0; 0])) = Ok last_loud ->
       (last_loud < length y)%nat /\
       (Z.of_nat (length y) <= Z.of_nat last_loud + tail_samples 10 default_max_ms)%Z).
Proof.
  apply (trim_removes_only_silence [0.5; 0; 0; 0] 10 default_thresh default_max_ms).
  vm_compute. discriminate.
Defined.

End PostProcessing.

(* ================================================================== *)
(** * The engines *)

Module EngineFacts.

Import Engines NpFacts IOFacts.
Local Open Scope string_scope.

Lemma exists_eqb_in (language : string) (l : list string) :
  existsb (String.eqb language) l = true <-> In language l.
Proof.
  rewrite existsb_exists. split.
  - intros (y & Hy & Heq). apply String.eqb_eq in Heq. now subst.
  - intro H. exists language. split; [assumption | apply String.eqb_refl].
Qed.

Lemma model_map_keys_distinct : NoDup (map fst MMSTTSEngine.MODEL_MAP).
Proof.
  unfold MMSTTSEngine.MODEL_MAP. simpl.
  repeat constructor; simpl; intuition discriminate.
Qed.

(** Detection over any table with distinct keys. *)
Lemma detected_iff (loads : string -> bool) (table : list (string * string))
  (language : string) :
  NoDup (map fst table) ->
  In language (map fst (filter (fun entry => loads (snd entry)) table)) <->
  exists name, MMSTTSEngine.model_name language table = Some name /\ loads name = true.
Proof.
  induction table as [|[l n] table IH]; intro Hnd; simpl.
  - split; [contradiction | intros (name & H & _); discriminate].
  - inversion Hnd as [|? ? Hnotin Hnd']; subst. specialize (IH Hnd').
    destruct (String.eqb l language) eqn:E.
    + apply String.eqb_eq in E. subst l.
      destruct (loads n) eqn:Hl; simpl.
      * split; [intros _; eauto | intros _; now left].
      * split.
        -- intro Hin. exfalso. apply Hnotin.
           apply in_map_iff in Hin as ((l', n') & Hfst & Hin).
           apply filter_In in Hin as [Hin _]. simpl in Hfst. subst l'.
           apply in_map_iff. exists (language, n'). now split.
        -- intros (name & Hname & Hloads). injection Hname as <-. congruence.
    + apply String.eqb_neq in E.
      destruct (loads n) eqn:Hl; simpl.
      * rewrite <- IH. split; [intros [H | H]; [contradiction | assumption] | now right].
      * exact IH.
Qed.

Lemma init_supported_iff (M : models) (language : string) :
  MMSTTSEngine.is_language_supported (MMSTTSEngine.init M) language = true <->
  In language (map fst (filter (fun entry => hf_loads M (snd entry))
                          MMSTTSEngine.MODEL_MAP)).
Proof.
  cbv beta iota delta [MMSTTSEngine.is_language_supported MMSTTSEngine.init
                         MMSTTSEngine._detect_available_models
                         MMSTTSEngine._available_languages].
  apply exists_eqb_in.
Qed.

(** X5.  After [__init__] a language is supported exactly when [MODEL_MAP]
    names a model for it and that model's pipeline loaded. *)
Theorem supported_exactly_when_model_loads (M : models) (language : string) :
  MMSTTSEngine.is_language_supported (MMSTTSEngine.init M) language = true <->
  exists name,
    MMSTTSEngine.model_name language MMSTTSEngine.MODEL_MAP = Some name /\
    hf_loads M name = true.
Proof.
  rewrite init_supported_iff. apply detected_iff. apply model_map_keys_distinct.
Qed.

(** X6.  On an engine built by [__init__], [get_model] returns the name of a
    model that loaded when the language is supported and raises
    [ValueError] otherwise; the table lookup never misses. *)
Theorem get_model_of_detected_engine (M : models) (language : string) :
  match MMSTTSEngine.get_model (MMSTTSEngine.init M) language with
  | Ok name =>
      MMSTTSEngine.is_language_supported (MMSTTSEngine.init M) language = true /\
      MMSTTSEngine.model_name language MMSTTSEngine.MODEL_MAP = Some name /\
      hf_loads M name = true
  | Raise e =>
      MMSTTSEngine.is_language_supported (MMSTTSEngine.init M) language = false /\
      e = ValueError "Language not supported by available MMS models"
  end.
Proof.
  unfold MMSTTSEngine.get_model.
  destruct (MMSTTSEngine.is_language_supported (MMSTTSEngine.init M) language) eqn:Hs.
  - apply init_supported_iff in Hs.
    apply (detected_iff _ _ _ model_map_keys_distinct) in Hs as (name & Hname & Hl).
    simpl negb. cbv iota. rewrite Hname. now repeat split.
  - simpl. now split.
Qed.

(** *** Files *)

Lemma lookup_remove_other (p q : string) (fs : list (string * wav)) :
  p <> q -> lookup_file p (remove_file q fs) = lookup_file p fs.
Proof.
  intro Hpq. induction fs as [|[r f] fs IH]; simpl; [reflexivity|].
  destruct (String.eqb r q) eqn:Erq; simpl.
  - apply String.eqb_eq in Erq. subst r.
    replace (String.eqb q p) with false
      by (symmetry; apply String.eqb_neq; congruence).
    assumption.
  - destruct (String.eqb r p); [reflexivity | assumption].
Qed.

Lemma lookup_written_other (w : world) (p q : string) (audio : Np.ndarray) (sr : Z) :
  p <> q -> lookup_file p (files (written w q audio sr)) = lookup_file p (files w).
Proof.
  intro Hpq. simpl.
  replace (String.eqb q p) with false by (symmetry; apply String.eqb_neq; congruence).
  now apply lookup_remove_other.
Qed.

Lemma remove_absent (p : string) (fs : list (string * wav)) :
  lookup_file p fs = None -> remove_file p fs = fs.
Proof.
  induction fs as [|[r f] fs IH]; simpl; [reflexivity|].
  destruct (String.eqb r p); [discriminate|]. intro H. now rewrite IH.
Qed.

Lemma lookup_removed (p : string) (fs : list (string * wav)) :
  lookup_file p (remove_file p fs) = None.
Proof.
  induction fs as [|[r f] fs IH]; simpl; [reflexivity|].
  destruct (String.eqb r p) eqn:E; simpl; [assumption|]. now rewrite E.
Qed.

(** *** [MMSTTSEngine.synthesize_to_wav] *)

(** The two ways a call ends: an exception that leaves the sound files
    alone, or the temporary file holding the post-processed audio. *)
Lemma mms_synthesize_cases (M : models) (self : MMSTTSEngine.t)
  (text language : string) (sample_rate : Z) (w : world) :
  (exists e c,
     MMSTTSEngine.synthesize_to_wav M self text language sample_rate w =
     (Raise e, World (stdout w) (files w) c)) \/
  (exists name audio reported limited n,
     blank text = false /\
     MMSTTSEngine.is_language_supported self language = true /\
     MMSTTSEngine.get_model self language = Ok name /\
     hf_run M name text = Ok (audio, reported) /\
     _soft_limit audio TARGET_PEAK = Ok limited /\
     length limited = length audio /\
     Forall (fun v => (Rabs v <= 0.8)%R) limited /\
     MMSTTSEngine.synthesize_to_wav M self text language sample_rate w =
     (Ok (tmp_name (tmp_count w)),
      written (World (stdout w) (files w) (S (tmp_count w)))
        (tmp_name (tmp_count w)) (firstn n limited)
        (match reported with Some r => r | None => sample_rate end))).
Proof.
  unfold MMSTTSEngine.synthesize_to_wav.
  destruct (blank text) eqn:Hb.
  { left. exists (ValueError "text is required"), (tmp_count w). now destruct w. }
  destruct (MMSTTSEngine.is_language_supported self language) eqn:Hs.
  2:{ left. exists (ValueError "Language not supported by MMS-TTS"), (tmp_count w).
      now destruct w. }
  cbv beta iota delta [negb bind lift mkstemp].
  destruct (MMSTTSEngine.get_model self language) as [name | e] eqn:Hg.
  2:{ left. eauto. }
  destruct (hf_run M name text) as [[audio reported] | e] eqn:Hrun.
  2:{ left. eauto. }
  cbv beta iota delta [fst snd].
  destruct (PostProcessing.default_post_processing audio
              (match reported with Some r => r | None => sample_rate end))
    as (limited & n & Hl & Ht & Hlen & Hall).
  right. exists name, audio, reported, limited, n.
  repeat (split; [assumption || reflexivity|]).
  rewrite Hl, Ht. reflexivity.
Qed.

(** X7.  A call of [synthesize_to_wav] that returns has put the audio of the
    language's model, limited and trimmed, in a temporary file: every
    sample at most 0.8 in magnitude, no more samples than the model gave,
    at the rate the model reported or else the requested one; no other
    file is touched.  A call that raises changes no sound file. *)
Theorem mms_synthesize_to_wav_outcome (M : models) (self : MMSTTSEngine.t)
  (text language : string) (sample_rate : Z) (w : world) :
  match MMSTTSEngine.synthesize_to_wav M self text language sample_rate w with
  | (Ok path, w') =>
      exists name audio reported out,
        blank text = false /\
        MMSTTSEngine.is_language_supported self language = true /\
        MMSTTSEngine.get_model self language = Ok name /\
        hf_run M name text = Ok (audio, reported) /\
        lookup_file path (files w') =
        Some (Wav out (match reported with Some r => r | None => sample_rate end)) /\
        Forall (fun v => (Rabs v <= 0.8)%R) out /\
        (length out <= length audio)%nat /\
        (forall p, p <> path -> lookup_file p (files w') = lookup_file p (files w))
  | (Raise e, w') => files w' = files w
  end.
Proof.
  destruct (mms_synthesize_cases M self text language sample_rate w)
    as [(e & c & ->) | (name & audio & reported & limited & n &
                        Hb & Hs & Hg & Hrun & Hl & Hlen & Hall & ->)].
  - reflexivity.
  - exists name, audio, reported, (firstn n limited).
    repeat (split; [assumption|]).
    split; [apply lookup_written|].
    split; [now apply Validation.Forall_firstn|].
    split; [rewrite length_firstn; lia|].
    intros p Hp. rewrite lookup_written_other by assumption. reflexivity.
Qed.

(** *** [XTTSEngine.synthesize_to_wav] *)

Lemma check_speakers_run (speaker_wavs : list string) (w : world) :
  XTTSEngine.check_speakers speaker_wavs w =
  if forallb (fun p => match lookup_file p (files w) with
                       | Some _ => true
                       | None => false
                       end) speaker_wavs
  then (Ok tt, w)
  else (Raise FileNotFoundError, w).
Proof.
  induction speaker_wavs as [|p rest IH]; simpl; [reflexivity|].
  unfold bind, path_exists.
  destruct (lookup_file p (files w)); simpl; [exact IH | reflexivity].
Qed.

Lemma xtts_synthesize_cases (M : models) (text : string) (speaker_wavs : list string)
  (language : string) (sample_rate : Z) (w : world) :
  (exists e c,
     XTTSEngine.synthesize_to_wav M text speaker_wavs language sample_rate w =
     (Raise e, World (stdout w) (files w) c)) \/
  (exists speaker0 others f limited n,
     blank text = false /\
     speaker_wavs = speaker0 :: others /\
     (forall p, In p speaker_wavs -> lookup_file p (files w) <> None) /\
     xtts_run M text speaker0 language sample_rate = Ok f /\
     _soft_limit (wav_audio f) TARGET_PEAK = Ok limited /\
     length limited = length (wav_audio f) /\
     Forall (fun v => (Rabs v <= 0.8)%R) limited /\
     XTTSEngine.synthesize_to_wav M text speaker_wavs language sample_rate w =
     (Ok (tmp_name (tmp_count w)),
      written
        (written (World (stdout w) (files w) (S (tmp_count w)))
           (tmp_name (tmp_count w)) (wav_audio f) (wav_sr f))
        (tmp_name (tmp_count w)) (firstn n limited) (wav_sr f))).
Proof.
  unfold XTTSEngine.synthesize_to_wav.
  destruct (blank text) eqn:Hb.
  { left. exists (ValueError "text is required"), (tmp_count w). now destruct w. }
  destruct speaker_wavs as [|speaker0 others].
  { left. exists (ValueError "speaker_wavs must contain at least one WAV file"),
      (tmp_count w). now destruct w. }
  cbv beta iota delta [bind lift mkstemp]. rewrite !check_speakers_run.
  destruct (forallb _ (speaker0 :: others)) eqn:Hall.
  2:{ left. exists FileNotFoundError, (tmp_count w). now destruct w. }
  cbv beta iota.
  destruct (xtts_run M text speaker0 language sample_rate) as [[faudio fsr] | e] eqn:Hrun.
  2:{ left. eauto. }
  cbv beta iota delta [sf_write sf_read wav_audio wav_sr]. simpl lookup_file.
  rewrite !String.eqb_refl. cbv beta iota delta [fst snd wav_audio wav_sr].
  destruct (PostProcessing.default_post_processing faudio fsr)
    as (limited & n & Hl & Ht & Hlen & Hbound).
  right. exists speaker0, others, (Wav faudio fsr), limited, n.
  split; [reflexivity|]. split; [reflexivity|]. split.
  { intros p Hp Hnone. rewrite forallb_forall in Hall. specialize (Hall p Hp).
    rewrite Hnone in Hall. discriminate. }
  split; [assumption|].
  simpl wav_audio. simpl wav_sr.
  repeat (split; [assumption|]).
  rewrite Hl, Ht. reflexivity.
Qed.

(** X8.  A call of the XTTS [synthesize_to_wav] that returns had a text that
    is not blank and speaker files that all exist; it cloned from the
    first of them only, and the temporary file holds that audio limited
    and trimmed, every sample at most 0.8 in magnitude.  A call that
    raises (blank text, no speaker, a missing speaker file, a failing
    model) changes no sound file. *)
Theorem xtts_synthesize_to_wav_outcome (M : models) (text : string)
  (speaker_wavs : list string) (language : string) (sample_rate : Z) (w : world) :
  match XTTSEngine.synthesize_to_wav M text speaker_wavs language sample_rate w with
  | (Ok path, w') =>
      exists speaker0 others f out,
        blank text = false /\
        speaker_wavs = speaker0 :: others /\
        (forall p, In p speaker_wavs -> lookup_file p (files w) <> None) /\
        xtts_run M text speaker0 language sample_rate = Ok f /\
        lookup_file path (files w') = Some (Wav out (wav_sr f)) /\
        Forall (fun v => (Rabs v <= 0.8)%R) out /\
        (length out <= length (wav_audio f))%nat /\
        (forall p, p <> path -> lookup_file p (files w') = lookup_file p (files w))
  | (Raise e, w') => files w' = files w
  end.
Proof.
  destruct (xtts_synthesize_cases M text speaker_wavs language sample_rate w)
    as [(e & c & ->) | (speaker0 & others & f & limited & n &
                        Hb & Hsp & Hex & Hrun & Hl & Hlen & Hall & ->)].
  - reflexivity.
  - exists speaker0, others, f, (firstn n limited).
    repeat (split; [assumption|]).
    split; [apply lookup_written|].
    split; [now apply Validation.Forall_firstn|].
    split; [rewrite length_firstn; lia|].
    intros p Hp. rewrite !lookup_written_other by assumption. reflexivity.
Qed.

End EngineFacts.

(* ================================================================== *)
(** * What was printed does not matter *)

Module LogBlind.

Import IOFacts.

Lemma same_disk_refl (w : world) : same_disk w w.
Proof. now split. Qed.

Lemma same_disk_printed (w1 w2 : world) (l1 l2 : list msg) :
  same_disk w1 w2 -> same_disk (printed w1 l1) (printed w2 l2).
Proof. intros [H1 H2]. now split. Qed.

Lemma log_blind_ret {A : Type} (a : A) : log_blind (ret a).
Proof. intros w1 w2 H. now split. Qed.

Lemma log_blind_raise {A : Type} (e : exn) : log_blind (@raise A e).
Proof. intros w1 w2 H. now split. Qed.

Lemma log_blind_lift {A : Type} (r : result A) : log_blind (lift r).
Proof. intros w1 w2 H. now split. Qed.

Lemma log_blind_print (m : msg) : log_blind (print m).
Proof. intros w1 w2 [H1 H2]. split; [reflexivity | now split]. Qed.

Lemma log_blind_mkstemp : log_blind mkstemp.
Proof.
  intros w1 w2 [H1 H2]. unfold mkstemp. simpl. rewrite H2.
  split; [reflexivity|]. split; simpl; congruence.
Qed.

Lemma log_blind_sf_write (path : string) (audio : Np.ndarray) (sr : Z) :
  log_blind (sf_write path audio sr).
Proof.
  intros w1 w2 [H1 H2]. unfold sf_write. simpl.
  split; [reflexivity|]. split; simpl; congruence.
Qed.

Lemma log_blind_sf_read (path : string) : log_blind (sf_read path).
Proof.
  intros w1 w2 [H1 H2]. unfold sf_read. rewrite H1.
  destruct (lookup_file path (files w2)); simpl; split; try reflexivity; now split.
Qed.

Lemma log_blind_unlink (path : string) : log_blind (unlink path).
Proof.
  intros w1 w2 [H1 H2]. unfold unlink. rewrite H1.
  destruct (lookup_file path (files w2)); simpl; split; try reflexivity;
    split; simpl; congruence.
Qed.

Lemma log_blind_path_exists (path : string) : log_blind (path_exists path).
Proof.
  intros w1 w2 [H1 H2]. unfold path_exists. rewrite H1. simpl.
  split; [reflexivity | now split].
Qed.

Lemma log_blind_bind {A B : Type} (m : IO A) (k : A -> IO B) :
  log_blind m -> (forall a, log_blind (k a)) -> log_blind (bind m k).
Proof.
  intros Hm Hk w1 w2 H. unfold bind.
  destruct (Hm w1 w2 H) as [Hfst Hdisk].
  destruct (m w1) as [[a1 | e1] w1'], (m w2) as [[a2 | e2] w2']; simpl in *;
    try discriminate.
  - injection Hfst as <-. now apply Hk.
  - injection Hfst as <-. now split.
Qed.

Lemma log_blind_try_except {A : Type} (m : IO A) (h : exn -> IO A) :
  log_blind m -> (forall e, log_blind (h e)) -> log_blind (try_except m h).
Proof.
  intros Hm Hh w1 w2 H. unfold try_except.
  destruct (Hm w1 w2 H) as [Hfst Hdisk].
  destruct (m w1) as [[a1 | e1] w1'], (m w2) as [[a2 | e2] w2']; simpl in *;
    try discriminate.
  - injection Hfst as <-. now split.
  - injection Hfst as <-. now apply Hh.
Qed.

Ltac blind :=
  repeat first
    [ apply log_blind_ret | apply log_blind_raise | apply log_blind_lift
    | apply log_blind_print | apply log_blind_mkstemp | apply log_blind_sf_write
    | apply log_blind_sf_read | apply log_blind_unlink | apply log_blind_path_exists
    | apply log_blind_bind; [| intro]
    | apply log_blind_try_except; [| intro] ].

Lemma log_blind_mms_synthesize (M : models) (self : MMSTTSEngine.t)
  (text language : string) (sample_rate : Z) :
  log_blind (MMSTTSEngine.synthesize_to_wav M self text language sample_rate).
Proof.
  unfold MMSTTSEngine.synthesize_to_wav.
  destruct (blank text); [blind|].
  destruct (negb (MMSTTSEngine.is_language_supported self language)); blind.
Qed.

Lemma log_blind_check_speakers (speaker_wavs : list string) :
  log_blind (XTTSEngine.check_speakers speaker_wavs).
Proof.
  induction speaker_wavs as [|p rest IH]; simpl; [blind|].
  apply log_blind_bind; [blind|]. intros [|]; [assumption | blind].
Qed.

Lemma log_blind_xtts_synthesize (M : models) (text : string) (speaker_wavs : list string)
  (language : string) (sample_rate : Z) :
  log_blind (XTTSEngine.synthesize_to_wav M text speaker_wavs language sample_rate).
Proof.
  unfold XTTSEngine.synthesize_to_wav.
  destruct (blank text); [blind|].
  destruct speaker_wavs as [|speaker0 others]; [blind|].
  apply log_blind_bind; [apply log_blind_check_speakers|]. intro. blind.
Qed.

Lemma log_blind_read_and_clean (path : string) :
  log_blind (SimpleDemo.read_and_clean path).
Proof. unfold SimpleDemo.read_and_clean. blind. Qed.

Lemma log_blind_read_and_unlink (path : string) :
  log_blind (MultilangDemo.read_and_unlink path).
Proof. unfold MultilangDemo.read_and_unlink. blind. Qed.

Lemma log_blind_simple_segment (depth : nat) (M : models) (text language : string)
  (engine : MMSTTSEngine.t) :
  log_blind (SimpleDemo.synthesize_segment depth M text language engine).
Proof.
  revert language. induction depth as [|depth IH]; intro language; simpl; [blind|].
  apply log_blind_bind; [blind|]. intros _.
  destruct (String.eqb language "en").
  - destruct (negb (MMSTTSEngine.is_language_supported engine "yor")); [blind|].
    apply log_blind_bind; [apply log_blind_mms_synthesize|].
    intro. apply log_blind_read_and_clean.
  - destruct (negb (MMSTTSEngine.is_language_supported engine language)).
    + apply log_blind_bind; [blind|]. intros _. apply IH.
    + apply log_blind_bind; [apply log_blind_mms_synthesize|].
      intro. apply log_blind_read_and_clean.
Qed.

Lemma log_blind_multilang_segment (depth : nat) (M : models) (text language : string)
  (engine : MMSTTSEngine.t) (voice_files : list string) :
  log_blind (MultilangDemo.synthesize_segment depth M text language engine voice_files).
Proof.
  revert language. induction depth as [|depth IH]; intro language; simpl; [blind|].
  apply log_blind_bind; [blind|]. intros _.
  destruct (String.eqb language "en").
  - destruct voice_files as [|v vs]; [blind|].
    apply log_blind_bind; [apply log_blind_xtts_synthesize|].
    intro. apply log_blind_read_and_unlink.
  - destruct (negb (MMSTTSEngine.is_language_supported engine language)).
    + apply log_blind_bind; [blind|]. intros _. apply IH.
    + apply log_blind_bind; [apply log_blind_mms_synthesize|].
      intro. apply log_blind_read_and_unlink.
Qed.

End LogBlind.

(* ================================================================== *)
(** * The segment synthesizers of the two demo scripts *)

Module Segments.

Import Engines IOFacts LogBlind EngineFacts.
Local Open Scope string_scope.

Lemma fresh_temp_printed (w : world) (lines : list msg) :
  fresh_temp w -> fresh_temp (printed w lines).
Proof. exact (fun H => H). Qed.

(** [synthesize_to_wav] followed by reading the file back and deleting
    it, as [simple_demo] does. *)
Lemma synth_then_clean (M : models) (engine : MMSTTSEngine.t) (text language : string)
  (w : world) :
  fresh_temp w ->
  (exists e c,
     bind (MMSTTSEngine.synthesize_to_wav M engine text language 22050)
       SimpleDemo.read_and_clean w = (Raise e, World (stdout w) (files w) c)) \/
  (exists name audio reported limited n,
     MMSTTSEngine.is_language_supported engine language = true /\
     MMSTTSEngine.get_model engine language = Ok name /\
     hf_run M name text = Ok (audio, reported) /\
     length limited = length audio /\
     Forall (fun v => (Rabs v <= 0.8)%R) limited /\
     bind (MMSTTSEngine.synthesize_to_wav M engine text language 22050)
       SimpleDemo.read_and_clean w =
     (Ok (firstn n limited, rate_of reported),
      World (stdout w) (files w) (S (tmp_count w)))).
Proof.
  intro Hfresh.
  destruct (mms_synthesize_cases M engine text language 22050 w)
    as [(e & c & H) | (name & audio & reported & limited & n &
                       Hb & Hs & Hg & Hrun & Hl & Hlen & Hall & H)].
  - left. exists e, c. now rewrite (bind_raise _ _ _ _ _ H).
  - right. exists name, audio, reported, limited, n.
    repeat (split; [assumption|]).
    rewrite (bind_run _ _ _ _ _ H), Fallback.read_and_clean_written.
    simpl. unfold fresh_temp in Hfresh. now rewrite !(remove_absent _ _ Hfresh).
Qed.

(** The same with [multilang_demo]'s unconditional [unlink]. *)
Lemma read_and_unlink_written (w : world) (path : string) (audio : Np.ndarray) (sr : Z) :
  MultilangDemo.read_and_unlink path (written w path audio sr) =
  (Ok (audio, sr),
   World (stdout w) (remove_file path (remove_file path (files w))) (tmp_count w)).
Proof.
  unfold MultilangDemo.read_and_unlink, bind, sf_read, unlink.
  rewrite lookup_written. simpl. rewrite String.eqb_refl. reflexivity.
Qed.

Lemma mms_then_unlink (M : models) (engine : MMSTTSEngine.t) (text language : string)
  (w : world) :
  fresh_temp w ->
  (exists e c,
     bind (MMSTTSEngine.synthesize_to_wav M engine text language 22050)
       MultilangDemo.read_and_unlink w = (Raise e, World (stdout w) (files w) c)) \/
  (exists name audio reported limited n,
     MMSTTSEngine.is_language_supported engine language = true /\
     MMSTTSEngine.get_model engine language = Ok name /\
     hf_run M name text = Ok (audio, reported) /\
     length limited = length audio /\
     Forall (fun v => (Rabs v <= 0.8)%R) limited /\
     bind (MMSTTSEngine.synthesize_to_wav M engine text language 22050)
       MultilangDemo.read_and_unlink w =
     (Ok (firstn n limited, rate_of reported),
      World (stdout w) (files w) (S (tmp_count w)))).
Proof.
  intro Hfresh.
  destruct (mms_synthesize_cases M engine text language 22050 w)
    as [(e & c & H) | (name & audio & reported & limited & n &
                       Hb & Hs & Hg & Hrun & Hl & Hlen & Hall & H)].
  - left. exists e, c. now rewrite (bind_raise _ _ _ _ _ H).
  - right. exists name, audio, reported, limited, n.
    repeat (split; [assumption|]).
    rewrite (bind_run _ _ _ _ _ H), read_and_unlink_written.
    simpl. unfold fresh_temp in Hfresh. now rewrite !(remove_absent _ _ Hfresh).
Qed.

Lemma xtts_then_unlink (M : models) (text : string) (voice_files : list string)
  (w : world) :
  fresh_temp w ->
  (exists e c,
     bind (XTTSEngine.synthesize_to_wav M text voice_files "en" 22050)
       MultilangDemo.read_and_unlink w = (Raise e, World (stdout w) (files w) c)) \/
  (exists speaker0 others f limited n,
     voice_files = speaker0 :: others /\
     xtts_run M text speaker0 "en" 22050 = Ok f /\
     length limited = length (wav_audio f) /\
     Forall (fun v => (Rabs v <= 0.8)%R) limited /\
     bind (XTTSEngine.synthesize_to_wav M text voice_files "en" 22050)
       MultilangDemo.read_and_unlink w =
     (Ok (firstn n limited, wav_sr f),
      World (stdout w) (files w) (S (tmp_count w)))).
Proof.
  intro Hfresh.
  destruct (xtts_synthesize_cases M text voice_files "en" 22050 w)
    as [(e & c & H) | (speaker0 & others & f & limited & n &
                       Hb & Hsp & Hex & Hrun & Hl & Hlen & Hall & H)].
  - left. exists e, c. now rewrite (bind_raise _ _ _ _ _ H).
  - right. exists speaker0, others, f, limited, n.
    repeat (split; [assumption|]).
    rewrite (bind_run _ _ _ _ _ H), read_and_unlink_written.
    simpl. rewrite String.eqb_refl.
    unfold fresh_temp in Hfresh. now rewrite !(remove_absent _ _ Hfresh).
Qed.

Lemma multilang_segment_unfold (depth : nat) (M : models) (text language : string)
  (engine : MMSTTSEngine.t) (voice_files : list string) (w : world) :
  MultilangDemo.synthesize_segment (S depth) M text language engine voice_files w =
  (if String.eqb language "en" then
     match voice_files with
     | [] => raise (ValueError "No voice files available for XTTS cloning")
     | _ :: _ =>
         bind (XTTSEngine.synthesize_to_wav M text voice_files "en" 22050)
           MultilangDemo.read_and_unlink
     end
   else
     if negb (MMSTTSEngine.is_language_supported engine language)
     then bind (print (MsgFallback language "English"))
            (fun _ => MultilangDemo.synthesize_segment depth M text "en"
                        engine voice_files)
     else bind (MMSTTSEngine.synthesize_to_wav M engine text language 22050)
            MultilangDemo.read_and_unlink)
    (printed w [MsgSynthesizing language (substring 0 50 text)]).
Proof. reflexivity. Qed.

(** The ways a call of [simple_demo]'s [synthesize_segment] ends. *)
Lemma simple_segment_cases (depth : nat) (M : models) (engine : MMSTTSEngine.t)
  (text language : string) (w : world) :
  fresh_temp w ->
  (exists e w',
     SimpleDemo.synthesize_segment depth M text language engine w = (Raise e, w') /\
     files w' = files w) \/
  (exists name audio reported limited n w',
     MMSTTSEngine.get_model engine (simple_voice engine language) = Ok name /\
     hf_run M name text = Ok (audio, reported) /\
     length limited = length audio /\
     Forall (fun v => (Rabs v <= 0.8)%R) limited /\
     SimpleDemo.synthesize_segment depth M text language engine w =
     (Ok (firstn n limited, rate_of reported), w') /\
     files w' = files w /\ tmp_count w' = S (tmp_count w)).
Proof.
  revert language w. induction depth as [|depth IH]; intros language w Hfresh.
  { left. exists RecursionError, w. now split. }
  rewrite Fallback.simple_segment_unfold. unfold simple_voice.
  set (w1 := printed w [MsgSynthesizing language (substring 0 50 text)]).
  assert (Hfresh1 : fresh_temp w1) by exact Hfresh.
  destruct (String.eqb language "en") eqn:Hen.
  - destruct (MMSTTSEngine.is_language_supported engine "yor") eqn:Hyor;
      cbv beta iota delta [negb orb].
    + destruct (synth_then_clean M engine text "yor" w1 Hfresh1)
        as [(e & c & H) | (name & audio & reported & limited & n &
                           Hs & Hg & Hrun & Hlen & Hall & H)].
      * left. eexists _, _. split; [exact H | reflexivity].
      * right. exists name, audio, reported, limited, n. eexists.
        repeat (split; [eassumption|]). now split.
    + left. eexists _, _. split; reflexivity.
  - destruct (MMSTTSEngine.is_language_supported engine language) eqn:Hs;
      cbv beta iota delta [negb orb].
    + destruct (synth_then_clean M engine text language w1 Hfresh1)
        as [(e & c & H) | (name & audio & reported & limited & n &
                           Hs' & Hg & Hrun & Hlen & Hall & H)].
      * left. eexists _, _. split; [exact H | reflexivity].
      * right. exists name, audio, reported, limited, n. eexists.
        repeat (split; [eassumption|]). now split.
    + rewrite bind_print.
      destruct (IH "yor" (printed w1 [MsgFallback language "Yoruba"]) Hfresh1)
        as [(e & w' & H & Hf) | (name & audio & reported & limited & n & w' &
                                 Hg & Hrun & Hlen & Hall & H & Hf & Hc)].
      * left. exists e, w'. now split.
      * right. exists name, audio, reported, limited, n, w'.
        assert (Hg' : MMSTTSEngine.get_model engine "yor" = Ok name).
        { unfold simple_voice in Hg.
          now destruct (String.eqb "yor" "en" ||
                        negb (MMSTTSEngine.is_language_supported engine "yor"))%bool. }
        repeat (split; [assumption|]). exact Hc.
Qed.

(** The ways a call of [multilang_demo]'s [synthesize_segment] ends: an
    exception, audio of the language's own MMS model, or audio cloned by
    XTTS in English from the first voice file. *)
Lemma multilang_segment_cases (depth : nat) (M : models) (engine : MMSTTSEngine.t)
  (voice_files : list string) (text language : string) (w : world) :
  fresh_temp w ->
  (exists e w',
     MultilangDemo.synthesize_segment depth M text language engine voice_files w =
     (Raise e, w') /\ files w' = files w) \/
  (exists out sr w',
     MultilangDemo.synthesize_segment depth M text language engine voice_files w =
     (Ok (out, sr), w') /\
     files w' = files w /\ tmp_count w' = S (tmp_count w) /\
     Forall (fun v => (Rabs v <= 0.8)%R) out /\
     ((exists name audio reported,
         language <> "en" /\
         MMSTTSEngine.get_model engine language = Ok name /\
         hf_run M name text = Ok (audio, reported) /\
         (length out <= length audio)%nat /\ sr = rate_of reported) \/
      (exists speaker0 others f,
         (language = "en" \/ MMSTTSEngine.is_language_supported engine language = false) /\
         voice_files = speaker0 :: others /\
         xtts_run M text speaker0 "en" 22050 = Ok f /\
         (length out <= length (wav_audio f))%nat /\ sr = wav_sr f))).
Proof.
  revert language w. induction depth as [|depth IH]; intros language w Hfresh.
  { left. exists RecursionError, w. now split. }
  rewrite multilang_segment_unfold.
  set (w1 := printed w [MsgSynthesizing language (substring 0 50 text)]).
  assert (Hfresh1 : fresh_temp w1) by exact Hfresh.
  destruct (String.eqb language "en") eqn:Hen.
  - destruct voice_files as [|v vs] eqn:Hvf.
    { left. eexists _, _. split; reflexivity. }
    rewrite <- Hvf.
    destruct (xtts_then_unlink M text voice_files w1 Hfresh1)
      as [(e & c & H) | (speaker0 & others & f & limited & n &
                         Hsp & Hrun & Hlen & Hall & H)].
    + left. eexists _, _. split; [exact H | reflexivity].
    + right. eexists _, _, _. split; [exact H|].
      split; [reflexivity|]. split; [reflexivity|].
      split; [now apply Validation.Forall_firstn|].
      right. exists speaker0, others, f.
      split; [left; now apply String.eqb_eq|].
      repeat (split; [assumption|]).
      split; [rewrite length_firstn; lia | reflexivity].
  - destruct (MMSTTSEngine.is_language_supported engine language) eqn:Hs;
      cbv beta iota delta [negb orb].
    + destruct (mms_then_unlink M engine text language w1 Hfresh1)
        as [(e & c & H) | (name & audio & reported & limited & n &
                           Hs' & Hg & Hrun & Hlen & Hall & H)].
      * left. eexists _, _. split; [exact H | reflexivity].
      * right. eexists _, _, _. split; [exact H|].
        split; [reflexivity|]. split; [reflexivity|].
        split; [now apply Validation.Forall_firstn|].
        left. exists name, audio, reported.
        split; [now apply String.eqb_neq|].
        repeat (split; [assumption|]).
        split; [rewrite length_firstn; lia | reflexivity].
    + rewrite bind_print.
      destruct (IH "en" (printed w1 [MsgFallback language "English"]) Hfresh1)
        as [(e & w' & H & Hf) | (out & sr & w' & H & Hf & Hc & Hall &
                                 [(name & audio & reported & Hne & _) |
                                  (speaker0 & others & f & _ & Hrest)])].
      * left. exists e, w'. now split.
      * now contradiction Hne.
      * right. exists out, sr, w'. repeat (split; [assumption|]).
        right. exists speaker0, others, f. split; [now right | exact Hrest].
Qed.

(** A direct request for Yoruba in [multilang_demo]. *)
Lemma multilang_segment_yor (depth : nat) (M : models) (engine : MMSTTSEngine.t)
  (voice_files : list string) (text : string) (audio : Np.ndarray)
  (reported : option Z) (w : world) :
  blank text = false ->
  MMSTTSEngine.is_language_supported engine "yor" = true ->
  hf_run M "facebook/mms-tts-yor" text = Ok (audio, reported) ->
  exists limited trimmed,
    _soft_limit audio TARGET_PEAK = Ok limited /\
    _trim_trailing_silence limited (rate_of reported) default_thresh default_max_ms
    = Ok trimmed /\
    MultilangDemo.synthesize_segment (S depth) M text "yor" engine voice_files w =
    (Ok (trimmed, rate_of reported),
     after_temp (printed w [MsgSynthesizing "yor" (substring 0 50 text)])).
Proof.
  intros Hb Hs Hrun.
  destruct (Fallback.mms_synthesize_yor M engine text audio reported
              (printed w [MsgSynthesizing "yor" (substring 0 50 text)]) Hb Hs Hrun)
    as (limited & trimmed & Hl & Ht & Hsyn).
  exists limited, trimmed. split; [assumption|]. split; [assumption|].
  rewrite multilang_segment_unfold.
  change (String.eqb "yor" "en") with false. rewrite Hs.
  cbv beta iota delta [negb].
  rewrite (bind_run _ _ _ _ _ Hsyn).
  rewrite read_and_unlink_written. reflexivity.
Qed.

(** X9.  [simple_demo] speaks an English line with the Yoruba model: a request
    for "en" gives what the same request for "yor" gives, and without a
    Yoruba model it is refused. *)
Theorem simple_english_uses_yoruba_model (depth : nat) (M : models)
  (engine : MMSTTSEngine.t) (text : string) (w : world) :
  fst (SimpleDemo.synthesize_segment (S depth) M text "en" engine w) =
  if MMSTTSEngine.is_language_supported engine "yor"
  then fst (SimpleDemo.synthesize_segment (S depth) M text "yor" engine w)
  else Raise (ValueError "No MMS models available for synthesis").
Proof.
  rewrite !Fallback.simple_segment_unfold.
  change (String.eqb "en" "en") with true.
  change (String.eqb "yor" "en") with false. cbv iota.
  destruct (MMSTTSEngine.is_language_supported engine "yor"); simpl negb; cbv iota;
    [|reflexivity].
  apply (log_blind_bind _ _ (log_blind_mms_synthesize M engine text "yor" 22050)
           log_blind_read_and_clean).
  apply same_disk_printed, same_disk_refl.
Qed.

(** X10.  Without a Yoruba model, a segment of [simple_demo] in a language that
    has no model yields no audio, whatever the recursion limit: English
    is refused with a [ValueError], any other language calls itself
    until the limit. *)
Theorem simple_segment_fails_without_yoruba (depth : nat) (M : models)
  (engine : MMSTTSEngine.t) (text language : string) (w : world) :
  MMSTTSEngine.is_language_supported engine "yor" = false ->
  MMSTTSEngine.is_language_supported engine language = false ->
  fst (SimpleDemo.synthesize_segment (S depth) M text language engine w) =
  Raise (if String.eqb language "en"
         then ValueError "No MMS models available for synthesis"
         else RecursionError).
Proof.
  intros Hyor Hs. destruct (String.eqb language "en") eqn:Hen.
  - rewrite Fallback.simple_segment_unfold, Hen, Hyor. reflexivity.
  - rewrite Fallback.simple_segment_fallback
      by (assumption || now apply String.eqb_neq).
    now apply Fallback.simple_fallback_unavailable.
Qed.

Lemma simple_segment_fails_without_yoruba_witness :
  fst (SimpleDemo.synthesize_segment 1000 no_models "Sannu" "hau"
         (MMSTTSEngine.init no_models) empty_world) = Raise RecursionError.
Proof.
  apply (simple_segment_fails_without_yoruba 999 no_models (MMSTTSEngine.init no_models)
           "Sannu" "hau" empty_world); reflexivity.
Defined.

(** X11.  In [multilang_demo] a call of [synthesize_segment] never nests more
    than one further call: with room for two calls it does what it does
    with any larger recursion limit. *)
Theorem multilang_segment_nests_once (depth : nat) (M : models)
  (engine : MMSTTSEngine.t) (voice_files : list string) (text language : string)
  (w : world) :
  MultilangDemo.synthesize_segment (S (S depth)) M text language engine voice_files w =
  MultilangDemo.synthesize_segment 2 M text language engine voice_files w.
Proof.
  rewrite (multilang_segment_unfold (S depth)), (multilang_segment_unfold 1).
  destruct (String.eqb language "en"); [reflexivity|].
  destruct (negb (MMSTTSEngine.is_language_supported engine language)); [|reflexivity].
  rewrite !bind_print. now rewrite !multilang_segment_unfold.
Qed.

(** X12.  In [simple_demo], when the Yoruba model is there, a call of
    [synthesize_segment] never nests more than one further call: with
    room for two calls it does what it does with any larger recursion
    limit. *)
Theorem simple_segment_nests_once (depth : nat) (M : models)
  (engine : MMSTTSEngine.t) (text language : string) (w : world) :
  MMSTTSEngine.is_language_supported engine "yor" = true ->
  SimpleDemo.synthesize_segment (S (S depth)) M text language engine w =
  SimpleDemo.synthesize_segment 2 M text language engine w.
Proof.
  intro Hyor.
  rewrite (Fallback.simple_segment_unfold (S depth)), (Fallback.simple_segment_unfold 1).
  destruct (String.eqb language "en"); [reflexivity|].
  destruct (negb (MMSTTSEngine.is_language_supported engine language)); [|reflexivity].
  rewrite !bind_print. rewrite !Fallback.simple_segment_unfold.
  change (String.eqb "yor" "en") with false. rewrite Hyor. reflexivity.
Qed.

Lemma simple_segment_nests_once_witness :
  SimpleDemo.synthesize_segment 7 yoruba_only "Sannu" "hau"
    (MMSTTSEngine.init yoruba_only) empty_world =
  SimpleDemo.synthesize_segment 2 yoruba_only "Sannu" "hau"
    (MMSTTSEngine.init yoruba_only) empty_world.
Proof.
  apply (simple_segment_nests_once 5 yoruba_only (MMSTTSEngine.init yoruba_only)
           "Sannu" "hau" empty_world).
  reflexivity.
Defined.

(** X13.  In [multilang_demo] a segment in a language without an MMS model is
    handed, text unchanged, to the English voice cloning: it returns what
    the request for "en" returns and leaves the same disk. *)
Theorem multilang_fallback_is_english_request (depth : nat) (M : models)
  (engine : MMSTTSEngine.t) (voice_files : list string) (text language : string)
  (w : world) :
  language <> "en" ->
  MMSTTSEngine.is_language_supported engine language = false ->
  fst (MultilangDemo.synthesize_segment (S (S depth)) M text language engine voice_files w) =
  fst (MultilangDemo.synthesize_segment (S depth) M text "en" engine voice_files w) /\
  same_disk
    (snd (MultilangDemo.synthesize_segment (S (S depth)) M text language engine voice_files w))
    (snd (MultilangDemo.synthesize_segment (S depth) M text "en" engine voice_files w)).
Proof.
  intros Hen Hs. rewrite Fallback.multilang_segment_fallback by assumption.
  apply log_blind_multilang_segment.
  split; reflexivity.
Qed.

Lemma multilang_fallback_is_english_request_witness :
  fst (MultilangDemo.synthesize_segment 2 yoruba_only "Sannu" "hau"
         (MMSTTSEngine.init yoruba_only) ["voice.wav"] empty_world) =
  fst (MultilangDemo.synthesize_segment 1 yoruba_only "Sannu" "en"
         (MMSTTSEngine.init yoruba_only) ["voice.wav"] empty_world).
Proof.
  apply (multilang_fallback_is_english_request 0 yoruba_only
           (MMSTTSEngine.init yoruba_only) ["voice.wav"] "Sannu" "hau" empty_world).
  - discriminate.
  - reflexivity.
Defined.

(** X14.  A segment that [simple_demo] returns is the audio of one MMS model,
    that of the requested language or else the Yoruba one, cut to a
    prefix after limiting: no sample above 0.8 in magnitude, no more
    samples than the model gave, at the rate the model reported or 22050.
    Its temporary file is gone again: the sound files are as before. *)
Theorem simple_segment_outcome (depth : nat) (M : models) (engine : MMSTTSEngine.t)
  (text language : string) (w w' : world) (out : Np.ndarray) (sr : Z) :
  fresh_temp w ->
  SimpleDemo.synthesize_segment depth M text language engine w = (Ok (out, sr), w') ->
  (exists name audio reported,
     MMSTTSEngine.get_model engine (simple_voice engine language) = Ok name /\
     hf_run M name text = Ok (audio, reported) /\
     (length out <= length audio)%nat /\
     sr = rate_of reported) /\
  Forall (fun v => (Rabs v <= 0.8)%R) out /\
  files w' = files w /\
  tmp_count w' = S (tmp_count w).
Proof.
  intros Hfresh Hrun.
  destruct (simple_segment_cases depth M engine text language w Hfresh)
    as [(e & w1 & H & _) | (name & audio & reported & limited & n & w1 &
                            Hg & Hhf & Hlen & Hall & H & Hf & Hc)];
    rewrite H in Hrun; [discriminate|].
  injection Hrun as <- <- <-.
  split.
  { exists name, audio, reported. repeat (split; [assumption|]).
    split; [rewrite length_firstn; lia | reflexivity]. }
  split; [now apply Validation.Forall_firstn|]. now split.
Qed.

Lemma simple_segment_outcome_witness :
  exists out sr w',
    SimpleDemo.synthesize_segment 2 yoruba_only "Sannu" "hau"
      (MMSTTSEngine.init yoruba_only) empty_world = (Ok (out, sr), w') /\
    Forall (fun v => (Rabs v <= 0.8)%R) out /\
    sr = 16000%Z /\
    files w' = [].
Proof.
  destruct (Fallback.simple_segment_yor 0 yoruba_only (MMSTTSEngine.init yoruba_only)
              "Sannu" [(1 / 2)%R] (Some 16000%Z)
              (printed empty_world [MsgSynthesizing "hau" (substring 0 50 "Sannu");
                                    MsgFallback "hau" "Yoruba"])
              eq_refl eq_refl eq_refl)
    as (limited & trimmed & _ & _ & Hyor).
  pose proof (Fallback.simple_segment_fallback 1 yoruba_only (MMSTTSEngine.init yoruba_only)
                "Sannu" "hau" empty_world ltac:(discriminate) eq_refl) as Hfall.
  rewrite <- Hfall in Hyor.
  destruct (simple_segment_outcome 2 yoruba_only (MMSTTSEngine.init yoruba_only)
              "Sannu" "hau" empty_world _ trimmed 16000%Z eq_refl Hyor)
    as ((name & audio & reported & Hg & Hhf & Hlen & Hsr) & Hall & Hf & Hc).
  eexists _, _, _. split; [exact Hyor|].
  split; [assumption|]. split; [reflexivity | exact Hf].
Defined.

(** X15.  A segment that [multilang_demo] returns is either the audio of the
    requested language's MMS model or, for English and for a language
    without a model, audio cloned by XTTS in English from the first
    voice file; no sample is above 0.8 in magnitude and the temporary
    file is gone again. *)
Theorem multilang_segment_outcome (depth : nat) (M : models) (engine : MMSTTSEngine.t)
  (voice_files : list string) (text language : string) (w w' : world)
  (out : Np.ndarray) (sr : Z) :
  fresh_temp w ->
  MultilangDemo.synthesize_segment depth M text language engine voice_files w =
  (Ok (out, sr), w') ->
  ((exists name audio reported,
      language <> "en" /\
      MMSTTSEngine.get_model engine language = Ok name /\
      hf_run M name text = Ok (audio, reported) /\
      (length out <= length audio)%nat /\ sr = rate_of reported) \/
   (exists speaker0 others f,
      (language = "en" \/ MMSTTSEngine.is_language_supported engine language = false) /\
      voice_files = speaker0 :: others /\
      xtts_run M text speaker0 "en" 22050 = Ok f /\
      (length out <= length (wav_audio f))%nat /\ sr = wav_sr f)) /\
  Forall (fun v => (Rabs v <= 0.8)%R) out /\
  files w' = files w /\
  tmp_count w' = S (tmp_count w).
Proof.
  intros Hfresh Hrun.
  destruct (multilang_segment_cases depth M engine voice_files text language w Hfresh)
    as [(e & w1 & H & _) | (out1 & sr1 & w1 & H & Hf & Hc & Hall & Hsrc)];
    rewrite H in Hrun; [discriminate|].
  injection Hrun as <- <- <-. now repeat split.
Qed.

Lemma multilang_segment_outcome_witness :
  exists out w',
    MultilangDemo.synthesize_segment 1 yoruba_only "Sannu" "yor"
      (MMSTTSEngine.init yoruba_only) ["voice.wav"] empty_world =
    (Ok (out, 16000%Z), w') /\
    Forall (fun v => (Rabs v <= 0.8)%R) out /\
    files w' = [].
Proof.
  destruct (multilang_segment_yor 0 yoruba_only (MMSTTSEngine.init yoruba_only)
              ["voice.wav"] "Sannu" [(1 / 2)%R] (Some 16000%Z) empty_world
              eq_refl eq_refl eq_refl)
    as (limited & trimmed & _ & _ & Hrun).
  destruct (multilang_segment_outcome 1 yoruba_only (MMSTTSEngine.init yoruba_only)
              ["voice.wav"] "Sannu" "yor" empty_world _ trimmed 16000%Z eq_refl Hrun)
    as (_ & Hall & Hf & _).
  eexists _, _. split; [exact Hrun|]. split; [exact Hall | exact Hf].
Defined.

End Segments.

(* ================================================================== *)
(** * The loop over the lines and the exit code of [main] *)

Module Programs.

Import Engines IOFacts EngineFacts Segments.
Local Open Scope string_scope.

Lemma temps_unused_fresh (w : world) : temps_unused w -> fresh_temp w.
Proof. intro H. apply H. lia. Qed.

Lemma temps_unused_later (w w' : world) :
  files w' = files w -> (tmp_count w <= tmp_count w')%nat ->
  temps_unused w -> temps_unused w'.
Proof. intros Hf Hc H k Hk. rewrite Hf. apply H. lia. Qed.

(** *** One turn of the loop *)

Lemma simple_lines_cons_raise (depth : nat) (M : models) (engine : MMSTTSEngine.t)
  (i n : nat) (lang text : string) (rest : list (string * string))
  (segments : list Demo.segment) (w w1 : world) (e : exn) :
  SimpleDemo.synthesize_segment depth M text lang engine w = (Raise e, w1) ->
  SimpleDemo.synthesize_lines depth M engine i n ((lang, text) :: rest) segments w =
  (Ok (Demo.Return 1%Z), printed w1 [MsgSegmentError lang e]).
Proof.
  intro H. cbn [SimpleDemo.synthesize_lines].
  unfold bind at 1. unfold try_except. rewrite (bind_raise _ _ _ _ _ H). reflexivity.
Qed.

Lemma simple_lines_cons_zero (depth : nat) (M : models) (engine : MMSTTSEngine.t)
  (i n : nat) (lang text : string) (rest : list (string * string))
  (segments : list Demo.segment) (w w1 : world) (audio : Np.ndarray) :
  SimpleDemo.synthesize_segment depth M text lang engine w = (Ok (audio, 0%Z), w1) ->
  SimpleDemo.synthesize_lines depth M engine i n ((lang, text) :: rest) segments w =
  (Ok (Demo.Return 1%Z), printed w1 [MsgSegmentError lang ZeroDivisionError]).
Proof.
  intro H. cbn [SimpleDemo.synthesize_lines].
  unfold bind at 1. unfold try_except. rewrite (bind_run _ _ _ _ _ H). reflexivity.
Qed.

Lemma simple_lines_cons_ok (depth : nat) (M : models) (engine : MMSTTSEngine.t)
  (i n : nat) (lang text : string) (rest : list (string * string))
  (segments : list Demo.segment) (w w1 : world) (audio : Np.ndarray) (sr : Z) :
  SimpleDemo.synthesize_segment depth M text lang engine w = (Ok (audio, sr), w1) ->
  sr <> 0%Z ->
  SimpleDemo.synthesize_lines depth M engine i n ((lang, text) :: rest) segments w =
  SimpleDemo.synthesize_lines depth M engine (S i) n rest (segments ++ [(audio, sr)])
    (printed w1 [MsgSegment i n lang (IZR (Z.of_nat (length audio)) / IZR sr)]).
Proof.
  intros H Hsr. cbn [SimpleDemo.synthesize_lines].
  unfold bind at 1. unfold try_except. rewrite (bind_run _ _ _ _ _ H).
  cbv beta iota delta [bind lift fst snd].
  rewrite (Validation.py_div_ok _ _ Hsr). reflexivity.
Qed.

Lemma multilang_lines_cons_raise (depth : nat) (M : models) (engine : MMSTTSEngine.t)
  (voice_files : list string)
  (i n : nat) (lang text : string) (rest : list (string * string))
  (segments : list Demo.segment) (w w1 : world) (e : exn) :
  MultilangDemo.synthesize_segment depth M text lang engine voice_files w = (Raise e, w1) ->
  MultilangDemo.synthesize_lines depth M engine voice_files i n ((lang, text) :: rest)
    segments w =
  (Ok (Demo.Return 1%Z), printed w1 [MsgSegmentError lang e]).
Proof.
  intro H. cbn [MultilangDemo.synthesize_lines].
  unfold bind at 1. unfold try_except. rewrite (bind_raise _ _ _ _ _ H). reflexivity.
Qed.

Lemma multilang_lines_cons_zero (depth : nat) (M : models) (engine : MMSTTSEngine.t)
  (voice_files : list string)
  (i n : nat) (lang text : string) (rest : list (string * string))
  (segments : list Demo.segment) (w w1 : world) (audio : Np.ndarray) :
  MultilangDemo.synthesize_segment depth M text lang engine voice_files w =
  (Ok (audio, 0%Z), w1) ->
  MultilangDemo.synthesize_lines depth M engine voice_files i n ((lang, text) :: rest)
    segments w =
  (Ok (Demo.Return 1%Z), printed w1 [MsgSegmentError lang ZeroDivisionError]).
Proof.
  intro H. cbn [MultilangDemo.synthesize_lines].
  unfold bind at 1. unfold try_except. rewrite (bind_run _ _ _ _ _ H). reflexivity.
Qed.

Lemma multilang_lines_cons_ok (depth : nat) (M : models) (engine : MMSTTSEngine.t)
  (voice_files : list string)
  (i n : nat) (lang text : string) (rest : list (string * string))
  (segments : list Demo.segment) (w w1 : world) (audio : Np.ndarray) (sr : Z) :
  MultilangDemo.synthesize_segment depth M text lang engine voice_files w =
  (Ok (audio, sr), w1) ->
  sr <> 0%Z ->
  MultilangDemo.synthesize_lines depth M engine voice_files i n ((lang, text) :: rest)
    segments w =
  MultilangDemo.synthesize_lines depth M engine voice_files (S i) n rest
    (segments ++ [(audio, sr)])
    (printed w1 [MsgSegment i n lang (IZR (Z.of_nat (length audio)) / IZR sr)]).
Proof.
  intros H Hsr. cbn [MultilangDemo.synthesize_lines].
  unfold bind at 1. unfold try_except. rewrite (bind_run _ _ _ _ _ H).
  cbv beta iota delta [bind lift fst snd].
  rewrite (Validation.py_div_ok _ _ Hsr). reflexivity.
Qed.

(** *** The whole loop *)

Lemma simple_lines_cases (depth : nat) (M : models) (engine : MMSTTSEngine.t)
  (i n : nat) (lines : list (string * string)) (segments : list Demo.segment)
  (w : world) :
  temps_unused w ->
  exists w',
    files w' = files w /\
    (SimpleDemo.synthesize_lines depth M engine i n lines segments w =
     (Ok (Demo.Return 1%Z), w') \/
     exists new,
       SimpleDemo.synthesize_lines depth M engine i n lines segments w =
       (Ok (Demo.Fallthrough (segments ++ new)%list), w') /\
       length new = length lines /\
       tmp_count w' = (tmp_count w + length lines)%nat /\
       Forall accepted new).
Proof.
  revert i segments w.
  induction lines as [|[lang text] rest IH]; intros i segments w Hw.
  { exists w. split; [reflexivity|]. right. exists []. rewrite app_nil_r.
    repeat split; [simpl; lia | constructor]. }
  destruct (simple_segment_cases depth M engine text lang w (temps_unused_fresh _ Hw))
    as [(e & w1 & H & Hf) | (name & audio & reported & limited & k & w1 &
                             Hg & Hhf & Hlen & Hall & H & Hf & Hc)].
  - exists (printed w1 [MsgSegmentError lang e]). split; [exact Hf|]. left.
    now apply simple_lines_cons_raise.
  - destruct (Z.eq_dec (rate_of reported) 0) as [Hz | Hnz].
    + exists (printed w1 [MsgSegmentError lang ZeroDivisionError]).
      split; [exact Hf|]. left. rewrite Hz in H.
      exact (simple_lines_cons_zero _ _ _ _ _ _ _ _ _ _ _ _ H).
    + rewrite (simple_lines_cons_ok _ _ _ _ _ _ _ _ _ _ _ _ _ H Hnz).
      set (w2 := printed w1 _).
      assert (Hw2 : temps_unused w2).
      { apply (temps_unused_later w); [exact Hf | simpl; lia | exact Hw]. }
      destruct (IH (S i) (segments ++ [(firstn k limited, rate_of reported)])%list w2 Hw2)
        as (w' & Hf' & [Hret | (new & Hrun & Hn & Hc' & Hacc)]).
      * exists w'. split; [now rewrite Hf'|]. now left.
      * exists w'. split; [now rewrite Hf'|]. right.
        exists ((firstn k limited, rate_of reported) :: new).
        split; [now rewrite <- app_assoc in Hrun|].
        split; [simpl; now rewrite Hn|].
        split; [rewrite Hc'; simpl; lia|].
        constructor; [|exact Hacc].
        split; [exact Hnz | now apply Validation.Forall_firstn].
Qed.

Lemma multilang_lines_cases (depth : nat) (M : models) (engine : MMSTTSEngine.t)
  (voice_files : list string)
  (i n : nat) (lines : list (string * string)) (segments : list Demo.segment)
  (w : world) :
  temps_unused w ->
  exists w',
    files w' = files w /\
    (MultilangDemo.synthesize_lines depth M engine voice_files i n lines segments w =
     (Ok (Demo.Return 1%Z), w') \/
     exists new,
       MultilangDemo.synthesize_lines depth M engine voice_files i n lines segments w =
       (Ok (Demo.Fallthrough (segments ++ new)%list), w') /\
       length new = length lines /\
       tmp_count w' = (tmp_count w + length lines)%nat /\
       Forall accepted new).
Proof.
  revert i segments w.
  induction lines as [|[lang text] rest IH]; intros i segments w Hw.
  { exists w. split; [reflexivity|]. right. exists []. rewrite app_nil_r.
    repeat split; [simpl; lia | constructor]. }
  destruct (multilang_segment_cases depth M engine voice_files text lang w
              (temps_unused_fresh _ Hw))
    as [(e & w1 & H & Hf) | (out & sr & w1 & H & Hf & Hc & Hall & _)].
  - exists (printed w1 [MsgSegmentError lang e]). split; [exact Hf|]. left.
    now apply multilang_lines_cons_raise.
  - destruct (Z.eq_dec sr 0) as [Hz | Hnz].
    + exists (printed w1 [MsgSegmentError lang ZeroDivisionError]).
      split; [exact Hf|]. left. rewrite Hz in H.
      exact (multilang_lines_cons_zero _ _ _ _ _ _ _ _ _ _ _ _ _ H).
    + rewrite (multilang_lines_cons_ok _ _ _ _ _ _ _ _ _ _ _ _ _ _ H Hnz).
      set (w2 := printed w1 _).
      assert (Hw2 : temps_unused w2).
      { apply (temps_unused_later w); [exact Hf | simpl; lia | exact Hw]. }
      destruct (IH (S i) (segments ++ [(out, sr)])%list w2 Hw2)
        as (w' & Hf' & [Hret | (new & Hrun & Hn & Hc' & Hacc)]).
      * exists w'. split; [now rewrite Hf'|]. now left.
      * exists w'. split; [now rewrite Hf'|]. right.
        exists ((out, sr) :: new).
        split; [now rewrite <- app_assoc in Hrun|].
        split; [simpl; now rewrite Hn|].
        split; [rewrite Hc'; simpl; lia|].
        constructor; [|exact Hacc].
        split; [exact Hnz | exact Hall].
Qed.

(** *** What the assembly and the final stage can raise *)

Lemma max_raises (x : Np.ndarray) (e : exn) : Np.max x = Raise e -> value_error e.
Proof. destruct x; [|discriminate]. intros [= <-]. now eexists. Qed.

Lemma linspace_raises (start stop : R) (num : Z) (e : exn) :
  Np.linspace start stop num = Raise e -> value_error e.
Proof.
  unfold Np.linspace. destruct (num <? 0)%Z; [|discriminate].
  intros [= <-]. now eexists.
Qed.

Lemma interp_raises (x xp fp : Np.ndarray) (e : exn) :
  Np.interp x xp fp = Raise e -> value_error e.
Proof.
  unfold Np.interp. destruct xp as [|x0 xp']; [intros [= <-]; now eexists|].
  destruct fp as [|y0 fp']; [intros [= <-]; now eexists|].
  destruct (length xp' =? length fp')%nat; [discriminate|].
  intros [= <-]. now eexists.
Qed.

Lemma resample_cases (target_sr sr : Z) (audio : Np.ndarray) (w : world) :
  sr <> 0%Z ->
  exists w', files w' = files w /\
    ((exists audio', Demo.resample target_sr audio sr w = (Ok audio', w')) \/
     (exists e, Demo.resample target_sr audio sr w = (Raise e, w') /\ value_error e)).
Proof.
  intro Hsr. unfold Demo.resample.
  destruct (negb (sr =? target_sr)%Z).
  2:{ exists w. split; [reflexivity|]. left. now exists audio. }
  rewrite bind_print. cbv beta iota delta [bind lift].
  rewrite (Validation.py_div_ok _ _ Hsr). cbv beta iota.
  exists (printed w [MsgResampling sr target_sr]). split; [reflexivity|].
  destruct (Np.linspace 0 (INR (length audio))
              (int_div (Z.of_nat (length audio) * target_sr) sr)) as [xs | e] eqn:Hl.
  - destruct (Np.interp xs (Np.arange (length audio)) audio) as [ys | e] eqn:Hi.
    + left. now exists ys.
    + right. exists e. split; [reflexivity | exact (interp_raises _ _ _ _ Hi)].
  - right. exists e. split; [reflexivity | exact (linspace_raises _ _ _ _ Hl)].
Qed.

Lemma resample_all_cases (target_sr : Z) (segments : list Demo.segment)
  (concatenated : list Np.ndarray) (w : world) :
  Forall accepted segments ->
  exists w', files w' = files w /\
    ((exists out, Demo.resample_all target_sr segments concatenated w = (Ok out, w')) \/
     (exists e, Demo.resample_all target_sr segments concatenated w = (Raise e, w') /\
                value_error e)).
Proof.
  intro Hacc. revert concatenated w.
  induction Hacc as [|[audio sr] rest [Hsr _] _ IH]; intros concatenated w.
  { exists w. split; [reflexivity|]. left. now exists concatenated. }
  cbn [Demo.resample_all]. simpl in Hsr.
  destruct (resample_cases target_sr sr audio w Hsr)
    as (w1 & Hf & [(audio' & H) | (e & H & He)]).
  - rewrite (bind_run _ _ _ _ _ H).
    destruct (IH (concatenated ++ [audio'])%list w1) as (w' & Hf' & Hrest).
    exists w'. split; [now rewrite Hf'|]. exact Hrest.
  - exists w1. split; [exact Hf|]. right. exists e.
    split; [exact (bind_raise _ _ _ _ _ H) | exact He].
Qed.

Lemma assemble_cases (segments : list Demo.segment) (w : world) :
  Forall accepted segments ->
  exists w', files w' = files w /\
    ((segments = [] /\ Demo.assemble segments w = (Ok (Demo.Return 1%Z), w')) \/
     (exists final_audio target_sr,
        target_sr <> 0%Z /\
        Demo.assemble segments w = (Ok (Demo.Fallthrough (final_audio, target_sr)), w')) \/
     (exists e, Demo.assemble segments w = (Raise e, w') /\ value_error e)).
Proof.
  intro Hacc. destruct segments as [|[audio target_sr] rest].
  { eexists. split; [|left; split; [reflexivity | apply Assembly.assemble_nil]].
    reflexivity. }
  unfold Demo.assemble. rewrite bind_print.
  destruct (resample_all_cases target_sr ((audio, target_sr) :: rest) []
              (printed w [MsgConcatenating]) Hacc)
    as (w' & Hf & [(out & H) | (e & H & He)]).
  - exists w'. split; [exact Hf|]. right. left.
    exists (Np.concatenate out), target_sr.
    split; [now inversion Hacc as [|? ? [Hsr _] _]|].
    now rewrite (bind_run _ _ _ _ _ H).
  - exists w'. split; [exact Hf|]. right. right. exists e.
    split; [exact (bind_raise _ _ _ _ _ H) | exact He].
Qed.

(** *** The tail the final stage leaves *)

Lemma where_from_in (i j : nat) (mask : list bool) :
  In j (Np.where_from i mask) <-> (i <= j)%nat /\ nth_error mask (j - i) = Some true.
Proof.
  revert i. induction mask as [|b mask IH]; intro i.
  { simpl. split; [contradiction|]. intros [_ H]. now destruct (j - i)%nat. }
  assert (Hrest : In j (Np.where_from (S i) mask) <->
                  (i < j)%nat /\ nth_error (b :: mask) (j - i) = Some true).
  { rewrite IH. split; intros [Hle H]; (split; [lia|]).
    - replace (j - i)%nat with (S (j - S i)) by lia. exact H.
    - replace (j - i)%nat with (S (j - S i)) in H by lia. exact H. }
  assert (Hhead : j = i -> nth_error (b :: mask) (j - i) = Some b).
  { intros ->. now rewrite Nat.sub_diag. }
  simpl Np.where_from. destruct b.
  - simpl In. rewrite Hrest. split.
    + intros [<- | [Hlt H]]; [split; [lia | now apply Hhead] | split; [lia | exact H]].
    + intros [Hle H]. destruct (Nat.eq_dec i j) as [-> | Hne]; [now left|].
      right. split; [lia | exact H].
  - rewrite Hrest. split.
    + intros [Hlt H]. split; [lia | exact H].
    + intros [Hle H]. destruct (Nat.eq_dec j i) as [E | Hne].
      * rewrite (Hhead E) in H. discriminate.
      * split; [lia | exact H].
Qed.

Lemma where_from_le_last (i j d : nat) (mask : list bool) :
  In j (Np.where_from i mask) -> (j <= last (Np.where_from i mask) d)%nat.
Proof.
  revert i. induction mask as [|b mask IH]; intro i; [contradiction|].
  simpl Np.where_from. destruct b; [|apply IH].
  intros [<- | Hin].
  - destruct (Np.where_from (S i) mask) as [|k rest] eqn:E; [simpl; lia|].
    assert (Hk : In (last (k :: rest) d) (Np.where_from (S i) mask)).
    { rewrite E. apply Trim.last_in. discriminate. }
    apply Trim.where_from_range in Hk.
    change (last (i :: k :: rest) d) with (last (k :: rest) d). lia.
  - destruct (Np.where_from (S i) mask) as [|k rest] eqn:E; [contradiction|].
    change (last (i :: k :: rest) d) with (last (k :: rest) d).
    rewrite <- E. apply IH. now rewrite E.
Qed.

Lemma trim_tail_short_tail (x y : Np.ndarray) (target_sr : Z) :
  Demo.trim_tail x target_sr = Ok y -> short_tail y target_sr.
Proof.
  intros Htrim Hsr last_loud Hlast.
  assert (Hk : (1 <= int_div target_sr 5)%Z).
  { unfold int_div. apply Z.quot_le_lower_bound; lia. }
  assert (Hdec : Np.where_true (loud 1e-3 x) = [] \/ Np.where_true (loud 1e-3 x) <> []).
  { destruct (Np.where_true (loud 1e-3 x)); [now left | right; discriminate]. }
  destruct Hdec as [Hnil | Hne].
  { rewrite Validation.trim_tail_silent in Htrim
      by now apply (Trim.where_nil_silent 0).
    injection Htrim as <-. rewrite Hnil in Hlast. discriminate. }
  rewrite (Validation.trim_tail_loud _ _ Hne) in Htrim. injection Htrim as <-.
  set (lx := last (Np.where_true (loud 1e-3 x)) 0%nat) in *.
  rewrite Trim.slice_to_nonneg in * by lia.
  set (m := Z.to_nat (Z.of_nat lx + int_div target_sr 5)) in *.
  assert (Hm : (lx < m)%nat) by (unfold m; lia).
  assert (Hlx : In lx (Np.where_true (loud 1e-3 (firstn m x)))).
  { pose proof (Trim.last_in _ 0%nat Hne) as Hin. fold lx in Hin.
    unfold Np.where_true in *. apply where_from_in in Hin. apply where_from_in.
    destruct Hin as [_ Hin]. split; [lia|].
    unfold loud, Np.gt, Np.abs in *. rewrite <- !firstn_map.
    rewrite nth_error_firstn.
    replace (lx - 0 <? m)%nat with true by (symmetry; apply Nat.ltb_lt; lia).
    exact Hin. }
  apply Trim.last_item_last in Hlast. destruct Hlast as [_ ->].
  pose proof (where_from_le_last 0 lx 0 _ Hlx) as Hle.
  fold (Np.where_true (loud 1e-3 (firstn m x))) in Hle.
  assert (Hm' : Z.of_nat m = (Z.of_nat lx + int_div target_sr 5)%Z) by (unfold m; lia).
  clearbody m. rewrite length_firstn. lia.
Qed.

(** The final stage, for a rate that is not zero: it returns 0 with the
    file written, no sample above 0.9 and a duration within the bounds,
    or returns 1, or raises a [ValueError]. *)
Lemma finalize_cases (final_audio : Np.ndarray) (target_sr : Z) (w : world) :
  target_sr <> 0%Z ->
  exists w',
    (forall p, p <> Demo.output_path ->
               lookup_file p (files w') = lookup_file p (files w)) /\
    ((exists y,
        Demo.finalize final_audio target_sr w = (Ok 0%Z, w') /\
        lookup_file Demo.output_path (files w') = Some (Wav y target_sr) /\
        duration_ok (IZR (Z.of_nat (length y)) / IZR target_sr) /\
        Forall (fun v => (Rabs v <= 0.9)%R) y /\
        short_tail y target_sr /\ target_sr <> 0%Z) \/
     Demo.finalize final_audio target_sr w = (Ok 1%Z, w') \/
     (exists e, Demo.finalize final_audio target_sr w = (Raise e, w') /\ value_error e)).
Proof.
  intro Hsr.
  destruct (Demo.peak_limit final_audio) as [limited | e] eqn:Hlim.
  2:{ exists (printed w [MsgPostProcessing]).
      split; [reflexivity|]. right. right. exists e.
      split; [exact (Validation.finalize_limit_raise _ _ _ _ Hlim)|].
      unfold Demo.peak_limit in Hlim.
      destruct (Np.max (Np.abs final_audio)) as [m | e'] eqn:Hmax.
      - simpl in Hlim. now destruct (Np.gtb m 0).
      - injection Hlim as <-. exact (max_raises _ _ Hmax). }
  assert (Hne : final_audio <> []).
  { intros ->. discriminate Hlim. }
  destruct (Validation.peak_limit_spec final_audio Hne)
    as (limited' & Hlim' & _ & Hbound & _).
  assert (limited' = limited) by congruence. subst limited'.
  destruct (Validation.trim_tail_prefix limited target_sr) as (k & Htrim).
  pose proof (Validation.py_div_ok (Z.of_nat (length (firstn k limited))) _ Hsr) as Hdiv.
  set (y := firstn k limited) in *.
  assert (Hy : Forall (fun v => (Rabs v <= 0.9)%R) y)
    by now apply Validation.Forall_firstn.
  set (w1 := written (printed w [MsgPostProcessing]) Demo.output_path y target_sr).
  assert (Hother : forall p, p <> Demo.output_path ->
                             lookup_file p (files w1) = lookup_file p (files w)).
  { intros p Hp. unfold w1. now rewrite lookup_written_other. }
  destruct (Demo.peak_level y) as [pk | e] eqn:Hlev.
  2:{ exists w1. split; [exact Hother|]. right. right. exists e.
      split; [exact (Validation.finalize_level_raise _ _ _ _ _ _ _ Hlim Htrim Hdiv Hlev)|].
      unfold Demo.peak_level in Hlev.
      destruct (Np.max (Np.abs y)) as [m | e'] eqn:Hmax; [discriminate|].
      injection Hlev as <-. exact (max_raises _ _ Hmax). }
  rewrite (Validation.finalize_run _ _ _ _ _ _ w Hlim Htrim Hdiv Hlev).
  fold w1.
  set (d := (IZR (Z.of_nat (length y)) / IZR target_sr)%R).
  set (w2 := printed w1 [MsgGenerated Demo.output_path d pk target_sr]).
  pose proof (Validation.peak_level_bound y pk Hy Hlev) as Hpk.
  destruct (Validation.duration_ok_dec d) as [Hd | Hd].
  - rewrite (Validation.validate_pass d pk w2 Hd Hpk).
    exists (printed w2 [MsgReady]). split; [exact Hother|].
    left. exists y. split; [reflexivity|].
    split; [apply lookup_written|]. split; [exact Hd|]. split; [exact Hy|].
    split; [exact (trim_tail_short_tail _ _ _ Htrim) | exact Hsr].
  - rewrite (Validation.validate_duration_fail d pk w2 Hd).
    exists (printed w2 [MsgDurationWarning d]). split; [exact Hother|].
    right. now left.
Qed.

(** [main] from "Concatenating segments" on, for accepted segments. *)
Lemma assemble_and_finalize_cases (segments : list Demo.segment) (w : world) :
  Forall accepted segments ->
  exists w',
    (forall p, p <> Demo.output_path ->
               lookup_file p (files w') = lookup_file p (files w)) /\
    ((exists y target_sr,
        Demo.assemble_and_finalize segments w = (Ok 0%Z, w') /\
        segments <> [] /\
        lookup_file Demo.output_path (files w') = Some (Wav y target_sr) /\
        duration_ok (IZR (Z.of_nat (length y)) / IZR target_sr) /\
        Forall (fun v => (Rabs v <= 0.9)%R) y /\
        short_tail y target_sr /\ target_sr <> 0%Z) \/
     Demo.assemble_and_finalize segments w = (Ok 1%Z, w') \/
     (exists e, Demo.assemble_and_finalize segments w = (Raise e, w') /\ value_error e)).
Proof.
  intro Hacc. unfold Demo.assemble_and_finalize.
  destruct (assemble_cases segments w Hacc)
    as (w1 & Hf & [(Hnil & H) | [(final_audio & target_sr & Hsr & H) | (e & H & He)]]).
  - exists w1. split; [now intros; rewrite Hf|]. rewrite (bind_run _ _ _ _ _ H).
    right. now left.
  - rewrite (bind_run _ _ _ _ _ H). cbv beta iota.
    destruct (finalize_cases final_audio target_sr w1 Hsr) as (w' & Hother & Hcases).
    exists w'. split; [intros p Hp; rewrite (Hother p Hp); now rewrite Hf|].
    destruct Hcases as [(y & Hrun & Hfile & Hd & Hy & Ht) | [Hrun | (e & Hrun & He)]].
    + left. exists y, target_sr. split; [exact Hrun|].
      split; [|split; [exact Hfile | split; [exact Hd | split; [exact Hy | exact Ht]]]].
      intros ->. rewrite Assembly.assemble_nil in H. discriminate.
    + right. now left.
    + right. right. now exists e.
  - exists w1. split; [now intros; rewrite Hf|].
    rewrite (bind_raise _ _ _ _ _ H). right. right. now exists e.
Qed.

(** *** [main] of [simple_demo] *)

Lemma simple_main_cases (depth : nat) (M : models) (w : world) :
  temps_unused w ->
  exists w',
    (forall p, p <> Demo.output_path ->
               lookup_file p (files w') = lookup_file p (files w)) /\
    ((exists y target_sr,
        SimpleDemo.main depth M w = (Ok 0%Z, w') /\
        lookup_file Demo.output_path (files w') = Some (Wav y target_sr) /\
        duration_ok (IZR (Z.of_nat (length y)) / IZR target_sr) /\
        Forall (fun v => (Rabs v <= 0.9)%R) y /\
        short_tail y target_sr /\ target_sr <> 0%Z) \/
     SimpleDemo.main depth M w = (Ok 1%Z, w') \/
     (exists e, SimpleDemo.main depth M w = (Raise e, w') /\ value_error e)).
Proof.
  intro Hw. unfold SimpleDemo.main. rewrite !bind_print.
  set (w0 := printed _ [MsgSynthesizingN _]).
  assert (Hw0 : temps_unused w0) by exact Hw.
  destruct (simple_lines_cases depth M (MMSTTSEngine.init M) 1
              (length SimpleDemo.LINES) SimpleDemo.LINES [] w0 Hw0)
    as (w1 & Hf & [H | (new & H & Hn & Hc & Hacc)]).
  - exists w1. split; [now intros; rewrite Hf|]. right. left.
    now rewrite (bind_run _ _ _ _ _ H).
  - rewrite (bind_run _ _ _ _ _ H). cbv beta iota. simpl app.
    destruct (assemble_and_finalize_cases new w1 Hacc) as (w' & Hother & Hcases).
    exists w'. split; [intros p Hp; rewrite (Hother p Hp); now rewrite Hf|].
    destruct Hcases as [(y & target_sr & Hrun & _ & Hrest) | [Hrun | Hrun]].
    + left. exists y, target_sr. now split.
    + right. now left.
    + right. now right.
Qed.

Lemma multilang_main_cases (depth : nat) (M : models) (voice_files : list string)
  (w : world) :
  temps_unused w ->
  exists w',
    (forall p, p <> Demo.output_path ->
               lookup_file p (files w') = lookup_file p (files w)) /\
    ((exists y target_sr,
        MultilangDemo.main depth M voice_files w = (Ok 0%Z, w') /\
        voice_files <> [] /\
        lookup_file Demo.output_path (files w') = Some (Wav y target_sr) /\
        duration_ok (IZR (Z.of_nat (length y)) / IZR target_sr) /\
        Forall (fun v => (Rabs v <= 0.9)%R) y /\
        short_tail y target_sr /\ target_sr <> 0%Z) \/
     MultilangDemo.main depth M voice_files w = (Ok 1%Z, w') \/
     (exists e, MultilangDemo.main depth M voice_files w = (Raise e, w') /\
                value_error e)).
Proof.
  intro Hw. unfold MultilangDemo.main. rewrite !bind_print.
  destruct voice_files as [|v vs] eqn:Hvf.
  { rewrite bind_print. eexists. split; [|right; left; reflexivity]. reflexivity. }
  rewrite <- Hvf. rewrite bind_print.
  set (w0 := printed _ [MsgSynthesizingN _]).
  assert (Hw0 : temps_unused w0) by exact Hw.
  destruct (multilang_lines_cases depth M (MMSTTSEngine.init M) voice_files 1
              (length MultilangDemo.LINES) MultilangDemo.LINES [] w0 Hw0)
    as (w1 & Hf & [H | (new & H & Hn & Hc & Hacc)]).
  - exists w1. split; [now intros; rewrite Hf|]. right. left.
    now rewrite (bind_run _ _ _ _ _ H).
  - rewrite (bind_run _ _ _ _ _ H). cbv beta iota. simpl app.
    destruct (assemble_and_finalize_cases new w1 Hacc) as (w' & Hother & Hcases).
    exists w'. split; [intros p Hp; rewrite (Hother p Hp); now rewrite Hf|].
    destruct Hcases as [(y & target_sr & Hrun & _ & Hrest) | [Hrun | Hrun]].
    + left. exists y, target_sr. split; [exact Hrun|]. split; [|exact Hrest].
      rewrite Hvf. discriminate.
    + right. now left.
    + right. now right.
Qed.

(** *** A run of [simple_demo] that succeeds *)

Lemma fold_max_repeat (c : R) (n : nat) : fold_left Rmax (repeat c n) c = c.
Proof.
  induction n as [|n IH]; simpl; [reflexivity|].
  rewrite Rmax_left by apply Rle_refl. exact IH.
Qed.

Lemma max_abs_repeat (c : R) (n : nat) :
  Np.max (Np.abs (repeat c (S n))) = Ok (Rabs c).
Proof.
  unfold Np.abs. rewrite map_repeat. simpl. now rewrite fold_max_repeat.
Qed.

Lemma steady_sample_loud : (1 / 2 < steady_sample)%R.
Proof.
  unfold steady_sample. replace (1 / 2 * 1 * 1.1)%R with (1 / 2 * 1.1)%R by lra.
  apply RealFacts.tanh_drive_gt. lra.
Qed.

Lemma soft_limit_steady (n : nat) :
  _soft_limit (repeat (1 / 2)%R (S n)) TARGET_PEAK = Ok (repeat steady_sample (S n)).
Proof.
  pose proof Decibel.TARGET_PEAK_bounds as Ht.
  rewrite (SoftLimit.soft_limit_loud _ _ (Rabs (1 / 2)) (max_abs_repeat _ _)).
  2:{ rewrite Rabs_pos_eq; lra. }
  rewrite NpFacts.gtb_false by (rewrite Rabs_pos_eq; lra).
  now rewrite map_repeat.
Qed.

(** A buffer that ends in a loud sample is returned whole when the tail
    is at least one sample. *)
Lemma where_last_loud (thresh : R) (x : Np.ndarray) (v : R) :
  (thresh < Rabs v)%R ->
  Np.where_true (loud thresh (x ++ [v])%list) <> [] /\
  last (Np.where_true (loud thresh (x ++ [v])%list)) 0%nat = length x.
Proof.
  intro Hv. unfold Np.where_true.
  rewrite Trim.loud_app, Trim.where_from_app. rewrite Trim.loud_length.
  assert (E : Np.where_from (0 + length x) (loud thresh [v]) = [length x]).
  { simpl. unfold loud, Np.gt. simpl. now rewrite NpFacts.gtb_true. }
  rewrite E. split.
  - intro H. apply app_eq_nil in H. destruct H as [_ H]. discriminate.
  - now rewrite Trim.last_app_r by discriminate.
Qed.

Lemma trim_ends_loud (x : Np.ndarray) (v : R) (sr : Z) (thresh : R) (max_ms : Z) :
  (thresh < Rabs v)%R -> (1 <= tail_samples sr max_ms)%Z ->
  _trim_trailing_silence (x ++ [v])%list sr thresh max_ms = Ok (x ++ [v])%list.
Proof.
  intros Hv Htail. destruct (where_last_loud thresh x v Hv) as (Hne & Hlast).
  rewrite (Trim.trim_loud_eq _ _ _ _ Hne), Hlast. f_equal.
  apply Trim.slice_to_full_iff.
  - intro H. apply app_eq_nil in H. destruct H as [_ H]. discriminate.
  - unfold Np.size. rewrite length_app. simpl. lia.
Qed.

Lemma trim_tail_ends_loud (x : Np.ndarray) (v : R) (target_sr : Z) :
  (1e-3 < Rabs v)%R -> (5 <= target_sr)%Z ->
  Demo.trim_tail (x ++ [v])%list target_sr = Ok (x ++ [v])%list.
Proof.
  intros Hv Hsr. destruct (where_last_loud 1e-3 x v Hv) as (Hne & Hlast).
  rewrite (Validation.trim_tail_loud _ _ Hne), Hlast. f_equal.
  apply Trim.slice_to_full_iff.
  - intro H. apply app_eq_nil in H. destruct H as [_ H]. discriminate.
  - unfold Np.size. rewrite length_app. simpl.
    assert (1 <= int_div target_sr 5)%Z; [|lia].
    unfold int_div. apply Z.quot_le_lower_bound; lia.
Qed.

Lemma steady_mms_synthesize (text : string) (w : world) :
  blank text = false ->
  MMSTTSEngine.synthesize_to_wav steady_voice (MMSTTSEngine.init steady_voice)
    text "yor" 22050 w =
  (Ok (tmp_name (tmp_count w)),
   written (World (stdout w) (files w) (S (tmp_count w)))
     (tmp_name (tmp_count w)) (repeat steady_sample 20) 5).
Proof.
  intro Hb.
  destruct (Fallback.mms_synthesize_yor steady_voice (MMSTTSEngine.init steady_voice)
              text (repeat (1 / 2)%R 20) (Some 5%Z) w Hb eq_refl eq_refl)
    as (limited & trimmed & Hl & Ht & H).
  rewrite soft_limit_steady in Hl. injection Hl as <-.
  assert (Hloud : (default_thresh < Rabs steady_sample)%R).
  { pose proof steady_sample_loud. unfold default_thresh. rewrite Rabs_pos_eq; lra. }
  assert (Ht' : _trim_trailing_silence (repeat steady_sample 20) (rate_of (Some 5%Z))
                  default_thresh default_max_ms = Ok (repeat steady_sample 20)).
  { exact (trim_ends_loud (repeat steady_sample 19) steady_sample 5
             default_thresh default_max_ms Hloud ltac:(discriminate)). }
  assert (Heq : Ok trimmed = Ok (repeat steady_sample 20)).
  { rewrite <- Ht. exact Ht'. }
  injection Heq as ->. exact H.
Qed.

Lemma steady_segment (depth : nat) (text language : string) (w : world) :
  blank text = false ->
  language = "en" \/ language = "yor" \/
  (language <> "en" /\
   MMSTTSEngine.is_language_supported (MMSTTSEngine.init steady_voice) language = false) ->
  files w = [] ->
  exists w',
    SimpleDemo.synthesize_segment (S (S depth)) steady_voice text language
      (MMSTTSEngine.init steady_voice) w =
    (Ok (repeat steady_sample 20, 5%Z), w') /\
    files w' = [].
Proof.
  intros Hb Hlang Hfiles.
  assert (Hdirect : forall w0, files w0 = [] ->
            exists w',
              bind (MMSTTSEngine.synthesize_to_wav steady_voice
                      (MMSTTSEngine.init steady_voice) text "yor" 22050)
                SimpleDemo.read_and_clean w0 =
              (Ok (repeat steady_sample 20, 5%Z), w') /\ files w' = []).
  { intros w0 Hf0. eexists.
    rewrite (bind_run _ _ _ _ _ (steady_mms_synthesize text w0 Hb)).
    rewrite Fallback.read_and_clean_written. split; [reflexivity|].
    simpl. now rewrite Hf0. }
  destruct Hlang as [-> | [-> | [Hen Hs]]].
  - rewrite Fallback.simple_segment_unfold.
    destruct (Hdirect (printed w [MsgSynthesizing "en" (substring 0 50 text)]) Hfiles)
      as (w' & H & Hf).
    exists w'. split; [exact H | exact Hf].
  - rewrite Fallback.simple_segment_unfold.
    destruct (Hdirect (printed w [MsgSynthesizing "yor" (substring 0 50 text)]) Hfiles)
      as (w' & H & Hf).
    exists w'. split; [exact H | exact Hf].
  - rewrite (Fallback.simple_segment_fallback _ _ _ _ _ _ Hen Hs).
    rewrite Fallback.simple_segment_unfold.
    destruct (Hdirect
                (printed (printed w [MsgSynthesizing language (substring 0 50 text);
                                     MsgFallback language "Yoruba"])
                   [MsgSynthesizing "yor" (substring 0 50 text)]) Hfiles)
      as (w' & H & Hf).
    exists w'. split; [exact H | exact Hf].
Qed.

Lemma steady_lines (depth : nat) (lines : list (string * string)) (i n : nat)
  (segments : list Demo.segment) (w : world) :
  Forall steady_line lines ->
  files w = [] ->
  exists w',
    SimpleDemo.synthesize_lines (S (S depth)) steady_voice (MMSTTSEngine.init steady_voice)
      i n lines segments w =
    (Ok (Demo.Fallthrough
           (segments ++ map (fun _ => (repeat steady_sample 20, 5%Z)) lines)%list), w') /\
    files w' = [].
Proof.
  intro Hall. revert i segments w.
  induction Hall as [|[lang text] rest [Hb Hlang] _ IH]; intros i segments w Hf.
  { exists w. simpl. now rewrite app_nil_r. }
  destruct (steady_segment depth text lang w Hb Hlang Hf) as (w1 & H & Hf1).
  rewrite (simple_lines_cons_ok _ _ _ _ _ _ _ _ _ _ _ _ _ H ltac:(discriminate)).
  match goal with
  | |- exists w', SimpleDemo.synthesize_lines _ _ _ _ _ _ ?segs ?w0 = _ /\ _ =>
      destruct (IH (S i) segs w0 Hf1) as (w' & Hrun & Hf')
  end.
  exists w'. split; [|exact Hf'].
  rewrite Hrun. now rewrite <- app_assoc.
Qed.

Lemma steady_lines_of_demo : Forall steady_line SimpleDemo.LINES.
Proof.
  unfold SimpleDemo.LINES.
  repeat (apply Forall_cons;
          [split;
           [vm_compute; reflexivity
           |cbn [fst];
            first [left; reflexivity
                  |right; left; reflexivity
                  |right; right; split; [discriminate | vm_compute; reflexivity]]]|]).
  apply Forall_nil.
Qed.

Lemma steady_finalize (n : nat) (w : world) :
  (134 <= n <= 164)%nat ->
  exists w' y,
    Demo.finalize (repeat steady_sample (S n)) 5 w = (Ok 0%Z, w') /\
    lookup_file Demo.output_path (files w') = Some (Wav y 5%Z).
Proof.
  intro Hn.
  pose proof steady_sample_loud as Hs.
  assert (Habs : Rabs steady_sample = steady_sample) by (apply Rabs_pos_eq; lra).
  assert (Hmax : Np.max (Np.abs (repeat steady_sample (S n))) = Ok steady_sample).
  { rewrite (max_abs_repeat steady_sample n). now rewrite Habs. }
  pose proof (Validation.peak_limit_loud _ _ Hmax ltac:(lra)) as Hlim.
  unfold Np.scale in Hlim. rewrite map_repeat in Hlim.
  set (v := (steady_sample * (0.9 / steady_sample))%R) in Hlim.
  assert (Hv : v = 0.9%R) by (unfold v; field; lra).
  assert (Htrim : Demo.trim_tail (repeat v (S n)) 5 = Ok (repeat v (S n))).
  { assert (Hsplit : repeat v (S n) = (repeat v n ++ [v])%list)
      by (simpl; apply repeat_cons).
    rewrite Hsplit. apply trim_tail_ends_loud; [|lia]. rewrite Hv, Rabs_pos_eq; lra. }
  pose proof (Validation.py_div_ok (Z.of_nat (length (repeat v (S n)))) 5
                ltac:(discriminate)) as Hdiv.
  assert (Hy : Forall (fun u => (Rabs u <= 0.9)%R) (repeat v (S n))).
  { apply Forall_forall. intros u Hu. apply repeat_spec in Hu. subst u.
    rewrite Hv, Rabs_pos_eq; lra. }
  destruct (Demo.peak_level (repeat v (S n))) as [pk | e] eqn:Hlev.
  2:{ unfold Demo.peak_level in Hlev. rewrite (max_abs_repeat v n) in Hlev.
      discriminate. }
  rewrite (Validation.finalize_run _ _ _ _ _ _ w Hlim Htrim Hdiv Hlev).
  rewrite Validation.validate_pass.
  - eexists _, (repeat v (S n)). split; [reflexivity|]. apply lookup_written.
  - rewrite repeat_length. unfold duration_ok.
    assert (H1 : (135 <= IZR (Z.of_nat (S n)))%R) by (apply IZR_le; lia).
    assert (H2 : (IZR (Z.of_nat (S n)) <= 165)%R) by (apply IZR_le; lia).
    lra.
  - exact (Validation.peak_level_bound _ _ Hy Hlev).
Qed.

Lemma steady_main (depth : nat) :
  exists w', SimpleDemo.main (S (S depth)) steady_voice empty_world = (Ok 0%Z, w').
Proof.
  unfold SimpleDemo.main. rewrite !bind_print.
  set (w0 := printed _ [MsgSynthesizingN _]).
  destruct (steady_lines depth SimpleDemo.LINES 1 (length SimpleDemo.LINES) [] w0
              steady_lines_of_demo eq_refl) as (w1 & H & Hf).
  rewrite (bind_run _ _ _ _ _ H). cbv beta iota.
  unfold Demo.assemble_and_finalize.
  simpl app. simpl map.
  match goal with
  | |- exists w', bind (Demo.assemble ((?a, ?t) :: ?rest)) _ _ = _ =>
      assert (Hrest : Forall (fun seg : Demo.segment => snd seg = t) rest)
        by (repeat constructor);
      rewrite (bind_run _ _ _ _ _ (Assembly.assemble_same_rate a t rest w1 Hrest))
  end.
  cbv beta iota.
  destruct (steady_finalize 139 (printed w1 [MsgConcatenating]) ltac:(lia))
    as (w' & y & Hrun & _).
  exists w'. exact Hrun.
Qed.

(** X18.  [main] of [simple_demo], started where the temporary names to come
    are unused, returns 0 or 1 or raises a [ValueError]: what a segment
    raises is caught in the loop, and no other exception escapes from
    the assembly and the final stage.  It touches no sound file but the
    output file, and when it returns 0 the output file holds audio with
    no sample above 0.9 in magnitude and a duration of 27 to 33 s. *)
Theorem simple_main_outcome (depth : nat) (M : models) (w : world) :
  temps_unused w ->
  match SimpleDemo.main depth M w with
  | (Ok code, w') =>
      (code = 0%Z \/ code = 1%Z) /\
      (forall p, p <> Demo.output_path ->
                 lookup_file p (files w') = lookup_file p (files w)) /\
      (code = 0%Z ->
       exists y target_sr,
         lookup_file Demo.output_path (files w') = Some (Wav y target_sr) /\
         duration_ok (IZR (Z.of_nat (length y)) / IZR target_sr) /\
         Forall (fun v => (Rabs v <= 0.9)%R) y)
  | (Raise e, w') => value_error e
  end.
Proof.
  intro Hw.
  destruct (simple_main_cases depth M w Hw)
    as (w' & Hother & [(y & target_sr & -> & Hfile & Hd & Hy & _) | [-> | (e & -> & He)]]).
  - split; [now left|]. split; [exact Hother|]. intros _. now exists y, target_sr.
  - split; [now right|]. split; [exact Hother|]. discriminate.
  - exact He.
Qed.

Lemma simple_main_outcome_witness :
  exists w' y target_sr,
    SimpleDemo.main 2 steady_voice empty_world = (Ok 0%Z, w') /\
    lookup_file Demo.output_path (files w') = Some (Wav y target_sr) /\
    duration_ok (IZR (Z.of_nat (length y)) / IZR target_sr).
Proof.
  destruct (steady_main 0) as (w' & Hrun).
  pose proof (simple_main_outcome 2 steady_voice empty_world (fun k _ => eq_refl)) as H.
  rewrite Hrun in H. destruct H as (_ & _ & H).
  destruct (H eq_refl) as (y & target_sr & Hfile & Hd & _).
  now exists w', y, target_sr.
Defined.

(** X19.  [main] of [multilang_demo], started where the temporary names
    to come are unused, returns 0 or 1 or raises a [ValueError].  It
    touches no sound file but the output file, and it returns 0 only
    when there are voice files, and then the output file holds audio
    with no sample above 0.9 in magnitude and a duration of 27 to
    33 s. *)
Theorem multilang_main_outcome (depth : nat) (M : models) (voice_files : list string)
  (w : world) :
  temps_unused w ->
  match MultilangDemo.main depth M voice_files w with
  | (Ok code, w') =>
      (code = 0%Z \/ code = 1%Z) /\
      (forall p, p <> Demo.output_path ->
                 lookup_file p (files w') = lookup_file p (files w)) /\
      (code = 0%Z ->
       voice_files <> [] /\
       exists y target_sr,
         lookup_file Demo.output_path (files w') = Some (Wav y target_sr) /\
         duration_ok (IZR (Z.of_nat (length y)) / IZR target_sr) /\
         Forall (fun v => (Rabs v <= 0.9)%R) y)
  | (Raise e, w') => value_error e
  end.
Proof.
  intro Hw.
  destruct (multilang_main_cases depth M voice_files w Hw)
    as (w' & Hother &
        [(y & target_sr & -> & Hvf & Hfile & Hd & Hy & _) | [-> | (e & -> & He)]]).
  - split; [now left|]. split; [exact Hother|]. intros _.
    split; [exact Hvf|]. now exists y, target_sr.
  - split; [now right|]. split; [exact Hother|]. discriminate.
  - exact He.
Qed.

(** X16.  The loop over the lines of [simple_demo] is all or nothing: it never
    raises; it either gives up with [return 1] at the first line that
    fails, or appends one segment per line, in order, each with a rate
    that is not zero and samples within 0.8.  Either way the sound files
    are as before: every temporary file is gone. *)
Theorem simple_lines_all_or_nothing (depth : nat) (M : models) (engine : MMSTTSEngine.t)
  (i n : nat) (lines : list (string * string)) (segments : list Demo.segment)
  (w : world) :
  temps_unused w ->
  match SimpleDemo.synthesize_lines depth M engine i n lines segments w with
  | (Ok (Demo.Fallthrough out), w') =>
      exists new,
        out = (segments ++ new)%list /\ length new = length lines /\
        Forall accepted new /\
        files w' = files w /\ tmp_count w' = (tmp_count w + length lines)%nat
  | (Ok (Demo.Return code), w') => code = 1%Z /\ files w' = files w
  | (Raise e, w') => False
  end.
Proof.
  intro Hw.
  destruct (simple_lines_cases depth M engine i n lines segments w Hw)
    as (w' & Hf & [-> | (new & -> & Hn & Hc & Hacc)]).
  - now split.
  - exists new. now repeat split.
Qed.

Lemma simple_lines_all_or_nothing_witness :
  exists new w',
    SimpleDemo.synthesize_lines 2 steady_voice (MMSTTSEngine.init steady_voice)
      1 7 SimpleDemo.LINES [] empty_world = (Ok (Demo.Fallthrough new), w') /\
    length new = 7%nat /\ Forall accepted new /\ files w' = [].
Proof.
  destruct (steady_lines 0 SimpleDemo.LINES 1 7 [] empty_world
              steady_lines_of_demo eq_refl) as (w' & Hrun & _).
  pose proof (simple_lines_all_or_nothing 2 steady_voice (MMSTTSEngine.init steady_voice)
                1 7 SimpleDemo.LINES [] empty_world (fun k _ => eq_refl)) as H.
  rewrite Hrun in H. destruct H as (new & Hout & Hn & Hacc & Hf & _).
  eexists _, w'. split; [exact Hrun|]. rewrite Hout. now repeat split.
Defined.

(** X17.  The loop over the lines of [multilang_demo] is all or nothing:
    it never raises; it either gives up with [return 1] at the first
    line that fails, or appends one segment per line, in order, each
    with a rate that is not zero and samples within 0.8.  Either way the
    sound files are as before: every temporary file is gone. *)
Theorem multilang_lines_all_or_nothing (depth : nat) (M : models)
  (engine : MMSTTSEngine.t) (voice_files : list string)
  (i n : nat) (lines : list (string * string)) (segments : list Demo.segment)
  (w : world) :
  temps_unused w ->
  match MultilangDemo.synthesize_lines depth M engine voice_files i n lines segments w with
  | (Ok (Demo.Fallthrough out), w') =>
      exists new,
        out = (segments ++ new)%list /\ length new = length lines /\
        Forall accepted new /\
        files w' = files w /\ tmp_count w' = (tmp_count w + length lines)%nat
  | (Ok (Demo.Return code), w') => code = 1%Z /\ files w' = files w
  | (Raise e, w') => False
  end.
Proof.
  intro Hw.
  destruct (multilang_lines_cases depth M engine voice_files i n lines segments w Hw)
    as (w' & Hf & [-> | (new & -> & Hn & Hc & Hacc)]).
  - now split.
  - exists new. now repeat split.
Qed.

Lemma multilang_lines_all_or_nothing_witness :
  exists new w',
    MultilangDemo.synthesize_lines 2 yoruba_only (MMSTTSEngine.init yoruba_only)
      ["voice.wav"] 1 1 [("yor", "Sannu")] [] empty_world =
    (Ok (Demo.Fallthrough new), w') /\
    length new = 1%nat /\ Forall accepted new /\ files w' = [].
Proof.
  pose proof (multilang_lines_all_or_nothing 2 yoruba_only (MMSTTSEngine.init yoruba_only)
                ["voice.wav"] 1 1 [("yor", "Sannu")] [] empty_world
                (fun k _ => eq_refl)) as H.
  destruct (multilang_segment_yor 1 yoruba_only (MMSTTSEngine.init yoruba_only)
              ["voice.wav"] "Sannu" [(1 / 2)%R] (Some 16000%Z) empty_world
              eq_refl eq_refl eq_refl)
    as (limited & trimmed & _ & _ & Hseg).
  rewrite (multilang_lines_cons_ok _ _ _ _ _ _ _ _ _ _ _ _ _ _ Hseg ltac:(discriminate))
    in H.
  cbn [MultilangDemo.synthesize_lines ret] in H.
  destruct H as (new & Hout & Hn & Hacc & Hf & _).
  eexists _, _. split.
  - rewrite (multilang_lines_cons_ok _ _ _ _ _ _ _ _ _ _ _ _ _ _ Hseg ltac:(discriminate)).
    reflexivity.
  - rewrite Hout. now repeat split.
Defined.

Lemma yoruba_needs_model (M : models) :
  hf_loads M "facebook/mms-tts-yor" = false ->
  MMSTTSEngine.is_language_supported (MMSTTSEngine.init M) "yor" = false.
Proof.
  intro Hload.
  destruct (MMSTTSEngine.is_language_supported (MMSTTSEngine.init M) "yor") eqn:E;
    [|reflexivity].
  apply init_supported_iff in E.
  apply (detected_iff _ _ _ model_map_keys_distinct) in E.
  destruct E as (name & Hname & Hl). simpl in Hname. injection Hname as <-.
  congruence.
Qed.

(** X20.  Without the Yoruba model [simple_demo] gives up at its first line,
    which is English: [main] prints the error and returns 1, having
    created no file. *)
Theorem simple_main_needs_yoruba (depth : nat) (M : models) (w : world) :
  hf_loads M "facebook/mms-tts-yor" = false ->
  exists text rest,
    SimpleDemo.LINES = ("en", text) :: rest /\
    SimpleDemo.main (S depth) M w =
    (Ok 1%Z,
     printed w [MsgBanner; MsgInitializing;
                MsgAvailable (MMSTTSEngine._available_languages (MMSTTSEngine.init M));
                MsgSynthesizingN 7;
                MsgSynthesizing "en" (substring 0 50 text);
                MsgSegmentError "en"
                  (ValueError "No MMS models available for synthesis")]).
Proof.
  intro Hload. pose proof (yoruba_needs_model M Hload) as Hyor.
  eexists _, _. split; [reflexivity|].
  unfold SimpleDemo.main. rewrite !bind_print.
  unfold SimpleDemo.LINES.
  match goal with
  | |- bind (SimpleDemo.synthesize_lines _ _ _ _ _ ((_, ?text) :: _) _) _ ?w0 = _ =>
      assert (Hseg : SimpleDemo.synthesize_segment (S depth) M text "en"
                       (MMSTTSEngine.init M) w0 =
                     (Raise (ValueError "No MMS models available for synthesis"),
                      printed w0 [MsgSynthesizing "en" (substring 0 50 text)]))
        by (rewrite Fallback.simple_segment_unfold;
            change (String.eqb "en" "en") with true; cbv iota;
            rewrite Hyor; reflexivity)
  end.
  rewrite (bind_run _ _ _ _ _ (simple_lines_cons_raise _ _ _ _ _ _ _ _ _ _ _ _ Hseg)).
  rewrite !printed_printed. reflexivity.
Qed.

Lemma simple_main_needs_yoruba_witness :
  fst (SimpleDemo.main 1000 no_models empty_world) = Ok 1%Z /\
  files (snd (SimpleDemo.main 1000 no_models empty_world)) = [].
Proof.
  destruct (simple_main_needs_yoruba 999 no_models empty_world eq_refl)
    as (text & rest & _ & ->).
  split; reflexivity.
Defined.

(** X21.  [multilang_demo] needs the voice cloning for its first line, which
    is English: when XTTS fails on every English request, [main] returns
    1 and leaves the sound files as they were. *)
Theorem multilang_main_needs_xtts (depth : nat) (M : models) (voice_files : list string)
  (w : world) :
  (forall text speaker, exists e, xtts_run M text speaker "en" 22050 = Raise e) ->
  fst (MultilangDemo.main depth M voice_files w) = Ok 1%Z /\
  files (snd (MultilangDemo.main depth M voice_files w)) = files w.
Proof.
  intro Hx. unfold MultilangDemo.main. rewrite !bind_print.
  destruct voice_files as [|v vs] eqn:Hvf; [now split|].
  rewrite <- Hvf. rewrite bind_print. unfold MultilangDemo.LINES.
  match goal with
  | |- context [bind (MultilangDemo.synthesize_lines _ _ _ _ _ _ ((_, ?text) :: _) _)
                  _ ?w0] =>
      assert (Hseg : exists e w1,
                MultilangDemo.synthesize_segment depth M text "en"
                  (MMSTTSEngine.init M) voice_files w0 = (Raise e, w1) /\
                files w1 = files w)
  end.
  { destruct depth as [|depth]; [eexists _, _; split; reflexivity|].
    rewrite multilang_segment_unfold.
    change (String.eqb "en" "en") with true. cbv iota. rewrite Hvf, <- Hvf.
    match goal with
    | |- context [bind (XTTSEngine.synthesize_to_wav M ?text _ _ _) _ ?w1] =>
        destruct (xtts_synthesize_cases M text voice_files "en" 22050 w1)
          as [(e & c & H) | (speaker0 & others & f & limited & k &
                             _ & _ & _ & Hrun & _)]
    end.
    - rewrite (bind_raise _ _ _ _ _ H). eexists _, _. split; reflexivity.
    - match type of Hrun with
      | xtts_run _ ?t _ _ _ = _ => destruct (Hx t speaker0) as (e & He)
      end.
      rewrite He in Hrun. discriminate. }
  destruct Hseg as (e & w1 & Hseg & Hf).
  rewrite (bind_run _ _ _ _ _
             (multilang_lines_cons_raise _ _ _ _ _ _ _ _ _ _ _ _ _ Hseg)).
  split; [reflexivity | exact Hf].
Qed.

Lemma multilang_main_needs_xtts_witness :
  fst (MultilangDemo.main 1000 yoruba_only ["voice.wav"] empty_world) = Ok 1%Z /\
  files (snd (MultilangDemo.main 1000 yoruba_only ["voice.wav"] empty_world)) = [].
Proof.
  apply (multilang_main_needs_xtts 1000 yoruba_only ["voice.wav"] empty_world).
  intros text speaker. now eexists.
Defined.

End Programs.

(* ================================================================== *)
(** * The demo and its test suite *)

Module Acceptance.

Import Engines IOFacts EngineFacts Segments Programs.
Local Open Scope string_scope.

(** *** A run of [multilang_demo] that succeeds *)

Lemma xtts_synthesize_ok (M : models) (text speaker0 : string) (others : list string)
  (language : string) (sample_rate : Z) (f : wav) (limited trimmed : Np.ndarray)
  (w : world) :
  blank text = false ->
  (forall p, In p (speaker0 :: others) -> lookup_file p (files w) <> None) ->
  xtts_run M text speaker0 language sample_rate = Ok f ->
  _soft_limit (wav_audio f) TARGET_PEAK = Ok limited ->
  _trim_trailing_silence limited (wav_sr f) default_thresh default_max_ms = Ok trimmed ->
  XTTSEngine.synthesize_to_wav M text (speaker0 :: others) language sample_rate w =
  (Ok (tmp_name (tmp_count w)),
   written
     (written (World (stdout w) (files w) (S (tmp_count w)))
        (tmp_name (tmp_count w)) (wav_audio f) (wav_sr f))
     (tmp_name (tmp_count w)) trimmed (wav_sr f)).
Proof.
  intros Hb Hex Hrun Hl Ht.
  unfold XTTSEngine.synthesize_to_wav. rewrite Hb.
  cbv beta iota delta [bind lift mkstemp]. rewrite !check_speakers_run.
  assert (Hall : forallb (fun p => match lookup_file p (files w) with
                                   | Some _ => true
                                   | None => false
                                   end) (speaker0 :: others) = true).
  { apply forallb_forall. intros p Hp. specialize (Hex p Hp).
    now destruct (lookup_file p (files w)). }
  rewrite Hall. cbv beta iota. rewrite Hrun.
  cbv beta iota delta [sf_write sf_read]. simpl lookup_file.
  rewrite !String.eqb_refl. cbv beta iota delta [fst snd].
  destruct f as [faudio fsr]. simpl wav_audio in *. simpl wav_sr in *.
  rewrite Hl, Ht. reflexivity.
Qed.

Lemma studio_temp (k : nat) : lookup_file (tmp_name k) (files studio) = None.
Proof. destruct k; reflexivity. Qed.

Lemma studio_temps_unused (w : world) : files w = files studio -> temps_unused w.
Proof. intros Hf k _. rewrite Hf. apply studio_temp. Qed.

Lemma trim_steady (n : nat) :
  _trim_trailing_silence (repeat steady_sample (S n)) 5 default_thresh default_max_ms =
  Ok (repeat steady_sample (S n)).
Proof.
  assert (Hsplit : repeat steady_sample (S n) = (repeat steady_sample n ++ [steady_sample])%list)
    by (simpl; apply repeat_cons).
  rewrite Hsplit. apply trim_ends_loud; [|discriminate].
  pose proof steady_sample_loud. unfold default_thresh. rewrite Rabs_pos_eq; lra.
Qed.

Lemma cloned_segment (depth : nat) (text language : string) (w : world) :
  blank text = false ->
  files w = files studio ->
  exists w',
    MultilangDemo.synthesize_segment (S (S depth)) cloned_voice text language
      (MMSTTSEngine.init cloned_voice) ["voice.wav"] w =
    (Ok (repeat steady_sample 25, 5%Z), w') /\
    files w' = files studio.
Proof.
  intros Hb Hfiles.
  assert (Hdirect : forall w0, files w0 = files studio ->
            exists w',
              bind (XTTSEngine.synthesize_to_wav cloned_voice text ["voice.wav"] "en" 22050)
                MultilangDemo.read_and_unlink w0 =
              (Ok (repeat steady_sample 25, 5%Z), w') /\ files w' = files studio).
  { intros w0 Hf0. eexists.
    rewrite (bind_run _ _ _ _ _
               (xtts_synthesize_ok cloned_voice text "voice.wav" [] "en" 22050
                  (Wav (repeat (1 / 2)%R 25) 5) _ _ w0 Hb
                  ltac:(intros p [<- | []]; rewrite Hf0; discriminate)
                  eq_refl (soft_limit_steady 24) (trim_steady 24))).
    rewrite read_and_unlink_written. split; [reflexivity|].
    cbn [files written wav_audio wav_sr]. cbn [remove_file].
    rewrite String.eqb_refl.
    assert (Hfresh : lookup_file (tmp_name (tmp_count w0)) (files w0) = None)
      by (rewrite Hf0; apply studio_temp).
    rewrite !(remove_absent _ _ Hfresh). exact Hf0. }
  destruct (String.eqb language "en") eqn:Hen.
  - apply String.eqb_eq in Hen. subst language.
    rewrite multilang_segment_unfold.
    destruct (Hdirect (printed w [MsgSynthesizing "en" (substring 0 50 text)]) Hfiles)
      as (w' & H & Hf).
    exists w'. split; [exact H | exact Hf].
  - apply String.eqb_neq in Hen.
    assert (Hs : MMSTTSEngine.is_language_supported (MMSTTSEngine.init cloned_voice)
                   language = false) by reflexivity.
    rewrite (Fallback.multilang_segment_fallback _ _ _ _ _ _ _ Hen Hs).
    rewrite multilang_segment_unfold.
    destruct (Hdirect
                (printed (printed w [MsgSynthesizing language (substring 0 50 text);
                                     MsgFallback language "English"])
                   [MsgSynthesizing "en" (substring 0 50 text)]) Hfiles)
      as (w' & H & Hf).
    exists w'. split; [exact H | exact Hf].
Qed.

Lemma cloned_lines (depth : nat) (lines : list (string * string)) (i n : nat)
  (segments : list Demo.segment) (w : world) :
  Forall (fun line : string * string => blank (snd line) = false) lines ->
  files w = files studio ->
  exists w',
    MultilangDemo.synthesize_lines (S (S depth)) cloned_voice
      (MMSTTSEngine.init cloned_voice) ["voice.wav"] i n lines segments w =
    (Ok (Demo.Fallthrough
           (segments ++ map (fun _ => (repeat steady_sample 25, 5%Z)) lines)%list), w') /\
    files w' = files studio.
Proof.
  intro Hall. revert i segments w.
  induction Hall as [|[lang text] rest Hb _ IH]; intros i segments w Hf.
  { exists w. simpl. now rewrite app_nil_r. }
  destruct (cloned_segment depth text lang w Hb Hf) as (w1 & H & Hf1).
  rewrite (multilang_lines_cons_ok _ _ _ _ _ _ _ _ _ _ _ _ _ _ H ltac:(discriminate)).
  match goal with
  | |- exists w', MultilangDemo.synthesize_lines _ _ _ _ _ _ _ ?segs ?w0 = _ /\ _ =>
      destruct (IH (S i) segs w0 Hf1) as (w' & Hrun & Hf')
  end.
  exists w'. split; [|exact Hf'].
  rewrite Hrun. now rewrite <- app_assoc.
Qed.

Lemma cloned_main (depth : nat) (w : world) :
  files w = files studio ->
  exists w' y,
    MultilangDemo.main (S (S depth)) cloned_voice ["voice.wav"] w = (Ok 0%Z, w') /\
    lookup_file Demo.output_path (files w') = Some (Wav y 5%Z).
Proof.
  intro Hfiles.
  unfold MultilangDemo.main. rewrite !bind_print.
  set (w0 := printed _ [MsgSynthesizingN _]).
  assert (Hlines : Forall (fun line : string * string => blank (snd line) = false)
                     MultilangDemo.LINES).
  { unfold MultilangDemo.LINES.
    repeat (apply Forall_cons; [vm_compute; reflexivity|]). apply Forall_nil. }
  destruct (cloned_lines depth MultilangDemo.LINES 1 (length MultilangDemo.LINES) [] w0
              Hlines Hfiles) as (w1 & H & Hf).
  rewrite (bind_run _ _ _ _ _ H). cbv beta iota.
  unfold Demo.assemble_and_finalize.
  simpl app. simpl map.
  match goal with
  | |- exists w' y, bind (Demo.assemble ((?a, ?t) :: ?rest)) _ _ = _ /\ _ =>
      assert (Hrest : Forall (fun seg : Demo.segment => snd seg = t) rest)
        by (repeat constructor);
      rewrite (bind_run _ _ _ _ _ (Assembly.assemble_same_rate a t rest w1 Hrest))
  end.
  cbv beta iota.
  destruct (steady_finalize 149 (printed w1 [MsgConcatenating]) ltac:(lia))
    as (w' & y & Hrun & Hfile).
  exists w', y. split; [exact Hrun | exact Hfile].
Qed.

Lemma multilang_main_outcome_witness :
  exists w' y target_sr,
    MultilangDemo.main 2 cloned_voice ["voice.wav"] studio = (Ok 0%Z, w') /\
    lookup_file Demo.output_path (files w') = Some (Wav y target_sr) /\
    duration_ok (IZR (Z.of_nat (length y)) / IZR target_sr) /\
    lookup_file "voice.wav" (files w') = lookup_file "voice.wav" (files studio).
Proof.
  destruct (cloned_main 0 studio eq_refl) as (w' & y0 & Hrun & _).
  pose proof (multilang_main_outcome 2 cloned_voice ["voice.wav"] studio
                (studio_temps_unused studio eq_refl)) as H.
  rewrite Hrun in H. destruct H as (_ & Hother & H).
  destruct (H eq_refl) as (_ & y & target_sr & Hfile & Hd & _).
  exists w', y, target_sr.
  split; [exact Hrun|]. split; [exact Hfile|]. split; [exact Hd|].
  apply Hother. discriminate.
Defined.

(** *** The audio checks of tests/test_demo_audio.py *)

Lemma audio_checks (w : world) (y : Np.ndarray) (sr : Z) :
  lookup_file Demo.output_path (files w) = Some (Wav y sr) ->
  sr <> 0%Z ->
  duration_ok (IZR (Z.of_nat (length y)) / IZR sr) ->
  Forall (fun v => (Rabs v <= 0.9)%R) y ->
  short_tail y sr ->
  TestDemoAudio.test_demo_duration w = TestDemoAudio.Passed /\
  TestDemoAudio.test_demo_no_clipping w = TestDemoAudio.Passed /\
  TestDemoAudio.test_demo_peak_level w = TestDemoAudio.Passed /\
  ((5 <= sr)%Z -> TestDemoAudio.test_demo_tail_silence w = TestDemoAudio.Passed).
Proof.
  intros Hfile Hsr Hd Hy Htail.
  assert (Hne : y <> []).
  { intros ->. unfold duration_ok in Hd. simpl in Hd. unfold Rdiv in Hd.
    rewrite Rmult_0_l in Hd. lra. }
  destruct (NpFacts.max_ok (Np.abs y)) as (m & Hmax).
  { intro H. now apply NpFacts.abs_nil_inv in H. }
  destruct (NpFacts.max_abs_spec _ _ Hmax) as (Hm0 & (v0 & Hin0 & Hv0) & _).
  assert (Hm9 : (m <= 0.9)%R).
  { rewrite <- Hv0. rewrite Forall_forall in Hy. now apply Hy. }
  unfold TestDemoAudio.test_demo_duration, TestDemoAudio.test_demo_no_clipping,
    TestDemoAudio.test_demo_peak_level, TestDemoAudio.test_demo_tail_silence,
    TestDemoAudio.with_demo_file.
  rewrite Hfile. cbn [wav_audio wav_sr].
  rewrite (Validation.py_div_ok _ _ Hsr), Hmax.
  split.
  { destruct Hd as [Hd1 Hd2].
    now rewrite (NpFacts.leb_true _ _ Hd1), (NpFacts.leb_true _ _ Hd2). }
  split.
  { rewrite NpFacts.ltb_true by lra. reflexivity. }
  split.
  { rewrite NpFacts.leb_true; [reflexivity|].
    apply Decibel.level_le_half_dB. lra. }
  intro H5. cbv zeta.
  fold (loud 1e-3 y).
  destruct (Np.where_true (loud 1e-3 y)) as [|i idx] eqn:E; [reflexivity|].
  assert (Hnz : Np.where_true (loud 1e-3 y) <> []) by (rewrite E; discriminate).
  rewrite <- E.
  replace (0 <? Z.of_nat (length (Np.where_true (loud 1e-3 y))))%Z with true
    by (symmetry; apply Z.ltb_lt; rewrite E; simpl; lia).
  rewrite (Trim.last_item_ok _ Hnz).
  pose proof (Htail H5 _ (Trim.last_item_ok _ Hnz)) as Ht.
  set (lx := last (Np.where_true (loud 1e-3 y)) 0%nat) in *.
  rewrite (Validation.py_div_ok _ _ Hsr).
  rewrite NpFacts.leb_true; [reflexivity|].
  assert (Hq : (5 * int_div sr 5 <= sr)%Z)
    by (unfold int_div; apply Z.mul_quot_le; lia).
  assert (H1 : (5 * IZR (Z.of_nat (length y) - Z.of_nat lx) <= IZR sr)%R).
  { rewrite <- mult_IZR. apply IZR_le. lia. }
  assert (H2 : (5 <= IZR sr)%R) by (apply IZR_le; exact H5).
  apply (Rmult_le_reg_r (IZR sr)); [lra|].
  unfold Rdiv. rewrite Rmult_assoc, Rinv_l by lra. lra.
Qed.

Lemma temps_unused_without_demo_file (w : world) :
  temps_unused w -> temps_unused (without_demo_file w).
Proof.
  intros Hw k Hk. unfold without_demo_file in *.
  destruct (lookup_file Demo.output_path (files w)) eqn:E; [|now apply Hw].
  simpl in *.
  destruct (String.eqb (tmp_name k) Demo.output_path) eqn:Hp.
  - apply String.eqb_eq in Hp. rewrite Hp. apply lookup_removed.
  - apply String.eqb_neq in Hp. rewrite (lookup_remove_other _ _ _ Hp). now apply Hw.
Qed.

(** The full test on a run of the demo that returned 0. *)
Lemma full_test_after_success (generate_demo : IO Z) (w w' : world)
  (y : Np.ndarray) (sr : Z) :
  generate_demo (without_demo_file w) = (Ok 0%Z, w') ->
  lookup_file Demo.output_path (files w') = Some (Wav y sr) ->
  sr <> 0%Z ->
  duration_ok (IZR (Z.of_nat (length y)) / IZR sr) ->
  Forall (fun v => (Rabs v <= 0.9)%R) y ->
  fst (TestDemoAudio.test_full_demo_generation generate_demo w) =
  if TestDemoAudio.acceptable_rate sr
  then TestDemoAudio.Passed
  else TestDemoAudio.Failed "Invalid sample rate".
Proof.
  intros Hrun Hfile Hsr Hd Hy.
  assert (Hne : y <> []).
  { intros ->. unfold duration_ok in Hd. simpl in Hd. unfold Rdiv in Hd.
    rewrite Rmult_0_l in Hd. lra. }
  destruct (NpFacts.max_ok (Np.abs y)) as (m & Hmax).
  { intro H. now apply NpFacts.abs_nil_inv in H. }
  destruct (NpFacts.max_abs_spec _ _ Hmax) as (Hm0 & (v0 & Hin0 & Hv0) & _).
  assert (Hm9 : (m <= 0.9)%R).
  { rewrite <- Hv0. rewrite Forall_forall in Hy. now apply Hy. }
  unfold TestDemoAudio.test_full_demo_generation.
  fold (without_demo_file w). cbv zeta. rewrite Hrun.
  change (negb (0 =? 0)%Z) with false. cbv iota.
  rewrite Hfile. cbn [wav_audio wav_sr].
  rewrite (Validation.py_div_ok _ _ Hsr), Hmax.
  destruct Hd as [Hd1 Hd2].
  rewrite (NpFacts.leb_true _ _ Hd1), (NpFacts.leb_true _ _ Hd2).
  rewrite NpFacts.ltb_true by lra.
  rewrite NpFacts.leb_true by (apply Decibel.level_le_half_dB; lra).
  cbn [andb negb].
  now destruct (TestDemoAudio.acceptable_rate sr).
Qed.

(** X22.  After a run of [multilang_demo] that returns 0, the tests of the
    demo file on duration, clipping and peak level pass, the test on
    trailing silence passes when the rate is at least 5 Hz, and the test
    on the sample rate passes exactly when the rate of the first
    segment, which [main] does not check, is one of 16000, 22050 and
    24000. *)
Theorem audio_tests_pass_after_successful_run (depth : nat) (M : models)
  (voice_files : list string) (w w' : world) :
  temps_unused w ->
  MultilangDemo.main depth M voice_files w = (Ok 0%Z, w') ->
  exists y sr,
    lookup_file Demo.output_path (files w') = Some (Wav y sr) /\
    TestDemoAudio.test_demo_duration w' = TestDemoAudio.Passed /\
    TestDemoAudio.test_demo_no_clipping w' = TestDemoAudio.Passed /\
    TestDemoAudio.test_demo_peak_level w' = TestDemoAudio.Passed /\
    ((5 <= sr)%Z -> TestDemoAudio.test_demo_tail_silence w' = TestDemoAudio.Passed) /\
    (TestDemoAudio.test_demo_sample_rate w' = TestDemoAudio.Passed <->
     sr = 16000%Z \/ sr = 22050%Z \/ sr = 24000%Z).
Proof.
  intros Hw Hrun.
  destruct (multilang_main_cases depth M voice_files w Hw)
    as (w1 & _ & [(y & sr & H & _ & Hfile & Hd & Hy & Ht & Hsr) | [H | (e & H & _)]]);
    rewrite H in Hrun; try discriminate.
  injection Hrun as <-.
  exists y, sr. split; [exact Hfile|].
  destruct (audio_checks w1 y sr Hfile Hsr Hd Hy Ht) as (H1 & H2 & H3 & H4).
  repeat (split; [assumption|]).
  unfold TestDemoAudio.test_demo_sample_rate, TestDemoAudio.with_demo_file.
  rewrite Hfile. cbn [wav_sr]. unfold TestDemoAudio.acceptable_rate.
  destruct (sr =? 16000)%Z eqn:E1; [apply Z.eqb_eq in E1; cbn; intuition|].
  destruct (sr =? 22050)%Z eqn:E2; [apply Z.eqb_eq in E2; cbn; intuition|].
  destruct (sr =? 24000)%Z eqn:E3; [apply Z.eqb_eq in E3; cbn; intuition|].
  apply Z.eqb_neq in E1, E2, E3. cbn. split; [discriminate | intuition].
Qed.

Lemma audio_tests_pass_after_successful_run_witness :
  exists w',
    MultilangDemo.main 2 cloned_voice ["voice.wav"] studio = (Ok 0%Z, w') /\
    TestDemoAudio.test_demo_duration w' = TestDemoAudio.Passed /\
    TestDemoAudio.test_demo_no_clipping w' = TestDemoAudio.Passed /\
    TestDemoAudio.test_demo_peak_level w' = TestDemoAudio.Passed /\
    TestDemoAudio.test_demo_tail_silence w' = TestDemoAudio.Passed /\
    TestDemoAudio.test_demo_sample_rate w' <> TestDemoAudio.Passed.
Proof.
  destruct (cloned_main 0 studio eq_refl) as (w' & y & Hrun & Hfile).
  destruct (audio_tests_pass_after_successful_run 2 cloned_voice ["voice.wav"] studio w'
              (studio_temps_unused studio eq_refl) Hrun)
    as (y' & sr & Hfile' & H1 & H2 & H3 & H4 & H5).
  rewrite Hfile in Hfile'. injection Hfile' as <- <-.
  exists w'. split; [exact Hrun|].
  repeat (split; [assumption|]).
  split; [apply H4; lia|].
  intro H. apply H5 in H. lia.
Defined.

(** X23.  [test_full_demo_generation] against [multilang_demo]: it is skipped
    when [main] does not return 0, ends with the [ValueError] when
    [main] raises one, and after a run that returns 0 every assertion on
    existence, duration, clipping and peak level holds, so that the test
    passes exactly when the rate is one of 16000, 22050 and 24000 and
    fails on the sample-rate assertion otherwise. *)
Theorem full_demo_test_outcome (depth : nat) (M : models) (voice_files : list string)
  (w : world) :
  temps_unused w ->
  match MultilangDemo.main depth M voice_files (without_demo_file w) with
  | (Ok code, w') =>
      if (code =? 0)%Z
      then exists y sr,
             lookup_file Demo.output_path (files w') = Some (Wav y sr) /\
             fst (TestDemoAudio.test_full_demo_generation
                    (MultilangDemo.main depth M voice_files) w) =
             if TestDemoAudio.acceptable_rate sr
             then TestDemoAudio.Passed
             else TestDemoAudio.Failed "Invalid sample rate"
      else fst (TestDemoAudio.test_full_demo_generation
                  (MultilangDemo.main depth M voice_files) w) = TestDemoAudio.Skipped
  | (Raise e, w') =>
      fst (TestDemoAudio.test_full_demo_generation
             (MultilangDemo.main depth M voice_files) w) = TestDemoAudio.Errored e /\
      value_error e
  end.
Proof.
  intro Hw.
  destruct (multilang_main_cases depth M voice_files (without_demo_file w)
              (temps_unused_without_demo_file w Hw))
    as (w1 & _ & [(y & sr & H & _ & Hfile & Hd & Hy & Ht & Hsr) | [H | (e & H & He)]]).
  - rewrite H. cbn [Z.eqb]. exists y, sr. split; [exact Hfile|].
    exact (full_test_after_success _ w w1 y sr H Hfile Hsr Hd Hy).
  - rewrite H. cbn [Z.eqb Pos.eqb].
    unfold TestDemoAudio.test_full_demo_generation.
    fold (without_demo_file w). cbv zeta. rewrite H. reflexivity.
  - rewrite H. split; [|exact He].
    unfold TestDemoAudio.test_full_demo_generation.
    fold (without_demo_file w). cbv zeta. rewrite H. reflexivity.
Qed.

Lemma full_demo_test_outcome_witness :
  fst (TestDemoAudio.test_full_demo_generation
         (MultilangDemo.main 2 cloned_voice ["voice.wav"]) studio) =
  TestDemoAudio.Failed "Invalid sample rate".
Proof.
  destruct (cloned_main 0 (without_demo_file studio) eq_refl) as (w' & y & Hrun & Hfile).
  pose proof (full_demo_test_outcome 2 cloned_voice ["voice.wav"] studio
                (studio_temps_unused studio eq_refl)) as H.
  rewrite Hrun in H. cbn [Z.eqb] in H.
  destruct H as (y' & sr & Hfile' & H).
  rewrite Hfile in Hfile'. injection Hfile' as <- <-.
  exact H.
Defined.

(** X24.  The two tests that only ask for a result cannot fail against
    [multilang_demo]: [test_demo_generation_succeeds] passes exactly
    when [main] returns (its codes are 0 and 1, so the assertion holds)
    and is skipped when [main] raises; [test_demo_file_exists] never
    reaches a failing assertion, because a run that returns 0 has
    written the file. *)
Theorem existence_tests_cannot_fail (depth : nat) (M : models)
  (voice_files : list string) (w : world) :
  temps_unused w ->
  (fst (TestDemoAudio.test_demo_generation_succeeds
          (MultilangDemo.main depth M voice_files) w) =
   match fst (MultilangDemo.main depth M voice_files w) with
   | Ok _ => TestDemoAudio.Passed
   | Raise _ => TestDemoAudio.Skipped
   end) /\
  (forall message,
     fst (TestDemoAudio.test_demo_file_exists
            (MultilangDemo.main depth M voice_files) w) <>
     TestDemoAudio.Failed message).
Proof.
  intro Hw.
  unfold TestDemoAudio.test_demo_generation_succeeds, TestDemoAudio.test_demo_file_exists.
  destruct (multilang_main_cases depth M voice_files w Hw)
    as (w1 & _ & [(y & sr & H & _ & Hfile & _) | [H | (e & H & He)]]);
    rewrite H; (split; [reflexivity|]); intro message;
    destruct (lookup_file Demo.output_path (files w)); try discriminate.
  cbn [Z.eqb negb]. rewrite Hfile. discriminate.
Qed.

Lemma existence_tests_cannot_fail_witness :
  fst (TestDemoAudio.test_demo_generation_succeeds
         (MultilangDemo.main 2 cloned_voice ["voice.wav"]) studio) =
  TestDemoAudio.Passed /\
  fst (TestDemoAudio.test_demo_file_exists
         (MultilangDemo.main 2 cloned_voice ["voice.wav"]) studio) =
  TestDemoAudio.Passed.
Proof.
  destruct (cloned_main 0 studio eq_refl) as (w' & y & Hrun & Hfile).
  destruct (existence_tests_cannot_fail 2 cloned_voice ["voice.wav"] studio
              (studio_temps_unused studio eq_refl)) as (H1 & H2).
  rewrite Hrun in H1. split; [exact H1|].
  unfold TestDemoAudio.test_demo_file_exists.
  change (lookup_file Demo.output_path (files studio)) with (@None wav).
  rewrite Hrun. cbn [Z.eqb negb]. now rewrite Hfile.
Defined.

End Acceptance.

(* ================================================================== *)
(** * Resampling and peak limiting in [main] *)

Module Levels.

Import Engines NpFacts IOFacts.
Local Open Scope R_scope.

Lemma ltb_inv (a b : R) : Np.ltb a b = true -> a < b.
Proof. unfold Np.ltb. now destruct (Rlt_dec a b). Qed.

Lemma leb_inv_false (a b : R) : Np.leb a b = false -> b < a.
Proof. unfold Np.leb. destruct (Rle_dec a b); [discriminate | lra]. Qed.

(** A value between two values within the bound is within the bound. *)
Lemma between_bound (y0 y1 t B : R) :
  0 <= t <= 1 -> Rabs y0 <= B -> Rabs y1 <= B -> Rabs (y0 + t * (y1 - y0)) <= B.
Proof.
  intros [Ht0 Ht1] H0 H1.
  assert (Hy0 : - B <= y0 <= B).
  { pose proof (Rle_abs y0). pose proof (Rle_abs (- y0)) as Hn.
    rewrite Rabs_Ropp in Hn. lra. }
  assert (Hy1 : - B <= y1 <= B).
  { pose proof (Rle_abs y1). pose proof (Rle_abs (- y1)) as Hn.
    rewrite Rabs_Ropp in Hn. lra. }
  clear H0 H1. apply Rabs_le. split; nra.
Qed.

Lemma interp_at_bound (v x0 y0 : R) (rest : list (R * R)) (B : R) :
  Rabs y0 <= B ->
  Forall (fun p : R * R => Rabs (snd p) <= B) rest ->
  Rabs (Np.interp_at v x0 y0 rest) <= B.
Proof.
  intros H0 Hrest. revert x0 y0 H0.
  induction Hrest as [|[x1 y1] rest H1 _ IH]; intros x0 y0 H0; [exact H0|].
  simpl in H1. cbn [Np.interp_at].
  destruct (Np.ltb v x1) eqn:Hlt; [|now apply IH].
  destruct (Np.leb v x0) eqn:Hle; [exact H0|].
  apply ltb_inv in Hlt. apply leb_inv_false in Hle.
  replace (y0 + (v - x0) * ((y1 - y0) / (x1 - x0)))
    with (y0 + (v - x0) / (x1 - x0) * (y1 - y0)) by (field; lra).
  apply between_bound; [|assumption|assumption].
  split.
  - apply Rmult_le_pos; [lra|]. left. apply Rinv_0_lt_compat. lra.
  - apply (Rmult_le_reg_r (x1 - x0)); [lra|].
    unfold Rdiv. rewrite Rmult_assoc, Rinv_l by lra. lra.
Qed.

Lemma Forall_combine_snd (P : R -> Prop) (xs ys : list R) :
  Forall P ys -> Forall (fun p : R * R => P (snd p)) (combine xs ys).
Proof.
  intro H. revert xs. induction H as [|y ys Hy _ IH]; intros [|x xs]; simpl;
    constructor; [exact Hy | apply IH].
Qed.

Lemma interp_bound (xs xp fp ys : Np.ndarray) (B : R) :
  Np.interp xs xp fp = Ok ys ->
  Forall (fun v => Rabs v <= B) fp ->
  Forall (fun v => Rabs v <= B) ys /\ length ys = length xs.
Proof.
  unfold Np.interp. destruct xp as [|x0 xp']; [discriminate|].
  destruct fp as [|y0 fp']; [discriminate|].
  destruct (length xp' =? length fp')%nat; [|discriminate].
  intros [= <-] Hfp. inversion Hfp as [|? ? H0 Hfp']; subst.
  split; [|apply length_map].
  apply Forall_forall. intros u Hu. apply in_map_iff in Hu as (v & <- & _).
  apply interp_at_bound; [exact H0|].
  exact (Forall_combine_snd (fun u => Rabs u <= B) xp' fp' Hfp').
Qed.

(** X25.  The resampling step of [main]: a segment at the target rate
    passes unchanged and unannounced; any other segment is announced by
    the warning line, and when it resamples the interpolation never
    leaves the range of the input: a bound on the magnitude of the
    samples is kept. *)
Theorem resample_outcome (target_sr sr : Z) (audio audio' : Np.ndarray) (w w' : world)
  (B : R) :
  Demo.resample target_sr audio sr w = (Ok audio', w') ->
  Forall (fun v => Rabs v <= B) audio ->
  Forall (fun v => Rabs v <= B) audio' /\
  (sr = target_sr -> audio' = audio /\ w' = w) /\
  (sr <> target_sr -> w' = printed w [MsgResampling sr target_sr]).
Proof.
  intros Hrun Hb. unfold Demo.resample in Hrun.
  destruct (sr =? target_sr)%Z eqn:E; cbn [negb] in Hrun.
  - apply Z.eqb_eq in E. injection Hrun as <- <-.
    split; [exact Hb|]. split; [now split | contradiction].
  - apply Z.eqb_neq in E. rewrite bind_print in Hrun.
    cbv beta iota delta [bind lift] in Hrun.
    destruct (py_div target_sr sr) as [ratio | e]; [|discriminate].
    cbv beta iota in Hrun.
    destruct (Np.linspace 0 (INR (length audio))
                (int_div (Z.of_nat (length audio) * target_sr) sr)) as [xs | e] eqn:Hl;
      [|discriminate].
    destruct (Np.interp xs (Np.arange (length audio)) audio) as [ys | e] eqn:Hi;
      [|discriminate].
    injection Hrun as <- <-.
    destruct (interp_bound _ _ _ _ B Hi Hb) as (Hys & Hlen).
    split; [exact Hys|]. split; [contradiction|]. reflexivity.
Qed.

Lemma resample_outcome_witness :
  exists audio' w',
    Demo.resample 22050 [0.25; -0.5] 16000 empty_world = (Ok audio', w') /\
    Forall (fun v => Rabs v <= 0.5) audio' /\
    stdout w' = [MsgResampling 16000 22050].
Proof.
  destruct (Assembly.resample_ok 22050 16000 [0.25; -0.5] empty_world
              ltac:(lia) ltac:(lia) ltac:(discriminate)) as (audio' & w' & Hrun).
  assert (Hb : Forall (fun v => Rabs v <= 0.5) [0.25; -0.5]).
  { apply Forall_cons; [rewrite Rabs_pos_eq; lra|].
    apply Forall_cons; [rewrite Rabs_left; lra | apply Forall_nil]. }
  destruct (resample_outcome 22050 16000 [0.25; -0.5] audio' empty_world w' 0.5 Hrun Hb)
    as (Hall & _ & Hw).
  exists audio', w'. split; [exact Hrun|]. split; [exact Hall|].
  rewrite (Hw ltac:(discriminate)). reflexivity.
Defined.

(** X26.  The peak limiting of [main] is a normalization: audio that is not
    silent comes out with its peak at exactly 0.9, whatever its level
    was (a positive gain on the input changes nothing), and limiting
    the result again changes nothing. *)
Theorem peak_limit_normalizes (final_audio : Np.ndarray) (max_val gain : R) :
  Np.max (Np.abs final_audio) = Ok max_val ->
  0 < max_val ->
  0 < gain ->
  exists y,
    Demo.peak_limit final_audio = Ok y /\
    Np.max (Np.abs y) = Ok 0.9 /\
    Demo.peak_limit (Np.scale final_audio gain) = Ok y /\
    Demo.peak_limit y = Ok y.
Proof.
  intros Hmax Hm Hg.
  exists (Np.scale final_audio (0.9 / max_val)).
  assert (Hc : 0 < 0.9 / max_val).
  { apply Rmult_lt_0_compat; [lra | now apply Rinv_0_lt_compat]. }
  assert (Hmax' : Np.max (Np.abs (Np.scale final_audio (0.9 / max_val))) = Ok 0.9).
  { rewrite (PostProcessing.max_abs_scale _ _ _ Hc Hmax). f_equal. field. lra. }
  split; [now apply Validation.peak_limit_loud|].
  split; [exact Hmax'|]. split.
  - rewrite (Validation.peak_limit_loud _ _
               (PostProcessing.max_abs_scale _ _ _ Hg Hmax))
      by now apply Rmult_lt_0_compat.
    f_equal. unfold Np.scale. rewrite map_map. apply map_ext. intro v. field. lra.
  - rewrite (Validation.peak_limit_loud _ _ Hmax') by lra.
    f_equal. unfold Np.scale. rewrite map_map.
    rewrite <- (map_id final_audio) at 2. rewrite map_map.
    apply map_ext. intro v. field. lra.
Qed.

Lemma peak_limit_normalizes_witness :
  exists y,
    Demo.peak_limit [0.25; -0.5] = Ok y /\
    Np.max (Np.abs y) = Ok 0.9 /\
    Demo.peak_limit (Np.scale [0.25; -0.5] 3) = Ok y /\
    Demo.peak_limit y = Ok y.
Proof.
  apply (peak_limit_normalizes [0.25; -0.5] 0.5 3); [|lra|lra].
  simpl. rewrite (Rabs_pos_eq 0.25), (Rabs_left (-0.5)) by lra.
  f_equal. rewrite Rmax_right; lra.
Defined.

End Levels.

(* ================================================================== *)
(** * Text normalization and the [/speak] endpoint *)

Module Normalization.

Import Engines IOFacts EngineFacts.
Local Open Scope string_scope.

Lemma lstrip_headed (t : list ascii) : headed (TextNorm.lstrip t).
Proof.
  induction t as [|c t IH]; simpl; [exact I|].
  destruct (is_space c) eqn:E; [exact IH | exact E].
Qed.

Lemma lstrip_suffix (t : list ascii) : exists s, t = (s ++ TextNorm.lstrip t)%list.
Proof.
  induction t as [|c t (s & IH)]; [now exists []|]. simpl.
  destruct (is_space c).
  - exists (c :: s). simpl. now rewrite <- IH.
  - now exists [].
Qed.

Lemma headed_prefix (r s : list ascii) : headed (r ++ s)%list -> r <> [] -> headed r.
Proof. destruct r; [contradiction | intros H _; exact H]. Qed.

Lemma strip_headed (t : list ascii) : headed (TextNorm.strip t).
Proof.
  unfold TextNorm.strip.
  destruct (lstrip_suffix (rev (TextNorm.lstrip t))) as (s & Hs).
  set (r := rev (TextNorm.lstrip (rev (TextNorm.lstrip t)))).
  assert (Hr : TextNorm.lstrip t = (r ++ rev s)%list).
  { rewrite <- (rev_involutive (TextNorm.lstrip t)), Hs, rev_app_distr. reflexivity. }
  destruct r as [|c r'] eqn:E; [exact I|].
  apply (headed_prefix _ (rev s)); [|discriminate].
  rewrite <- Hr. apply lstrip_headed.
Qed.

Lemma spaces_sub_headed (t : list ascii) : headed t -> headed (TextNorm.spaces_sub false t).
Proof. destruct t as [|c t]; [trivial|]. simpl. intro H. now rewrite H. Qed.

Lemma dup_punct_sub_headed (t : list ascii) :
  headed t -> headed (TextNorm.dup_punct_sub None t).
Proof.
  destruct t as [|c t]; [trivial|]. simpl. intro H. now rewrite andb_false_r.
Qed.

Lemma literal_sub_headed (a b t : list ascii) :
  headed b -> b <> [] -> headed t -> headed (TextNorm.literal_sub a b 0 t).
Proof.
  intros Hb Hne Ht. destruct t as [|c t]; [exact I|].
  cbn [TextNorm.literal_sub]. destruct (TextNorm.prefix_ci a (c :: t)); [|exact Ht].
  destruct b as [|b0 b']; [contradiction | exact Hb].
Qed.

Lemma ended_headed (t : list ascii) :
  headed t ->
  headed (if TextNorm.ends_sentence t then t else (t ++ ["."%char])%list) /\
  (if TextNorm.ends_sentence t then t else (t ++ ["."%char])%list) <> [].
Proof.
  intro H. destruct t as [|c t].
  - split; [reflexivity | discriminate].
  - destruct (TextNorm.ends_sentence (c :: t)); split; try exact H; discriminate.
Qed.

Lemma cut_headed (t : list ascii) :
  headed t -> t <> [] ->
  let t' := if (TextNorm.MAX_CHARS <? length t)%nat then firstn TextNorm.MAX_CHARS t else t in
  headed t' /\ t' <> [] /\ (length t' <= TextNorm.MAX_CHARS)%nat /\
  ((length t' < TextNorm.MAX_CHARS)%nat -> t' = t).
Proof.
  intros H Hne. cbv zeta.
  destruct (TextNorm.MAX_CHARS <? length t)%nat eqn:E.
  - apply Nat.ltb_lt in E. destruct t as [|c t]; [contradiction|].
    split; [exact H|]. split; [discriminate|].
    rewrite length_firstn. split; [lia|]. lia.
  - apply Nat.ltb_ge in E. now repeat split.
Qed.

Lemma string_length_of_list (t : list ascii) :
  String.length (string_of_list_ascii t) = length t.
Proof. induction t as [|c t IH]; simpl; [reflexivity | now rewrite IH]. Qed.

Lemma headed_not_blank (t : list ascii) :
  headed t -> t <> [] -> blank (string_of_list_ascii t) = false.
Proof.
  intros H Hne. unfold blank. rewrite list_ascii_of_string_of_list_ascii.
  destruct t as [|c t]; [contradiction|]. simpl in *. now rewrite H.
Qed.

(** The characters of [normalize text] before and after the cut. *)
Lemma normalize_cases (text : string) :
  exists t t',
    TextNorm.normalize text = string_of_list_ascii t' /\
    TextNorm.ends_sentence t = true /\
    headed t' /\ t' <> [] /\ (length t' <= TextNorm.MAX_CHARS)%nat /\
    ((length t' < TextNorm.MAX_CHARS)%nat -> t' = t).
Proof.
  unfold TextNorm.normalize. cbv zeta.
  set (t0 := fold_left _ TextNorm._PIDGIN_COMPOUND _).
  assert (H0 : headed t0).
  { unfold t0, TextNorm._PIDGIN_COMPOUND. cbn [fold_left fst snd].
    apply literal_sub_headed; [reflexivity | discriminate|].
    apply literal_sub_headed; [reflexivity | discriminate|].
    apply dup_punct_sub_headed, spaces_sub_headed, strip_headed. }
  destruct (ended_headed t0 H0) as (H1 & Hne).
  set (t1 := if TextNorm.ends_sentence t0 then t0 else (t0 ++ ["."%char])%list) in *.
  destruct (cut_headed t1 H1 Hne) as (H2 & Hne2 & Hlen & Hsame).
  exists t1. eexists. split; [reflexivity|].
  split; [|now repeat split].
  unfold t1. destruct (TextNorm.ends_sentence t0) eqn:E; [exact E|].
  unfold TextNorm.ends_sentence. now rewrite rev_app_distr.
Qed.

(** X27.  Whatever the text, [normalize] returns between 1 and [MAX_CHARS]
    characters, the first of which is not white space; it never returns
    a text the engines refuse as blank. *)
Theorem normalize_gives_speakable_text (text : string) :
  (1 <= String.length (TextNorm.normalize text) <= TextNorm.MAX_CHARS)%nat /\
  headed (list_ascii_of_string (TextNorm.normalize text)) /\
  blank (TextNorm.normalize text) = false.
Proof.
  destruct (normalize_cases text) as (t & t' & -> & _ & Hh & Hne & Hlen & _).
  rewrite string_length_of_list, list_ascii_of_string_of_list_ascii.
  split; [|split; [exact Hh | now apply headed_not_blank]].
  destruct t'; [contradiction | simpl in *; lia].
Qed.

(** X28.  A normalized text shorter than [MAX_CHARS] ends in a full stop, an
    exclamation mark or a question mark; only the cut at [MAX_CHARS] can
    take the sentence end away. *)
Theorem normalize_ends_sentence (text : string) :
  (String.length (TextNorm.normalize text) < TextNorm.MAX_CHARS)%nat ->
  TextNorm.ends_sentence (list_ascii_of_string (TextNorm.normalize text)) = true.
Proof.
  destruct (normalize_cases text) as (t & t' & -> & He & _ & _ & _ & Hsame).
  rewrite string_length_of_list, list_ascii_of_string_of_list_ascii.
  intro Hlt. now rewrite (Hsame Hlt).
Qed.

Lemma normalize_ends_sentence_witness :
  TextNorm.normalize "  How   you dey??  " = "How you dey?" /\
  TextNorm.ends_sentence (list_ascii_of_string (TextNorm.normalize "  How   you dey??  "))
  = true.
Proof.
  split; [vm_compute; reflexivity|].
  apply (normalize_ends_sentence "  How   you dey??  ").
  vm_compute. lia.
Defined.

(** *** [speak] *)

Lemma speak_chosen (M : models) (DEFAULT_SPEAKER : option string)
  (candidates : list string) (body : App.SpeakIn) (w : world) :
  App.speak M DEFAULT_SPEAKER candidates body w =
  match chosen_speakers DEFAULT_SPEAKER candidates body with
  | [] => (Ok (App.HTTPException 400 App.NoSpeakers), w)
  | speaker0 :: others =>
      try_except
        (bind (XTTSEngine.synthesize_to_wav M (TextNorm.normalize (App.text body))
                 (speaker0 :: others) (App.language body) 24000)
           (fun out_path => bind (App.read_bytes out_path)
                              (fun data => ret (App.Response data))))
        (fun e => ret (App.HTTPException 500 (App.TTSFailed e))) w
  end.
Proof.
  unfold App.speak, chosen_speakers. cbv zeta.
  destruct (App.speaker_files body) as [[|s l]|]; [| reflexivity |];
    (destruct DEFAULT_SPEAKER as [d|]; [destruct (String.eqb d "")|]);
    destruct candidates; reflexivity.
Qed.

(** Why the XTTS [synthesize_to_wav] raises on a text that is not blank
    and a speaker list that is not empty: a speaker file is missing, or
    the model raised. *)
Lemma xtts_raise_cause (M : models) (text speaker0 : string) (others : list string)
  (language : string) (sample_rate : Z) (w w' : world) (e : exn) :
  blank text = false ->
  XTTSEngine.synthesize_to_wav M text (speaker0 :: others) language sample_rate w =
  (Raise e, w') ->
  (e = FileNotFoundError /\
   exists p, In p (speaker0 :: others) /\ lookup_file p (files w) = None) \/
  xtts_run M text speaker0 language sample_rate = Raise e.
Proof.
  intros Hb. unfold XTTSEngine.synthesize_to_wav. rewrite Hb.
  cbv beta iota delta [bind lift mkstemp]. rewrite !check_speakers_run.
  destruct (forallb _ (speaker0 :: others)) eqn:Hall.
  2:{ intros [= <- <-]. left. split; [reflexivity|].
      destruct (forallb_forall
                  (fun p => match lookup_file p (files w) with
                            | Some _ => true
                            | None => false
                            end) (speaker0 :: others)) as [_ Hback].
      destruct (existsb (fun p => match lookup_file p (files w) with
                                  | Some _ => false
                                  | None => true
                                  end) (speaker0 :: others)) eqn:Hex.
      - apply existsb_exists in Hex. destruct Hex as (p & Hp & Hl).
        exists p. split; [exact Hp|]. now destruct (lookup_file p (files w)).
      - rewrite Hback in Hall; [discriminate|].
        intros p Hp.
        destruct (lookup_file p (files w)) eqn:Hl; [reflexivity|].
        assert (Ht : existsb (fun p => match lookup_file p (files w) with
                                       | Some _ => false
                                       | None => true
                                       end) (speaker0 :: others) = true).
        { apply existsb_exists. exists p. split; [exact Hp|]. now rewrite Hl. }
        rewrite Ht in Hex. discriminate. }
  cbv beta iota.
  destruct (xtts_run M text speaker0 language sample_rate) as [g | e'] eqn:Hrun.
  - cbv beta iota delta [sf_write sf_read]. simpl lookup_file.
    rewrite !String.eqb_refl. cbv beta iota delta [fst snd].
    destruct g as [gaudio gsr]. cbn [wav_audio wav_sr].
    destruct (PostProcessing.default_post_processing gaudio gsr)
      as (limited & n & Hl & Ht & _).
    rewrite Hl, Ht. discriminate.
  - intros [= <- <-]. now right.
Qed.

(** X29.  [/speak] never lets an exception through, and the engine's check
    for a blank text never fires.  It answers 400 exactly when the
    request names no speaker, no default speaker is set and the voice
    directory has no WAV, and then does nothing else.  It answers 500
    with the exception when a chosen speaker file is missing or the
    model raises, and then no audio is written.  Otherwise it answers
    with the content of the engine's temporary file: audio cloned from
    the first chosen speaker for the normalized text, no sample above
    0.8 in magnitude; the temporary file is still on disk afterwards. *)
Theorem speak_outcome (M : models) (DEFAULT_SPEAKER : option string)
  (candidates : list string) (body : App.SpeakIn) (w : world) :
  match App.speak M DEFAULT_SPEAKER candidates body w with
  | (Ok (App.Response data), w') =>
      exists speaker0 others f,
        chosen_speakers DEFAULT_SPEAKER candidates body = speaker0 :: others /\
        xtts_run M (TextNorm.normalize (App.text body)) speaker0 (App.language body) 24000
        = Ok f /\
        wav_sr data = wav_sr f /\
        (length (wav_audio data) <= length (wav_audio f))%nat /\
        Forall (fun v => (Rabs v <= 0.8)%R) (wav_audio data) /\
        lookup_file (tmp_name (tmp_count w)) (files w') = Some data
  | (Ok (App.HTTPException status_code why), w') =>
      (status_code = 400%Z /\ why = App.NoSpeakers /\
       chosen_speakers DEFAULT_SPEAKER candidates body = [] /\ w' = w) \/
      (status_code = 500%Z /\
       files w' = files w /\
       exists speaker0 others e,
         chosen_speakers DEFAULT_SPEAKER candidates body = speaker0 :: others /\
         why = App.TTSFailed e /\
         ((e = FileNotFoundError /\
           exists p, In p (speaker0 :: others) /\ lookup_file p (files w) = None) \/
          xtts_run M (TextNorm.normalize (App.text body)) speaker0 (App.language body)
            24000 = Raise e))
  | (Raise e, w') => False
  end.
Proof.
  rewrite speak_chosen.
  destruct (chosen_speakers DEFAULT_SPEAKER candidates body) as [|speaker0 others] eqn:Hc.
  { left. now repeat split. }
  destruct (normalize_cases (App.text body)) as (t & t' & Hn & _ & Hh & Hne & _ & _).
  pose proof (headed_not_blank t' Hh Hne) as Hb. rewrite <- Hn in Hb.
  unfold try_except.
  destruct (xtts_synthesize_cases M (TextNorm.normalize (App.text body))
              (speaker0 :: others) (App.language body) 24000 w)
    as [(e & c & H) | (s0 & o & f & limited & n &
                       _ & Hsp & _ & Hrun & _ & Hlen & Hall & H)].
  - rewrite (bind_raise _ _ _ _ _ H). cbn [ret].
    right. split; [reflexivity|]. split; [reflexivity|].
    exists speaker0, others, e. split; [reflexivity|]. split; [reflexivity|].
    exact (xtts_raise_cause _ _ _ _ _ _ _ _ _ Hb H).
  - injection Hsp as <- <-.
    rewrite (bind_run _ _ _ _ _ H).
    unfold bind, App.read_bytes. rewrite lookup_written. cbn [ret].
    exists speaker0, others, f. split; [reflexivity|]. split; [exact Hrun|].
    split; [reflexivity|]. cbn [wav_audio].
    split; [rewrite length_firstn; lia|].
    split; [now apply Validation.Forall_firstn|].
    apply lookup_written.
Qed.

End Normalization.
